(** * MySQL -> MSSQL bulk transfer: a shallow embedding of
      [sources/core/mysql_to_mssql_manager.py] and the properties of its
      stability gate, streaming reader, batched writer and three transfer
      entry points. *)

From Stdlib Require Import ZArith List String Ascii Bool Lia Arith.
From Stdlib Require Import DecimalString.
Import ListNotations.
Open Scope string_scope.
Open Scope list_scope.
Open Scope Z_scope.

(** ** Python strings and the module-level string helpers *)

(** Python's [needle in hay] on [str]. *)
Fixpoint contains (needle hay : string) : bool :=
  if String.prefix needle hay then true
  else match hay with
       | EmptyString => false
       | String _ hay' => contains needle hay'
       end.

(** [str.rstrip] with a character class: drops the longest suffix made of
    characters of the class. *)
Fixpoint rstrip (p : ascii -> bool) (s : string) : string :=
  match s with
  | EmptyString => EmptyString
  | String c s' =>
      match rstrip p s' with
      | EmptyString => if p c then EmptyString else String c EmptyString
      | t => String c t
      end
  end.

(** The code points below 256 that [str.isspace] accepts; strings are kept
    to one-byte characters here. *)
Definition is_space (c : ascii) : bool :=
  let n := nat_of_ascii c in
  ((9 <=? n) && (n <=? 13) || (28 <=? n) && (n <=? 32)
   || (n =? 133) || (n =? 160))%nat.

Definition is_semicolon (c : ascii) : bool := Ascii.eqb c ";".

(** [_strip_semicolon]: [sql.rstrip().rstrip(";")]. *)
Definition _strip_semicolon (sql : string) : string :=
  rstrip is_semicolon (rstrip is_space sql).

(** [str(int(n))]. *)
Definition str_of_int (n : Z) : string := NilZero.string_of_int (Z.to_int n).

(** [_wrap_unlimited]. *)
Definition _wrap_unlimited (select_sql : string) : string :=
  let core := _strip_semicolon select_sql in
  ("SELECT * FROM (" ++ core ++ ") AS _x LIMIT 18446744073709551615")%string.

(** ** Rows, exceptions, events *)

Inductive value := VNull | VInt (z : Z) | VStr (s : string).

(** A row is a Python tuple of column values; the engine never looks
    inside one. *)
Definition Row := list value.

Inductive exn :=
| ValueError (msg : string)
| RuntimeError (msg : string)
| TypeError
| DBAPIError         (* raised by the SQLAlchemy side *)
| PyodbcError.        (* [pyodbc.Error] *)

Definition is_pyodbc_error (e : exn) : bool :=
  match e with PyodbcError => true | _ => false end.

Inductive warning :=
| WRowcountBatch (inserted : Z) (submitted : nat)
| WRowcountFinal (inserted : Z) (submitted : nat)
| WStableTimeout (last : option Z)
| WNoGtid
| WDiagFailed (label : string)
| WPreviewFailed
| WDrift (expected actual : Z)
| WDestDifference (fetched inserted : Z).

Inductive failure :=
| EInsertionFailed
| EStreamingFailed
| EStreamingTransferFailed
| EFetchallFailed
| EFetchoneFailed.

(** What the program does to the outside world, in order.  Info-level log
    records are left out; warnings and errors are kept. *)
Inductive event :=
| SrcConnect
| SrcRelease
| SrcExec (sql : string)
| SrcFetchMany (size : Z) (page : list Row)
| SrcFetchAll
| SrcFetchOne
| DstConnect
| DstCursor
| DstExecMany (sql : string) (batch : list Row)
| DstCommit
| DstCursorClose
| Sleep (seconds : Z)
| LogWarning (w : warning)
| LogError (f : failure).

(** ** The two engines as seen by the program *)

(** A result set on the source side: the rows still to be delivered and
    whether the connection drops once they are used up. *)
Record cursor := mkCursor { pending : list Row; broken : bool }.

Inductive exec_reply :=
| Rowcount (rc : option Z)   (* [cur.rowcount] after a successful call *)
| ExecFails.                 (* the call raises [pyodbc.Error] *)

Record env := mkEnv {
  (* executing a statement on the source: [None] when it raises *)
  query : string -> option cursor;
  (* the n-th execution of the COUNT( * ) poll: [None] when it raises *)
  counts : nat -> option Z;
  (* the value of [SELECT @@read_only], [None] when it raises *)
  read_only : option Z;
  (* the n-th [executemany] on the destination *)
  driver : nat -> list Row -> exec_reply
}.

Record world := mkWorld {
  trace : list event;
  polls : nat;                       (* COUNT polls answered so far *)
  calls : nat;                       (* [executemany] calls made so far *)
  uncommitted : list (list Row);     (* destination: open transaction *)
  committed : list (list Row)        (* destination: durable batches *)
}.

Definition w0 : world := mkWorld [] 0 0 [] [].

(** ** A state-and-exception monad over the world *)

Inductive res (A : Type) :=
| Ok (a : A)
| Raise (e : exn)
| OutOfFuel.          (* the model's loop budget ran out: no Python outcome *)
Arguments Ok {A} a.
Arguments Raise {A} e.
Arguments OutOfFuel {A}.

Definition M (A : Type) : Type := world -> res A * world.

Definition ret {A} (a : A) : M A := fun w => (Ok a, w).

Definition bind {A B} (m : M A) (k : A -> M B) : M B :=
  fun w => match m w with
           | (Ok a, w') => k a w'
           | (Raise e, w') => (Raise e, w')
           | (OutOfFuel, w') => (OutOfFuel, w')
           end.

Definition raise {A} (e : exn) : M A := fun w => (Raise e, w).

Definition out_of_fuel {A} : M A := fun w => (OutOfFuel, w).

Declare Scope monad_scope.
Delimit Scope monad_scope with monad.
Notation "x <- m ;; k" := (bind m (fun x => k))
  (at level 61, m at next level, right associativity) : monad_scope.
Notation "m ;;; k" := (bind m (fun _ => k))
  (at level 61, right associativity) : monad_scope.
Open Scope monad_scope.

(** [try: m except Exception as e: h e]. *)
Definition catch {A} (m : M A) (h : exn -> M A) : M A :=
  fun w => match m w with
           | (Raise e, w') => h e w'
           | r => r
           end.

(** [try: m finally: f]. *)
Definition finally {A} (m : M A) (f : M unit) : M A :=
  fun w => match m w with
           | (Ok a, w') => (f ;;; ret a) w'
           | (Raise e, w') => (f ;;; raise e) w'
           | (OutOfFuel, w') => (OutOfFuel, w')
           end.

Definition emit (ev : event) : M unit :=
  fun w => (Ok tt, mkWorld (trace w ++ [ev]) (polls w) (calls w)
                           (uncommitted w) (committed w)).

Definition log_warning (x : warning) : M unit := emit (LogWarning x).
Definition log_error (f : failure) : M unit := emit (LogError f).

(** ** Generators

    [_mssql_execmany] takes any iterable.  A generator is the finite tree
    of what it does between two [next] calls: an effect, a yielded row,
    its normal end or an exception. *)
Inductive gen :=
| GDone
| GRaise (e : exn)
| GYield (row : Row) (k : gen)
| GEvent (ev : event) (k : gen)
| GFuel.              (* the model's loop budget ran out *)

(** Iterating over a list. *)
Definition gen_of_list (rows : list Row) : gen := fold_right GYield GDone rows.

(** [for row in batch: yield tuple(row)], continued by [k]. *)
Definition yield_all (batch : list Row) (k : gen) : gen :=
  fold_right GYield k batch.

(** The rows a generator yields, in order. *)
Fixpoint rows_of (g : gen) : list Row :=
  match g with
  | GYield row k => row :: rows_of k
  | GEvent _ k => rows_of k
  | _ => []
  end.

(** The pages a generator fetched, in order (empty end-of-data page
    included). *)
Fixpoint pages_of (g : gen) : list (list Row) :=
  match g with
  | GYield _ k => pages_of k
  | GEvent (SrcFetchMany _ page) k => page :: pages_of k
  | GEvent _ k => pages_of k
  | _ => []
  end.

(** How a generator ends. *)
Fixpoint ending (g : gen) : res unit :=
  match g with
  | GDone => Ok tt
  | GRaise e => Raise e
  | GYield _ k | GEvent _ k => ending k
  | GFuel => OutOfFuel
  end.

(** ** Source-side cursor operations *)

(** [res.fetchmany(size)]: the next page of at most [size] rows; raises
    when the connection has dropped before the page is complete. *)
Definition fetchmany (size : Z) (c : cursor) : option (list Row * cursor) :=
  let k := Z.to_nat size in
  if ((List.length (pending c) <? k)%nat && broken c)%bool then None
  else Some (firstn k (pending c), mkCursor (skipn k (pending c)) (broken c)).

(** [res.fetchall()]. *)
Definition fetchall (c : cursor) : option (list Row) :=
  if broken c then None else Some (pending c).

Record self := mkSelf {
  mssql_fast_executemany : bool;
  mssql_verify_rowcount : bool
}.

Section Engine.

Variable E : env.

(** [c.execute(text(sql))]. *)
Definition execute (sql : string) : M cursor :=
  emit (SrcExec sql) ;;;
  match query E sql with
  | Some c => ret c
  | None => raise DBAPIError
  end.

(** [with self.mysql_engine.connect() as c: body]. *)
Definition with_connection {A} (body : M A) : M A :=
  emit SrcConnect ;;; finally body (emit SrcRelease).

(** [int(conn.execute(text(count_sql)).scalar_one())]. *)
Definition count_query (count_sql : string) : M Z :=
  emit (SrcExec count_sql) ;;;
  fun w =>
    let w' := mkWorld (trace w) (S (polls w)) (calls w)
                      (uncommitted w) (committed w) in
    match counts E (polls w) with
    | Some cnt => (Ok cnt, w')
    | None => (Raise DBAPIError, w')
    end.

(** [time.sleep(seconds)]; a negative argument raises [ValueError]. *)
Definition sleep (seconds : Z) : M unit :=
  if seconds <? 0 then raise (ValueError "sleep length must be non-negative")
  else emit (Sleep seconds).

(** ** The stability gate *)

Inductive gate_exit :=
| Stabilized (cnt : Z)            (* the [return cnt] inside the loop *)
| TimedOut (last : option Z).     (* the loop condition became false *)

(** [cnt == last] with [last : Optional[int]]. *)
Definition same_as_last (cnt : Z) (last : option Z) : bool :=
  match last with
  | Some l => cnt =? l
  | None => false
  end.

(** The [while waited <= max_wait] loop of [_wait_for_stable_count]; one
    unit of fuel per iteration. *)
Fixpoint poll_loop (fuel : nat) (wrapped_sql : string)
    (stable_for interval max_wait : Z)
    (last : option Z) (same_for waited : Z) : M gate_exit :=
  match fuel with
  | O => out_of_fuel
  | S fuel' =>
      if waited <=? max_wait then
        cnt <- count_query ("SELECT COUNT(*) FROM (" ++ wrapped_sql ++ ") subq")%string ;;
        if same_as_last cnt last then
          let same_for := same_for + interval in
          if stable_for <=? same_for then ret (Stabilized cnt)
          else
            sleep interval ;;;
            poll_loop fuel' wrapped_sql stable_for interval max_wait
                      last same_for (waited + interval)
        else
          sleep interval ;;;
          poll_loop fuel' wrapped_sql stable_for interval max_wait
                    (Some cnt) 0 (waited + interval)
      else ret (TimedOut last)
  end.

Definition _wait_for_stable_count (fuel : nat) (wrapped_sql : string)
    (stable_for interval max_wait : Z) : M Z :=
  x <- poll_loop fuel wrapped_sql stable_for interval max_wait None 0 0 ;;
  match x with
  | Stabilized cnt => ret cnt
  | TimedOut last =>
      log_warning (WStableTimeout last) ;;;
      ret (match last with Some l => l | None => 0 end)
  end.

(** ** The streaming reader *)

(** The [while True] page loop of [_stream_rows]. *)
Fixpoint page_loop (fuel : nat) (arraysize : Z) (c : cursor)
    (on_error on_end : gen) : gen :=
  match fuel with
  | O => GFuel
  | S fuel' =>
      match fetchmany arraysize c with
      | None => GEvent (SrcFetchMany arraysize []) on_error
      | Some (batch, c') =>
          GEvent (SrcFetchMany arraysize batch)
            (match batch with
             | [] => on_end
             | _ => yield_all batch
                      (page_loop fuel' arraysize c' on_error on_end)
             end)
      end
  end.

(** [_stream_rows]; [conn_given] tells whether the caller passed [conn].
    The [finally] block releases the connection the generator opened
    itself. *)
Definition _stream_rows (select_sql : string) (arraysize : Z)
    (conn_given : bool) : gen :=
  let select_sql := _wrap_unlimited select_sql in
  let release (k : gen) := if conn_given then k else GEvent SrcRelease k in
  let failed (e : exn) :=
    GEvent (LogError EStreamingFailed) (release (GRaise e)) in
  let body :=
    GEvent (SrcExec "SET autocommit = 1")
      (match query E "SET autocommit = 1" with
       | None => failed DBAPIError
       | Some _ =>
           GEvent (SrcExec select_sql)
             (match query E select_sql with
              | None => failed DBAPIError
              | Some c =>
                  page_loop (S (List.length (pending c))) arraysize c
                            (failed DBAPIError) (release GDone)
              end)
       end) in
  if conn_given then body else GEvent SrcConnect body.

(** ** The destination writer *)

(** [cur.executemany(insert_sql, buf)] followed by reading [cur.rowcount]. *)
Definition executemany (insert_sql : string) (buf : list Row)
  : M (option Z) :=
  fun w =>
    let t := trace w ++ [DstExecMany insert_sql buf] in
    match driver E (calls w) buf with
    | Rowcount rc =>
        (Ok rc, mkWorld t (polls w) (S (calls w))
                        (uncommitted w ++ [buf]) (committed w))
    | ExecFails =>
        (Raise PyodbcError, mkWorld t (polls w) (S (calls w))
                                    (uncommitted w) (committed w))
    end.

(** [conn.commit()] on a connection opened with [autocommit=False]. *)
Definition commit : M unit :=
  fun w => (Ok tt, mkWorld (trace w ++ [DstCommit]) (polls w) (calls w)
                           [] (committed w ++ uncommitted w)).

(** [cur.rowcount if cur.rowcount is not None and cur.rowcount >= 0
     else len(buf)]. *)
Definition credited (rowcount : option Z) (buf : list Row) : Z :=
  match rowcount with
  | Some n => if 0 <=? n then n else Z.of_nat (List.length buf)
  | None => Z.of_nat (List.length buf)
  end.

(** One [executemany] with its bookkeeping; [final] selects the warning
    text of the final batch. *)
Definition execute_batch (insert_sql : string) (verify_rowcount final : bool)
    (buf : list Row) : M Z :=
  rc <- executemany insert_sql buf ;;
  let inserted := credited rc buf in
  (if (verify_rowcount && (inserted <? Z.of_nat (List.length buf)))%bool
   then log_warning
          ((if final then WRowcountFinal else WRowcountBatch)
             inserted (List.length buf))
   else ret tt) ;;;
  ret inserted.

(** The [for row in rows] loop of [_mssql_execmany]. *)
Fixpoint drain (insert_sql : string) (batch : Z) (verify_rowcount : bool)
    (rows : gen) (buf : list Row) (total : Z) : M (list Row * Z) :=
  match rows with
  | GDone => ret (buf, total)
  | GRaise e => raise e
  | GFuel => out_of_fuel
  | GEvent ev k =>
      emit ev ;;; drain insert_sql batch verify_rowcount k buf total
  | GYield row k =>
      let buf := buf ++ [row] in
      if batch <=? Z.of_nat (List.length buf) then
        inserted <- execute_batch insert_sql verify_rowcount false buf ;;
        drain insert_sql batch verify_rowcount k [] (total + inserted)
      else drain insert_sql batch verify_rowcount k buf total
  end.

(** [except pyodbc.Error as e: log.error(...); raise]. *)
Definition except_pyodbc {A} (m : M A) : M A :=
  catch m (fun e =>
    if is_pyodbc_error e then log_error EInsertionFailed ;;; raise e
    else raise e).

(** [_mssql_execmany].  The assignment
    [cur.fast_executemany = bool(use_fast_executemany)] only configures how
    the cursor sends its parameters: the oracle [driver] speaks for the
    destination as reached through the cursor so configured, and the flag
    is carried as a parameter that no definition reads. *)
Definition _mssql_execmany (insert_sql : string) (rows : gen) (batch : Z)
    (use_fast_executemany verify_rowcount : bool) : M Z :=
  emit DstCursor ;;;
  finally
    (except_pyodbc
       (st <- drain insert_sql batch verify_rowcount rows [] 0 ;;
        let '(buf, total) := st in
        total <- (match buf with
                  | [] => ret total
                  | _ =>
                      inserted <- execute_batch insert_sql verify_rowcount
                                                true buf ;;
                      ret (total + inserted)
                  end) ;;
        commit ;;;
        ret total))
    (emit DstCursorClose).

End Engine.

(** ** The class [MySQLToMSSQLSA] *)

Section Manager.

Variable E : env.

Definition session_statements : list string :=
  [ "SET SESSION TRANSACTION ISOLATION LEVEL READ COMMITTED";
    "SET SESSION wait_timeout = 3600";
    "SET autocommit = 1";
    "SET SESSION SQL_SELECT_LIMIT = DEFAULT";
    "SET SESSION SQL_BIG_SELECTS = 1";
    "SET SESSION net_read_timeout = 6000";
    "SET SESSION net_write_timeout = 6000" ].

(** The session-state query, on one line. *)
Definition session_state_sql : string :=
  "SELECT @@autocommit, @@transaction_isolation, @@wait_timeout, @@session.sql_select_limit, @@sql_big_selects, @@max_join_size".

Fixpoint execute_each (stmts : list string) : M unit :=
  match stmts with
  | [] => ret tt
  | s :: rest => execute E s ;;; execute_each rest
  end.

(** [res.fetchall()] on a cursor, as an action. *)
Definition do_fetchall (c : cursor) : M (list Row) :=
  emit SrcFetchAll ;;;
  match fetchall c with
  | Some rows => ret rows
  | None => raise DBAPIError
  end.

Definition _ensure_mysql_fresh_session : M unit :=
  with_connection
    (execute_each session_statements ;;;
     c <- execute E session_state_sql ;;
     do_fetchall c ;;;
     ret tt).

(** [db, user, host, uuid, ro, ver = res.fetchone()]. *)
Definition unpack_context (c : cursor) : M unit :=
  emit SrcFetchOne ;;;
  match pending c with
  | [] => if broken c then raise DBAPIError else raise TypeError
  | row :: _ =>
      if (List.length row =? 6)%nat then ret tt
      else raise (ValueError "unpack")
  end.

Definition _mysql_diag (label : string) : M unit :=
  catch
    (with_connection
       (execute E "SET autocommit = 1" ;;;
        c <- execute E "SELECT DATABASE(), USER(), @@hostname, @@server_uuid, @@read_only, @@version" ;;
        unpack_context c ;;;
        catch (execute E "SELECT @@global.gtid_executed" ;;; ret tt)
              (fun _ => log_warning WNoGtid)))
    (fun _ => log_warning (WDiagFailed label)).

Definition _mysql_is_read_only : M bool :=
  with_connection
    (execute E "SET autocommit = 1" ;;;
     emit (SrcExec "SELECT @@read_only") ;;;
     match read_only E with
     | Some ro => ret (ro =? 1)
     | None => raise DBAPIError
     end).

(** [_preview_rows]. *)
Definition _preview_rows (select_sql : string) (n : Z) : M (list Row) :=
  let sql := (_strip_semicolon select_sql ++ " LIMIT " ++ str_of_int n)%string in
  with_connection
    (execute E "SET autocommit = 1" ;;;
     c <- execute E sql ;;
     do_fetchall c).

(** The driver names [build_mysql_url] accepts; any other raises
    [ValueError].  The URL text itself is only logged. *)
Definition supported_mysql_driver (d : string) : bool :=
  existsb (String.eqb d)
    ["mysqlconnector"; "pymysql"; "mysqldb"; "mariadb"; "pyodbc"].

(** [MySQLToMSSQLSA.__init__]: [create_engine] is lazy, the first source
    connection is made by [_ensure_mysql_fresh_session]; the destination
    connection is opened last.  The constructor is followed on the paths
    on which [pyodbc.connect] returns: a destination that refuses the
    connection is not a path of this definition. *)
Definition __init__ (mysql_driver : string) (force_writer : bool)
    (fast_executemany verify_rowcount : bool) : M self :=
  if supported_mysql_driver mysql_driver then
    _ensure_mysql_fresh_session ;;;
    _mysql_diag "initial" ;;;
    ro <- (if force_writer then _mysql_is_read_only else ret false) ;;
    if ro then
      raise (RuntimeError
               "Connected MySQL server is read-only (likely a replica).")
    else
      emit DstConnect ;;;
      ret (mkSelf fast_executemany verify_rowcount)
  else
    raise (ValueError ("Unsupported mysql_driver: " ++ mysql_driver)%string).

(** The "Peek" block shared by the three entry points:
    [try: preview = self._preview_rows(...) except Exception: log.warning]. *)
Definition peek (select_sql : string) (preview_rows : Z) : M unit :=
  catch (_preview_rows select_sql preview_rows ;;; ret tt)
        (fun _ => log_warning WPreviewFailed).

(** [except Exception as e: log.error(...); raise]. *)
Definition logged {A} (f : failure) (m : M A) : M A :=
  catch m (fun e => log_error f ;;; raise e).

Definition unresolved_placeholder {A} (select_sql : string) : M A :=
  raise (ValueError
           ("Unresolved placeholder in select_sql: " ++ select_sql)%string).

Definition open_stable_session : M unit :=
  execute E "SET SESSION TRANSACTION ISOLATION LEVEL READ COMMITTED" ;;;
  execute E "SET autocommit = 1" ;;;
  ret tt.

(** [transfer]: the streaming strategy. *)
Definition transfer (fuel : nat) (this : self)
    (select_sql insert_sql : string)
    (preview_rows chunk_size batch_size : Z)
    (stable_for_seconds poll_interval_seconds max_wait_seconds : Z) : M Z :=
  if contains "|||" select_sql then unresolved_placeholder select_sql
  else
    _ensure_mysql_fresh_session ;;;
    _mysql_diag "pre-select" ;;;
    peek select_sql preview_rows ;;;
    let wrapped := _wrap_unlimited select_sql in
    st <- logged EStreamingTransferFailed
            (with_connection
               (open_stable_session ;;;
                expected <- _wait_for_stable_count E fuel wrapped
                              stable_for_seconds poll_interval_seconds
                              max_wait_seconds ;;
                let rows_iter := _stream_rows E select_sql chunk_size true in
                total <- _mssql_execmany E insert_sql rows_iter batch_size
                           (mssql_fast_executemany this)
                           (mssql_verify_rowcount this) ;;
                ret (expected, total))) ;;
    let '(expected, total) := st in
    _mysql_diag "post-insert" ;;;
    (if ((0 <=? expected) && negb (expected =? total))%bool
     then log_warning (WDrift expected total) else ret tt) ;;;
    ret total.

(** [transfer_fetchall]: the bulk strategy. *)
Definition transfer_fetchall (fuel : nat) (this : self)
    (select_sql insert_sql : string)
    (preview_rows batch_size : Z)
    (stable_for_seconds poll_interval_seconds max_wait_seconds : Z) : M Z :=
  if contains "|||" select_sql then unresolved_placeholder select_sql
  else
    _ensure_mysql_fresh_session ;;;
    _mysql_diag "pre-select" ;;;
    peek select_sql preview_rows ;;;
    let wrapped := _wrap_unlimited select_sql in
    st <- logged EFetchallFailed
            (with_connection
               (open_stable_session ;;;
                expected <- _wait_for_stable_count E fuel wrapped
                              stable_for_seconds poll_interval_seconds
                              max_wait_seconds ;;
                c <- execute E wrapped ;;
                rows <- do_fetchall c ;;
                ret (expected, rows))) ;;
    let '(expected, rows) := st in
    total <- _mssql_execmany E insert_sql (gen_of_list rows) batch_size
               (mssql_fast_executemany this) (mssql_verify_rowcount this) ;;
    _mysql_diag "post-insert" ;;;
    let fetched := Z.of_nat (List.length rows) in
    (if ((0 <=? expected) && negb (expected =? fetched))%bool
     then log_warning (WDrift expected fetched) else ret tt) ;;;
    (if negb (fetched =? total)
     then log_warning (WDestDifference fetched total) else ret tt) ;;;
    ret total.

(** The [while True: row = res.fetchone()] loop of [transfer_fetchone],
    by recursion on the rows the cursor still holds. *)
Fixpoint fetchone_loop (this : self) (insert_sql : string) (batch_size : Z)
    (rows : list Row) (drops : bool)
    (buf : list Row) (total_inserted fetched : Z) : M (list Row * Z * Z) :=
  emit SrcFetchOne ;;;
  match rows with
  | [] =>
      if drops then raise DBAPIError
      else ret (buf, total_inserted, fetched)
  | row :: rest =>
      let fetched := fetched + 1 in
      let buf := buf ++ [row] in
      if batch_size <=? Z.of_nat (List.length buf) then
        inserted <- _mssql_execmany E insert_sql (gen_of_list buf) batch_size
                      (mssql_fast_executemany this)
                      (mssql_verify_rowcount this) ;;
        fetchone_loop this insert_sql batch_size rest drops
                      [] (total_inserted + inserted) fetched
      else
        fetchone_loop this insert_sql batch_size rest drops
                      buf total_inserted fetched
  end.

(** [transfer_fetchone]: the row-by-row strategy. *)
Definition transfer_fetchone (fuel : nat) (this : self)
    (select_sql insert_sql : string)
    (preview_rows batch_size : Z)
    (stable_for_seconds poll_interval_seconds max_wait_seconds : Z) : M Z :=
  if contains "|||" select_sql then unresolved_placeholder select_sql
  else
    _ensure_mysql_fresh_session ;;;
    _mysql_diag "pre-select" ;;;
    peek select_sql preview_rows ;;;
    let wrapped := _wrap_unlimited select_sql in
    st <- logged EFetchoneFailed
            (with_connection
               (open_stable_session ;;;
                expected <- _wait_for_stable_count E fuel wrapped
                              stable_for_seconds poll_interval_seconds
                              max_wait_seconds ;;
                c <- execute E wrapped ;;
                st <- fetchone_loop this insert_sql batch_size
                        (pending c) (broken c) [] 0 0 ;;
                let '(buf, total_inserted, fetched) := st in
                total_inserted <-
                  (match buf with
                   | [] => ret total_inserted
                   | _ =>
                       inserted <- _mssql_execmany E insert_sql
                                     (gen_of_list buf) batch_size
                                     (mssql_fast_executemany this)
                                     (mssql_verify_rowcount this) ;;
                       ret (total_inserted + inserted)
                   end) ;;
                ret (expected, total_inserted, fetched))) ;;
    let '(expected, total_inserted, fetched) := st in
    _mysql_diag "post-insert" ;;;
    (if ((0 <=? expected) && negb (expected =? fetched))%bool
     then log_warning (WDrift expected fetched) else ret tt) ;;;
    (if negb (fetched =? total_inserted)
     then log_warning (WDestDifference fetched total_inserted)
     else ret tt) ;;;
    ret total_inserted.

End Manager.

(** ** Auxiliary definitions used in the statements *)

(** The world after one COUNT poll, and after the sleep that follows. *)
Definition polled (sql : string) (w : world) : world :=
  mkWorld (trace w ++ [SrcExec sql]) (S (polls w)) (calls w)
          (uncommitted w) (committed w).

Definition slept (seconds : Z) (w : world) : world :=
  mkWorld (trace w ++ [Sleep seconds]) (polls w) (calls w)
          (uncommitted w) (committed w).

(** The number of gate iterations still ahead when [waited] seconds have
    passed. *)
Definition polls_left (interval max_wait waited : Z) : Z :=
  if waited <=? max_wait then (max_wait - waited) / interval + 1 else 0.

(** The buffer discipline of the writer on a plain list of rows: the
    batches that get full, and the rows left in the buffer at the end. *)
Fixpoint fill (batch : Z) (buf : list Row) (rows : list Row)
  : list (list Row) * list Row :=
  match rows with
  | [] => ([], buf)
  | row :: rest =>
      let buf := buf ++ [row] in
      if batch <=? Z.of_nat (List.length buf) then
        let (bs, left) := fill batch [] rest in (buf :: bs, left)
      else fill batch buf rest
  end.

Definition final_batch (left : list Row) : list (list Row) :=
  match left with
  | [] => []
  | _ => [left]
  end.

(** All batches of a run: the full ones, then the final partial one. *)
Definition batches (batch : Z) (rows : list Row) : list (list Row) :=
  fst (fill batch [] rows) ++ final_batch (snd (fill batch [] rows)).

(** How many leading batches the destination accepts, from call number
    [i] on. *)
Fixpoint accepted (E : env) (i : nat) (bs : list (list Row)) : nat :=
  match bs with
  | [] => O
  | b :: bs' =>
      match driver E i b with
      | Rowcount _ => S (accepted E (S i) bs')
      | ExecFails => O
      end
  end.

Definition reported (r : exec_reply) : option Z :=
  match r with
  | Rowcount rc => rc
  | ExecFails => None
  end.

(** The sum of the counts credited to batches submitted from call number
    [i] on. *)
Fixpoint credits (E : env) (i : nat) (bs : list (list Row)) : Z :=
  match bs with
  | [] => 0
  | b :: bs' => credited (reported (driver E i b)) b + credits E (S i) bs'
  end.

(** A computation only ever adds to the trace. *)
Definition appends {A} (m : M A) : Prop :=
  forall w r w', m w = (r, w') -> exists t, trace w' = trace w ++ t.

(** A computation adds to the trace, and what it adds begins with [evs]. *)
Definition begins {A} (evs : list event) (m : M A) : Prop :=
  forall w r w', m w = (r, w') -> exists t, trace w' = trace w ++ evs ++ t.

(** ** Scenarios *)

(** [n] one-column rows, numbered from 0. *)
Definition numbered_rows (n : nat) : list Row :=
  map (fun i => [VInt (Z.of_nat i)]) (seq 0 n).

(** A source on which every statement succeeds and on which the wrapped
    [select_sql] delivers [rows]. *)
Definition answering (select_sql : string) (rows : list Row)
  : string -> option cursor :=
  fun sql =>
    if String.eqb sql (_wrap_unlimited select_sql)
    then Some (mkCursor rows false)
    else Some (mkCursor [] false).

(** A destination that accepts every call and reports no row count. *)
Definition silent_driver : nat -> list Row -> exec_reply :=
  fun _ _ => Rowcount (Some (-1)).

(** A destination whose second call fails. *)
Definition second_call_fails : nat -> list Row -> exec_reply :=
  fun i _ => if (i =? 1)%nat then ExecFails else Rowcount (Some (-1)).

(** A destination that reports seven affected rows for every call, as a
    table with triggers may. *)
Definition trigger_driver : nat -> list Row -> exec_reply :=
  fun _ _ => Rowcount (Some 7).

Definition src_sql : string := "SELECT id FROM src".

Definition templated_sql : string :=
  "SELECT id FROM src WHERE day = '|||RUN_DATE|||'".

Definition dst_sql : string := "INSERT INTO dst (id) VALUES (?)".

(** Scenario A of the specification: 2,500 rows. *)
Definition scenario_A_env : env :=
  mkEnv (answering src_sql (numbered_rows 2500)) (fun _ => Some 2500)
        (Some 0) silent_driver.

(** Scenario B of the specification: counts 10, 12, 15, 15, 15. *)
Definition scenario_B_env : env :=
  mkEnv (answering src_sql []) (fun i => nth_error [10; 12; 15; 15; 15] i)
        (Some 0) silent_driver.

(** A source whose count grows at every poll. *)
Definition growing_env : env :=
  mkEnv (answering src_sql []) (fun i => Some (Z.of_nat i)) (Some 0)
        silent_driver.

(** Four rows, stable count, every destination call accepted. *)
Definition small_env : env :=
  mkEnv (answering src_sql (numbered_rows 4)) (fun _ => Some 4) (Some 0)
        silent_driver.

(** Four rows, and a destination whose second call fails. *)
Definition failing_env : env :=
  mkEnv (answering src_sql (numbered_rows 4)) (fun _ => Some 4) (Some 0)
        second_call_fails.

(** Five rows, and a destination that over-reports. *)
Definition trigger_env : env :=
  mkEnv (answering src_sql (numbered_rows 5)) (fun _ => Some 5) (Some 0)
        trigger_driver.

(** Four rows, and a source on which the preview statement fails. *)
Definition preview_fails_env : env :=
  mkEnv (fun sql =>
           if String.eqb sql "SELECT id FROM src LIMIT 10" then None
           else answering src_sql (numbered_rows 4) sql)
        (fun _ => Some 4) (Some 0) silent_driver.

Definition manager : self := mkSelf true true.

(** ** Further auxiliary definitions *)

(** The last character of a string, if any. *)
Fixpoint last_char (s : string) : option ascii :=
  match s with
  | EmptyString => None
  | String c EmptyString => Some c
  | String _ s' => last_char s'
  end.

(** Every character of the string is in the class. *)
Fixpoint all_chars (p : ascii -> bool) (s : string) : bool :=
  match s with
  | EmptyString => true
  | String c s' => p c && all_chars p s'
  end.

(** A source whose third COUNT query fails. *)
Definition count_fails_env : env :=
  mkEnv (answering src_sql (numbered_rows 4))
        (fun i => if (i <? 2)%nat then Some (Z.of_nat i) else None)
        (Some 0) silent_driver.

(** [_count_subquery]: the one-shot count, on a connection of its own. *)
Definition _count_subquery (E : env) (select_sql : string) : M Z :=
  let select_sql := _wrap_unlimited select_sql in
  let count_sql := ("SELECT COUNT(*) FROM (" ++ select_sql ++ ") AS subq")%string in
  with_connection
    (execute E "SET autocommit = 1" ;;;
     count_query E count_sql).

(** Every event a computation adds to the trace is of kind [P]. *)
Definition emits (P : event -> Prop) {A} (m : M A) : Prop :=
  forall w r w', m w = (r, w') ->
    exists t, trace w' = trace w ++ t /\ Forall P t.

(** A computation leaves the projection [f] of the world as it was. *)
Definition keeps {X} (f : world -> X) {A} (m : M A) : Prop :=
  forall w r w', m w = (r, w') -> f w' = f w.

(** The destination as the program can affect it. *)
Definition dest (w : world) : nat * list (list Row) * list (list Row) :=
  (calls w, uncommitted w, committed w).

(** Events on the destination connection. *)
Definition is_dst (ev : event) : bool :=
  match ev with
  | DstConnect | DstCursor | DstExecMany _ _ | DstCommit | DstCursorClose => true
  | _ => false
  end.

(** Taking and giving back a source connection. *)
Definition is_conn (ev : event) : bool :=
  match ev with
  | SrcConnect | SrcRelease => true
  | _ => false
  end.

(** Source connections taken minus source connections given back. *)
Fixpoint held (t : list event) : Z :=
  match t with
  | [] => 0
  | SrcConnect :: t' => 1 + held t'
  | SrcRelease :: t' => held t' - 1
  | _ :: t' => held t'
  end.

(** A computation that ends gives back every source connection it
    took. *)
Definition balanced {A} (m : M A) : Prop :=
  forall w r w', m w = (r, w') -> r <> OutOfFuel ->
    exists t, trace w' = trace w ++ t /\ held t = 0.

(** The events of a generator, in order. *)
Fixpoint events_of (g : gen) : list event :=
  match g with
  | GEvent ev k => ev :: events_of k
  | GYield _ k => events_of k
  | _ => []
  end.

(** The events the gate can add. *)
Definition gate_event (wrapped_sql : string) (interval : Z) (ev : event) : Prop :=
  ev = SrcExec ("SELECT COUNT(*) FROM (" ++ wrapped_sql ++ ") subq")%string \/
  ev = Sleep interval \/
  exists last, ev = LogWarning (WStableTimeout last).

(** A computation that works on the source and the log only. *)
Definition source_only {A} (m : M A) : Prop :=
  forall w r w', m w = (r, w') ->
    calls w' = calls w /\ uncommitted w' = uncommitted w /\
    committed w' = committed w /\
    exists t, trace w' = trace w ++ t /\ Forall (fun ev => is_dst ev = false) t.

(** A read-only replica as source. *)
Definition replica_env : env :=
  mkEnv (answering src_sql (numbered_rows 4)) (fun _ => Some 4) (Some 1)
        silent_driver.

(** A constructor run touches the destination at most once, to open
    the connection, as its last action.  When it returns, it has done so;
    when it ends with an exception that is not the destination driver's,
    it has not; nothing more is said of a [pyodbc.Error]. *)
Definition opens_destination_last (fast verify : bool) (m : M self) : Prop :=
  forall w r w', m w = (r, w') ->
    exists t, trace w' = trace w ++ t /\
      match r with
      | Ok this =>
          this = mkSelf fast verify /\
          exists t0, t = t0 ++ [DstConnect] /\
                     Forall (fun ev => is_dst ev = false) t0
      | Raise PyodbcError =>
          exists t0, Forall (fun ev => is_dst ev = false) t0 /\
                     (t = t0 \/ t = t0 ++ [DstConnect])
      | _ => Forall (fun ev => is_dst ev = false) t
      end.

(** Two computations that, started on the same destination state, end
    with the same result and the same destination state (their traces
    may differ). *)
Definition alike {A} (m1 m2 : M A) : Prop :=
  forall w1 w2, dest w1 = dest w2 ->
    fst (m1 w1) = fst (m2 w2) /\ dest (snd (m1 w1)) = dest (snd (m2 w2)).

(** A source on which every statement succeeds and no result set is cut
    short. *)
Definition answers_all (E : env) : Prop :=
  forall sql, exists rows, query E sql = Some (mkCursor rows false).

(** The statements of the session set-up, which every entry point runs
    before the preview (those of the stabilization connection are among
    them). *)
Definition setup_statements : list string :=
  session_statements ++ [session_state_sql].

(** A source on which each of the statements [sqls] succeeds and
    delivers its whole result set; nothing is said about any other
    statement. *)
Definition answers (E : env) (sqls : list string) : Prop :=
  forall sql, In sql sqls ->
    exists rows, query E sql = Some (mkCursor rows false).

(** The world with one more event in its trace. *)
Definition after (ev : event) (w : world) : world :=
  mkWorld (trace w ++ [ev]) (polls w) (calls w) (uncommitted w) (committed w).

(** The world in which the body of an entry point's stabilization block
    starts: connected, with the two session statements run. *)
Definition in_session (w : world) : world :=
  after (SrcExec "SET autocommit = 1")
    (after (SrcExec "SET SESSION TRANSACTION ISOLATION LEVEL READ COMMITTED")
       (after SrcConnect w)).

(** A computation that never returns normally. *)
Definition fails {A} (m : M A) : Prop :=
  forall w r w', m w = (r, w') -> forall a, r <> Ok a.

(** Four rows, on a connection that drops while they are read. *)
Definition dropping_env : env :=
  mkEnv (fun sql =>
           if String.eqb sql (_wrap_unlimited src_sql)
           then Some (mkCursor (numbered_rows 4) true)
           else Some (mkCursor [] false))
        (fun _ => Some 4) (Some 0) silent_driver.

(** * Properties *)

(** ** Running the monad *)

Lemma bind_run {A B} (m : M A) (k : A -> M B) (w : world) r w' :
  m w = (r, w') ->
  bind m k w = match r with
               | Ok a => k a w'
               | Raise e => (Raise e, w')
               | OutOfFuel => (OutOfFuel, w')
               end.
Proof. intros H. unfold bind. rewrite H. destruct r; reflexivity. Qed.

Lemma catch_run {A} (m : M A) (h : exn -> M A) (w : world) r w' :
  m w = (r, w') ->
  catch m h w = match r with
                | Raise e => h e w'
                | _ => (r, w')
                end.
Proof. intros H. unfold catch. rewrite H. destruct r; reflexivity. Qed.

Lemma finally_run {A} (m : M A) (f : M unit) (w : world) r w' :
  m w = (r, w') ->
  finally m f w = match r with
                  | Ok a => (f ;;; ret a) w'
                  | Raise e => (f ;;; raise e) w'
                  | OutOfFuel => (OutOfFuel, w')
                  end.
Proof. intros H. unfold finally. rewrite H. destruct r; reflexivity. Qed.

Lemma emit_run (ev : event) (w : world) :
  emit ev w = (Ok tt, mkWorld (trace w ++ [ev]) (polls w) (calls w)
                              (uncommitted w) (committed w)).
Proof. reflexivity. Qed.

(** ** The stability gate *)

Section GateFacts.

Variable E : env.
Variables (wrapped_sql : string) (stable_for interval max_wait : Z).

Let count_sql : string :=
  ("SELECT COUNT(*) FROM (" ++ wrapped_sql ++ ") subq")%string.

Local Abbreviation loop fuel :=
  (poll_loop E fuel wrapped_sql stable_for interval max_wait).
Local Abbreviation polls_left := (polls_left interval max_wait).

(** One iteration of the loop, spelled out on the world. *)
Lemma poll_loop_S (fuel : nat) (last : option Z) (same_for waited : Z) (w : world) :
  loop (S fuel) last same_for waited w =
  if waited <=? max_wait then
    match counts E (polls w) with
    | None => (Raise DBAPIError, polled count_sql w)
    | Some cnt =>
        if same_as_last cnt last then
          if stable_for <=? same_for + interval
          then (Ok (Stabilized cnt), polled count_sql w)
          else if interval <? 0
               then (Raise (ValueError "sleep length must be non-negative"),
                     polled count_sql w)
               else loop fuel last (same_for + interval) (waited + interval)
                         (slept interval (polled count_sql w))
        else if interval <? 0
             then (Raise (ValueError "sleep length must be non-negative"),
                   polled count_sql w)
             else loop fuel (Some cnt) 0 (waited + interval)
                       (slept interval (polled count_sql w))
    end
  else (Ok (TimedOut last), w).
Proof.
  cbn [poll_loop]. destruct (waited <=? max_wait); [|reflexivity].
  unfold bind at 1. unfold count_query, bind, emit. cbn [trace polls calls uncommitted committed].
  fold count_sql.
  destruct (counts E (polls w)) as [cnt|]; [|reflexivity].
  unfold polled, slept, sleep, raise, ret, emit.
  destruct (same_as_last cnt last).
  - destruct (stable_for <=? same_for + interval); [reflexivity|].
    destruct (interval <? 0); reflexivity.
  - destruct (interval <? 0); reflexivity.
Qed.

Lemma same_as_last_true (cnt : Z) (last : option Z) :
  same_as_last cnt last = true -> last = Some cnt.
Proof.
  destruct last as [l|]; simpl; [|discriminate].
  intros H. apply Z.eqb_eq in H. now subst.
Qed.

Lemma same_as_last_refl (cnt : Z) : same_as_last cnt (Some cnt) = true.
Proof. simpl. apply Z.eqb_refl. Qed.

Lemma same_as_last_diff (cnt l : Z) : cnt <> l -> same_as_last cnt (Some l) = false.
Proof. simpl. intros H. now apply Z.eqb_neq. Qed.

Lemma polls_left_nonneg (waited : Z) : 1 <= interval -> 0 <= polls_left waited.
Proof.
  intros Hi. unfold polls_left. destruct (Z.leb_spec waited max_wait); [|lia].
  assert (0 <= (max_wait - waited) / interval) by (apply Z.div_pos; lia). lia.
Qed.

Lemma polls_left_step (waited : Z) :
  1 <= interval -> waited <= max_wait ->
  polls_left (waited + interval) = polls_left waited - 1.
Proof.
  intros Hi Hw. unfold polls_left.
  destruct (Z.leb_spec waited max_wait); [|lia].
  destruct (Z.leb_spec (waited + interval) max_wait).
  - replace (max_wait - (waited + interval))
      with ((max_wait - waited) + (-1) * interval) by lia.
    rewrite Z.div_add by lia. lia.
  - rewrite Z.div_small by lia. lia.
Qed.

(** With a positive interval the loop ends within [polls_left] polls. *)
Lemma poll_loop_terminates (fuel : nat) :
  1 <= interval ->
  forall last same_for waited w,
    polls_left waited < Z.of_nat fuel ->
    exists r w',
      loop fuel last same_for waited w = (r, w') /\
      r <> OutOfFuel /\
      Z.of_nat (polls w') <= Z.of_nat (polls w) + polls_left waited /\
      ((forall i, counts E i <> None) -> exists x, r = Ok x).
Proof.
  intros Hi. induction fuel as [|fuel IH]; intros last same_for waited w Hf.
  - pose proof (polls_left_nonneg waited Hi). lia.
  - rewrite poll_loop_S.
    destruct (Z.leb_spec waited max_wait) as [Hw|Hw].
    + pose proof (polls_left_step waited Hi Hw) as Hstep.
      pose proof (polls_left_nonneg (waited + interval) Hi) as Hnn.
      assert (Hneg : (interval <? 0) = false) by (apply Z.ltb_ge; lia).
      rewrite Hneg.
      destruct (counts E (polls w)) as [cnt|] eqn:Hc.
      * destruct (same_as_last cnt last).
        -- destruct (stable_for <=? same_for + interval).
           ++ eexists _, _. split; [reflexivity|]. cbn [polled polls].
              repeat split; [discriminate|lia|eauto].
           ++ destruct (IH last (same_for + interval) (waited + interval)
                          (slept interval (polled count_sql w)))
                as (r & w' & Hr & Hne & Hp & Hok); [lia|].
              exists r, w'. cbn [slept polled polls] in Hp.
              repeat split; [exact Hr|exact Hne|lia|exact Hok].
        -- destruct (IH (Some cnt) 0 (waited + interval)
                       (slept interval (polled count_sql w)))
             as (r & w' & Hr & Hne & Hp & Hok); [lia|].
           exists r, w'. cbn [slept polled polls] in Hp.
           repeat split; [exact Hr|exact Hne|lia|exact Hok].
      * eexists _, _. split; [reflexivity|]. cbn [polled polls].
        repeat split; [discriminate|lia|].
        intros Hall. exfalso. exact (Hall _ Hc).
    + eexists _, _. split; [reflexivity|].
      repeat split; [discriminate| |eauto].
      unfold polls_left. destruct (Z.leb_spec waited max_wait); lia.
Qed.

(** With a zero interval and a count that never repeats, no amount of
    fuel lets the loop end. *)
Lemma poll_loop_spins (fuel : nat) :
  interval = 0 -> 0 <= max_wait ->
  (forall i, counts E i <> None) ->
  (forall i c c', counts E i = Some c -> counts E (S i) = Some c' -> c <> c') ->
  forall last w,
    (forall c, counts E (polls w) = Some c -> same_as_last c last = false) ->
    fst (loop fuel last 0 0 w) = OutOfFuel.
Proof.
  intros Hi Hm Hall Hchg. induction fuel as [|fuel IH]; intros last w Hlast.
  - reflexivity.
  - rewrite poll_loop_S.
    destruct (Z.leb_spec 0 max_wait); [|lia].
    destruct (counts E (polls w)) as [cnt|] eqn:Hc; [|now elim (Hall (polls w))].
    rewrite (Hlast cnt eq_refl). subst interval. cbn [Z.ltb Z.compare].
    replace (0 + 0) with 0 by lia. apply IH.
    cbn [slept polled polls]. intros c Hc'.
    apply same_as_last_diff. intros ->. exact (Hchg _ _ _ Hc Hc' eq_refl).
Qed.

Lemma same_as_last_other (cnt : Z) (last : option Z) :
  last <> Some cnt -> same_as_last cnt last = false.
Proof.
  destruct last as [l|]; [|reflexivity].
  intros H. apply same_as_last_diff. congruence.
Qed.

(** On a plateau at [V] already recorded in [last], [n] further polls
    that read [V] are enough as soon as they fill the window. *)
Lemma plateau_run (V : Z) (n : nat) :
  0 < interval ->
  forall same_for waited w fuel,
    (1 <= n)%nat ->
    stable_for <= same_for + Z.of_nat n * interval ->
    waited + (Z.of_nat n - 1) * interval <= max_wait ->
    (forall i, (i < n)%nat -> counts E (polls w + i) = Some V) ->
    (n <= fuel)%nat ->
    exists w',
      loop fuel (Some V) same_for waited w = (Ok (Stabilized V), w') /\
      (polls w < polls w' <= polls w + n)%nat /\
      (same_for + (Z.of_nat n - 1) * interval < stable_for ->
       polls w' = (polls w + n)%nat).
Proof.
  intros Hi. induction n as [|n IH]; intros same_for waited w fuel Hn Hs Hw Hc Hf.
  - lia.
  - destruct fuel as [|fuel]; [lia|].
    rewrite poll_loop_S.
    destruct (Z.leb_spec waited max_wait) as [_|Hbad]; [|nia].
    pose proof (Hc 0%nat ltac:(lia)) as Hc0. rewrite Nat.add_0_r in Hc0.
    rewrite Hc0, same_as_last_refl.
    destruct (Z.leb_spec stable_for (same_for + interval)) as [Hret|Hgo].
    + eexists. split; [reflexivity|]. cbn [polled polls].
      split; [lia|]. intros Hmin. nia.
    + assert (Hneg : (interval <? 0) = false) by (apply Z.ltb_ge; lia).
      rewrite Hneg.
      destruct (IH (same_for + interval) (waited + interval)
                   (slept interval (polled count_sql w)) fuel)
        as (w' & Hr & Hp & Hex); try nia.
      * intros i Hlt. cbn [slept polled polls].
        replace (S (polls w) + i)%nat with (polls w + S i)%nat by lia.
        apply Hc. lia.
      * exists w'. cbn [slept polled polls] in Hp, Hex.
        split; [exact Hr|]. split; [lia|].
        intros Hmin. rewrite Hex by nia. lia.
Qed.

(** From any state of the loop, a plateau of [n + 1] polls at [V] whose
    last [n] fill the window makes the loop return [V]. *)
Lemma plateau_any (V : Z) (n : nat) :
  0 < interval ->
  forall last same_for waited w fuel,
    0 <= same_for -> (1 <= n)%nat ->
    stable_for <= Z.of_nat n * interval ->
    waited + Z.of_nat n * interval <= max_wait ->
    (forall i, (i <= n)%nat -> counts E (polls w + i) = Some V) ->
    (n + 1 <= fuel)%nat ->
    exists w',
      loop fuel last same_for waited w = (Ok (Stabilized V), w') /\
      (polls w < polls w' <= polls w + n + 1)%nat /\
      (last <> Some V -> (Z.of_nat n - 1) * interval < stable_for ->
       polls w' = (polls w + n + 1)%nat).
Proof.
  intros Hi last same_for waited w fuel Hsame Hn Hs Hw Hc Hf.
  assert (Hdec : last = Some V \/ last <> Some V).
  { destruct last as [l|]; [|right; discriminate].
    destruct (Z.eq_dec l V) as [->|Hd]; [now left|right; congruence]. }
  destruct Hdec as [->|Hne].
  - destruct (plateau_run V (S n) Hi same_for waited w fuel)
      as (w' & Hr & Hp & _); try lia.
    + intros i Hlt. apply Hc. lia.
    + exists w'. split; [exact Hr|]. split; [lia|]. intros Habs. now elim Habs.
  - destruct fuel as [|fuel]; [lia|].
    rewrite poll_loop_S.
    destruct (Z.leb_spec waited max_wait) as [_|Hbad]; [|nia].
    pose proof (Hc 0%nat ltac:(lia)) as Hc0. rewrite Nat.add_0_r in Hc0.
    rewrite Hc0, (same_as_last_other V last Hne).
    assert (Hneg : (interval <? 0) = false) by (apply Z.ltb_ge; lia).
    rewrite Hneg.
    destruct (plateau_run V n Hi 0 (waited + interval)
                (slept interval (polled count_sql w)) fuel)
      as (w' & Hr & Hp & Hex); try lia.
    + intros i Hlt. cbn [slept polled polls].
      replace (S (polls w) + i)%nat with (polls w + S i)%nat by lia.
      apply Hc. lia.
    + exists w'. cbn [slept polled polls] in Hp, Hex.
      split; [exact Hr|]. split; [lia|].
      intros _ Hmin. rewrite Hex by lia. lia.
Qed.

(** A loop that is out of fuel after [k] iterations has made exactly [k]
    polls, remembers the last of them, and goes on from there when given
    more fuel. *)
Lemma prefix_running (k : nat) :
  0 < interval ->
  forall last same_for waited w,
    0 <= same_for ->
    fst (loop k last same_for waited w) = OutOfFuel ->
    exists last' same_for' w',
      0 <= same_for' /\
      polls w' = (polls w + k)%nat /\
      last' = match k with
              | O => last
              | S j => counts E (polls w + j)
              end /\
      forall m, loop (k + m) last same_for waited w =
                loop m last' same_for' (waited + Z.of_nat k * interval) w'.
Proof.
  intros Hi. induction k as [|k IH]; intros last same_for waited w Hsame Hout.
  - exists last, same_for, w. repeat split; [exact Hsame|lia|].
    intros m. cbn [Nat.add]. f_equal. lia.
  - rewrite poll_loop_S in Hout.
    assert (Hneg : (interval <? 0) = false) by (apply Z.ltb_ge; lia).
    rewrite Hneg in Hout.
    destruct (waited <=? max_wait) eqn:Hw; [|discriminate].
    destruct (counts E (polls w)) as [cnt|] eqn:Hc; [|discriminate].
    destruct (same_as_last cnt last) eqn:Hsl.
    + destruct (stable_for <=? same_for + interval) eqn:Hst; [discriminate|].
      destruct (IH last (same_for + interval) (waited + interval)
                   (slept interval (polled count_sql w)) ltac:(lia) Hout)
        as (last' & same' & w' & Hs' & Hp & Hl & Hm).
      exists last', same', w'. cbn [slept polled polls] in Hp, Hl.
      split; [exact Hs'|]. split; [lia|]. split.
      * rewrite Hl. destruct k as [|j].
        -- rewrite Nat.add_0_r, Hc. now apply same_as_last_true.
        -- f_equal. lia.
      * intros m. cbn [Nat.add]. rewrite poll_loop_S, Hw, Hc, Hsl, Hst, Hneg, Hm.
        f_equal. lia.
    + destruct (IH (Some cnt) 0 (waited + interval)
                   (slept interval (polled count_sql w)) ltac:(lia) Hout)
        as (last' & same' & w' & Hs' & Hp & Hl & Hm).
      exists last', same', w'. cbn [slept polled polls] in Hp, Hl.
      split; [exact Hs'|]. split; [lia|]. split.
      * rewrite Hl. destruct k as [|j].
        -- now rewrite Nat.add_0_r, Hc.
        -- f_equal. lia.
      * intros m. cbn [Nat.add]. rewrite poll_loop_S, Hw, Hc, Hsl, Hneg, Hm.
        f_equal. lia.
Qed.

(** A count that differs from its predecessor at every poll keeps the
    loop going until the wait is used up; the loop then hands back the
    last count it read. *)
Lemma changing_run (m : nat) :
  0 < interval ->
  forall last same_for waited w fuel,
    waited + Z.of_nat m * interval <= max_wait ->
    max_wait < waited + (Z.of_nat m + 1) * interval ->
    (forall i, (i <= m)%nat -> counts E (polls w + i) <> None) ->
    (forall i c c', (i < m)%nat ->
       counts E (polls w + i) = Some c ->
       counts E (polls w + S i) = Some c' -> c <> c') ->
    (forall c, counts E (polls w) = Some c -> same_as_last c last = false) ->
    (m + 2 <= fuel)%nat ->
    exists v w',
      loop fuel last same_for waited w = (Ok (TimedOut (Some v)), w') /\
      counts E (polls w + m) = Some v /\
      polls w' = (polls w + m + 1)%nat.
Proof.
  intros Hi. induction m as [|m IH];
    intros last same_for waited w fuel Hlo Hhi Hall Hchg Hlast Hf.
  - destruct fuel as [|[|fuel]]; try lia.
    rewrite poll_loop_S.
    destruct (Z.leb_spec waited max_wait) as [_|Hbad]; [|lia].
    destruct (counts E (polls w)) as [cnt|] eqn:Hc.
    2:{ elim (Hall 0%nat ltac:(lia)). now rewrite Nat.add_0_r. }
    rewrite (Hlast cnt eq_refl).
    assert (Hneg : (interval <? 0) = false) by (apply Z.ltb_ge; lia).
    rewrite Hneg, poll_loop_S.
    destruct (Z.leb_spec (waited + interval) max_wait) as [Hbad|_]; [lia|].
    exists cnt. eexists. split; [reflexivity|]. cbn [slept polled polls].
    split; [now rewrite Nat.add_0_r|lia].
  - destruct fuel as [|fuel]; [lia|].
    rewrite poll_loop_S.
    destruct (Z.leb_spec waited max_wait) as [_|Hbad]; [|nia].
    destruct (counts E (polls w)) as [cnt|] eqn:Hc.
    2:{ elim (Hall 0%nat ltac:(lia)). now rewrite Nat.add_0_r. }
    rewrite (Hlast cnt eq_refl).
    assert (Hneg : (interval <? 0) = false) by (apply Z.ltb_ge; lia).
    rewrite Hneg.
    destruct (IH (Some cnt) 0 (waited + interval)
                 (slept interval (polled count_sql w)) fuel)
      as (v & w' & Hr & Hv & Hp); try lia.
    + intros i Hle. cbn [slept polled polls].
      replace (S (polls w) + i)%nat with (polls w + S i)%nat by lia.
      apply Hall. lia.
    + intros i c c' Hlt. cbn [slept polled polls].
      replace (S (polls w) + i)%nat with (polls w + S i)%nat by lia.
      replace (S (polls w) + S i)%nat with (polls w + S (S i))%nat by lia.
      apply Hchg. lia.
    + cbn [slept polled polls]. intros c Hc'.
      apply same_as_last_diff. intros ->.
      apply (Hchg 0%nat cnt cnt); [lia| | |reflexivity];
        rewrite ?Nat.add_0_r; trivial.
      now replace (polls w + 1)%nat with (S (polls w)) by lia.
    + exists v, w'. cbn [slept polled polls] in Hv, Hp.
      split; [exact Hr|]. split.
      * now replace (polls w + S m)%nat with (S (polls w) + m)%nat by lia.
      * lia.
Qed.

(** The loop can only leave with "no count seen" when it never polled. *)
Lemma timed_out_without_sample (fuel : nat) :
  forall last same_for waited w w',
    loop fuel last same_for waited w = (Ok (TimedOut None), w') ->
    last = None /\ w' = w /\ max_wait < waited.
Proof.
  induction fuel as [|fuel IH]; intros last same_for waited w w' H.
  - discriminate.
  - rewrite poll_loop_S in H.
    destruct (Z.leb_spec waited max_wait) as [Hw|Hw].
    + exfalso.
      destruct (counts E (polls w)) as [cnt|]; [|discriminate].
      destruct (same_as_last cnt last) eqn:Hsl.
      * destruct (stable_for <=? same_for + interval); [discriminate|].
        destruct (interval <? 0); [discriminate|].
        apply IH in H. apply same_as_last_true in Hsl. destruct H. congruence.
      * destruct (interval <? 0); [discriminate|].
        apply IH in H. destruct H. discriminate.
    + inversion H. auto.
Qed.

(** The gate in terms of its loop. *)
Lemma gate_unfold (fuel : nat) (w : world) :
  _wait_for_stable_count E fuel wrapped_sql stable_for interval max_wait w =
  match loop fuel None 0 0 w with
  | (Ok (Stabilized cnt), w') => (Ok cnt, w')
  | (Ok (TimedOut last), w') =>
      (Ok (match last with Some l => l | None => 0 end),
       mkWorld (trace w' ++ [LogWarning (WStableTimeout last)]) (polls w')
               (calls w') (uncommitted w') (committed w'))
  | (Raise e, w') => (Raise e, w')
  | (OutOfFuel, w') => (OutOfFuel, w')
  end.
Proof.
  unfold _wait_for_stable_count, bind.
  destruct (loop fuel None 0 0 w) as [[[cnt|last]|e|] w']; reflexivity.
Qed.

(** Polls are only ever added. *)
Lemma poll_loop_polls_mono (fuel : nat) :
  forall last same_for waited w r w',
    loop fuel last same_for waited w = (r, w') -> (polls w <= polls w')%nat.
Proof.
  induction fuel as [|fuel IH]; intros last same_for waited w r w' Hr.
  - inversion Hr. lia.
  - rewrite poll_loop_S in Hr.
    destruct (waited <=? max_wait); [|inversion Hr; lia].
    destruct (counts E (polls w)) as [cnt|]; [|inversion Hr; cbn; lia].
    destruct (same_as_last cnt last).
    + destruct (stable_for <=? same_for + interval); [inversion Hr; cbn; lia|].
      destruct (interval <? 0); [inversion Hr; cbn; lia|].
      apply IH in Hr. cbn in Hr. lia.
    + destruct (interval <? 0); [inversion Hr; cbn; lia|].
      apply IH in Hr. cbn in Hr. lia.
Qed.

End GateFacts.

(** C2.  Take a sequence of COUNT samples in which, after the first [k]
    samples (during which the gate did not return: it neither settled on
    an earlier plateau nor timed out), the count is [V] for [n + 1]
    consecutive samples, [n] of them filling the window
    ([stable_for <= n * interval]), and suppose [max_wait] covers those
    [k + n] seconds-steps.  Then [_wait_for_stable_count] returns [V],
    after more than [k] and at most [k + n + 1] samples; when [n] is the
    least such number and the sample before the plateau is not [V], it
    returns exactly at sample number [k + n + 1].  For the samples
    10, 12, 15, 15, 15 with a window of 2 and an interval of 1 this is
    the 5th sample (see [scenario_B]). *)
Theorem stable_count_is_returned
    (E : env) (wrapped_sql : string) (stable_for interval max_wait : Z)
    (k n : nat) (V : Z) (w : world) (fuel : nat) :
  0 < interval -> interval <= stable_for ->
  stable_for <= Z.of_nat n * interval ->
  Z.of_nat (k + n) * interval <= max_wait ->
  fst (_wait_for_stable_count E k wrapped_sql stable_for interval max_wait w)
    = OutOfFuel ->
  (forall i, (i <= n)%nat -> counts E (polls w + k + i) = Some V) ->
  (k + n + 1 <= fuel)%nat ->
  exists w',
    _wait_for_stable_count E fuel wrapped_sql stable_for interval max_wait w
      = (Ok V, w') /\
    (polls w + k < polls w' <= polls w + k + n + 1)%nat /\
    ((Z.of_nat n - 1) * interval < stable_for ->
     match k with
     | O => True
     | S j => counts E (polls w + j) <> Some V
     end ->
     polls w' = (polls w + k + n + 1)%nat).
Proof.
  intros Hi Hwin Hn Hmax Hout Hplateau Hfuel.
  assert (Hout' : fst (poll_loop E k wrapped_sql stable_for interval max_wait
                         None 0 0 w) = OutOfFuel).
  { rewrite gate_unfold in Hout.
    destruct (poll_loop E k wrapped_sql stable_for interval max_wait None 0 0 w)
      as [[[cnt|last]|e|] w1]; try discriminate. reflexivity. }
  destruct (prefix_running E wrapped_sql stable_for interval max_wait k Hi
              None 0 0 w ltac:(lia) Hout')
    as (last' & same' & w1 & Hs & Hp & Hl & Hm).
  destruct (plateau_any E wrapped_sql stable_for interval max_wait V n Hi
              last' same' (0 + Z.of_nat k * interval) w1 (fuel - k))
    as (w' & Hr & Hb & Hex); try lia; try nia.
  - intros i Hle. rewrite Hp. now apply Hplateau.
  - exists w'. rewrite gate_unfold.
    replace fuel with (k + (fuel - k))%nat by lia.
    rewrite Hm, Hr. split; [reflexivity|]. split; [lia|].
    intros Hmin Hfresh. rewrite Hex; [lia| |exact Hmin].
    rewrite Hl. destruct k; [discriminate|exact Hfresh].
Qed.

(** C5.  When every COUNT sample differs from the one before it until
    [max_wait] is used up (positive interval, every query answering),
    [_wait_for_stable_count] returns the last count it sampled, the
    [floor(max_wait / interval) + 1]-th, and logs the timeout warning
    with that count.  The loop leaves with "no count seen" only when it
    made no poll at all, which requires a negative [max_wait]. *)
Theorem timeout_returns_last_count
    (E : env) (wrapped_sql : string) (stable_for interval max_wait : Z)
    (w : world) (fuel : nat) :
  0 < interval -> 0 <= max_wait ->
  (forall i, (i <= Z.to_nat (max_wait / interval))%nat ->
     counts E (polls w + i) <> None) ->
  (forall i c c', (i < Z.to_nat (max_wait / interval))%nat ->
     counts E (polls w + i) = Some c ->
     counts E (polls w + S i) = Some c' -> c <> c') ->
  (Z.to_nat (max_wait / interval) + 2 <= fuel)%nat ->
  (exists v w',
     _wait_for_stable_count E fuel wrapped_sql stable_for interval max_wait w
       = (Ok v, w') /\
     counts E (polls w + Z.to_nat (max_wait / interval)) = Some v /\
     polls w' = (polls w + Z.to_nat (max_wait / interval) + 1)%nat /\
     exists t, trace w' = t ++ [LogWarning (WStableTimeout (Some v))]) /\
  (forall max_wait' fuel' u u',
     poll_loop E fuel' wrapped_sql stable_for interval max_wait' None 0 0 u
       = (Ok (TimedOut None), u') ->
     u' = u /\ max_wait' < 0).
Proof.
  intros Hi Hm Hall Hchg Hfuel. split.
  - assert (Hq : 0 <= max_wait / interval) by (apply Z.div_pos; lia).
    pose proof (Z.mul_div_le max_wait interval Hi) as Hlo.
    pose proof (Z.mul_succ_div_gt max_wait interval Hi) as Hhi.
    destruct (changing_run E wrapped_sql stable_for interval max_wait
                (Z.to_nat (max_wait / interval)) Hi None 0 0 w fuel)
      as (v & w1 & Hr & Hv & Hp); trivial; try (rewrite Z2Nat.id by lia; lia).
    exists v. eexists. rewrite gate_unfold, Hr.
    split; [reflexivity|]. cbn [polls trace]. eauto.
  - intros max_wait' fuel' u u' H.
    apply timed_out_without_sample in H. intuition.
Qed.

(** C10.  With a poll interval of at least 1 the gate always ends: given
    [floor(max_wait / interval) + 2] units of fuel it returns or raises,
    having made at most [floor(max_wait / interval) + 1] polls (none when
    [max_wait] is negative), and it returns a count whenever every query
    answers.  With a poll interval of 0 and a count that differs at every
    sample, the wait never grows and no amount of fuel lets the gate
    end. *)
Theorem gate_ends_iff_interval_positive
    (E : env) (wrapped_sql : string) (stable_for max_wait : Z) (w : world) :
  (forall interval fuel,
     1 <= interval ->
     (Z.to_nat (max_wait / interval) + 2 <= fuel)%nat ->
     exists r w',
       _wait_for_stable_count E fuel wrapped_sql stable_for interval max_wait w
         = (r, w') /\
       r <> OutOfFuel /\
       (0 <= max_wait ->
        Z.of_nat (polls w') - Z.of_nat (polls w) <= max_wait / interval + 1) /\
       (max_wait < 0 -> polls w' = polls w) /\
       ((forall i, counts E i <> None) -> exists v, r = Ok v)) /\
  (0 <= max_wait ->
   (forall i, counts E i <> None) ->
   (forall i c c', counts E i = Some c -> counts E (S i) = Some c' -> c <> c') ->
   forall fuel,
     fst (_wait_for_stable_count E fuel wrapped_sql stable_for 0 max_wait w)
       = OutOfFuel).
Proof.
  split.
  - intros interval fuel Hi Hfuel.
    assert (Hleft : polls_left interval max_wait 0 < Z.of_nat fuel).
    { unfold polls_left. destruct (Z.leb_spec 0 max_wait).
      - assert (0 <= max_wait / interval) by (apply Z.div_pos; lia).
        rewrite Z.sub_0_r. lia.
      - lia. }
    destruct (poll_loop_terminates E wrapped_sql stable_for interval max_wait
                fuel Hi None 0 0 w Hleft)
      as (r & w' & Hr & Hne & Hp & Hok).
    rewrite gate_unfold, Hr.
    assert (Hb : (0 <= max_wait ->
                  Z.of_nat (polls w') - Z.of_nat (polls w)
                  <= max_wait / interval + 1) /\
                 (max_wait < 0 -> polls w' = polls w)).
    { unfold polls_left in Hp. rewrite Z.sub_0_r in Hp.
      destruct (Z.leb_spec 0 max_wait); split; intros; try lia.
      pose proof (poll_loop_polls_mono E wrapped_sql stable_for interval
                    max_wait fuel None 0 0 w r w' Hr).
      lia. }
    destruct Hb as [Hb1 Hb2].
    destruct r as [[cnt|last]|e|].
    + eexists _, _. split; [reflexivity|]. repeat split; eauto; discriminate.
    + eexists _, _. split; [reflexivity|]. cbn [polls].
      repeat split; eauto; discriminate.
    + eexists _, _. split; [reflexivity|].
      repeat split; eauto; try discriminate.
      intros Hall. destruct (Hok Hall) as [x Hx]. discriminate.
    + now elim Hne.
  - intros Hm Hall Hchg fuel. rewrite gate_unfold.
    pose proof (poll_loop_spins E wrapped_sql stable_for 0 max_wait fuel
                  eq_refl Hm Hall Hchg None w) as Hspin.
    destruct (poll_loop E fuel wrapped_sql stable_for 0 max_wait None 0 0 w)
      as [[[cnt|last]|e|] w'];
      try (cbn in Hspin; specialize (Hspin ltac:(reflexivity)); discriminate).
    reflexivity.
Qed.

(** ** The destination writer *)

Section WriterFacts.

Variable E : env.
Variables (insert_sql : string) (batch : Z) (verify_rowcount : bool).

Local Abbreviation drain_rows := (drain E insert_sql batch verify_rowcount).

Lemma execute_batch_spec (final : bool) (buf : list Row) (w : world) :
  exists w',
    match driver E (calls w) buf with
    | Rowcount rc =>
        execute_batch E insert_sql verify_rowcount final buf w
          = (Ok (credited rc buf), w') /\
        uncommitted w' = uncommitted w ++ [buf]
    | ExecFails =>
        execute_batch E insert_sql verify_rowcount final buf w
          = (Raise PyodbcError, w') /\
        uncommitted w' = uncommitted w
    end /\
    calls w' = S (calls w) /\ committed w' = committed w /\
    polls w' = polls w.
Proof.
  unfold execute_batch, bind, executemany.
  destruct (driver E (calls w) buf) as [rc|].
  - destruct (verify_rowcount
              && (credited rc buf <? Z.of_nat (List.length buf)))%bool;
      (eexists; split; [split; reflexivity|cbn; repeat split]).
  - eexists; split; [split; reflexivity|cbn; repeat split].
Qed.

Lemma fill_yield (buf : list Row) (row : Row) (rest : list Row) :
  fill batch buf (row :: rest) =
  if batch <=? Z.of_nat (List.length (buf ++ [row])) then
    (( buf ++ [row]) :: fst (fill batch [] rest), snd (fill batch [] rest))
  else fill batch (buf ++ [row]) rest.
Proof.
  cbn [fill]. destruct (batch <=? Z.of_nat (List.length (buf ++ [row]))); [|reflexivity].
  destruct (fill batch [] rest); reflexivity.
Qed.

(** What the row loop of the writer does, for any iterable, any driver
    behaviour and any starting buffer. *)
Lemma drain_spec (g : gen) :
  forall buf total w,
    let bs := fst (fill batch buf (rows_of g)) in
    let left := snd (fill batch buf (rows_of g)) in
    let j := accepted E (calls w) bs in
    exists r w',
      drain_rows g buf total w = (r, w') /\
      committed w' = committed w /\
      polls w' = polls w /\
      uncommitted w' = uncommitted w ++ firstn j bs /\
      (j = List.length bs ->
       calls w' = (calls w + j)%nat /\
       r = match ending g with
           | Ok _ => Ok (left, total + credits E (calls w) bs)
           | Raise e => Raise e
           | OutOfFuel => OutOfFuel
           end) /\
      (j <> List.length bs ->
       calls w' = (calls w + j + 1)%nat /\ r = Raise PyodbcError).
Proof.
  induction g as [|e|row k IH|ev k IH|]; intros buf total w; cbn zeta.
  - eexists _, _. split; [reflexivity|]. cbn.
    rewrite app_nil_r, Z.add_0_r, Nat.add_0_r. repeat split; congruence.
  - eexists _, _. split; [reflexivity|]. cbn.
    rewrite app_nil_r, Nat.add_0_r. repeat split; congruence.
  - cbn [rows_of drain ending]. rewrite fill_yield.
    destruct (batch <=? Z.of_nat (List.length (buf ++ [row]))).
    + cbn [fst snd accepted].
      destruct (execute_batch_spec false (buf ++ [row]) w)
        as (w1 & Hx & Hc1 & Hk1 & Hp1).
      unfold bind at 1.
      destruct (driver E (calls w) (buf ++ [row])) as [rc|] eqn:Hd.
      * destruct Hx as [Hx Hu1]. rewrite Hx.
        destruct (IH [] (total + credited rc (buf ++ [row])) w1)
          as (r & w' & Hr & Hk & Hp & Hu & Hall & Hfail).
        exists r, w'. rewrite Hc1 in *. cbn [List.length firstn credits reported].
        rewrite Hd. cbn [reported].
        split; [exact Hr|]. split; [congruence|]. split; [congruence|].
        split; [rewrite Hu, Hu1, <- app_assoc; reflexivity|].
        split.
        -- intros Hj. injection Hj as Hj. destruct (Hall Hj) as [Hcw ->].
           split; [lia|]. destruct (ending k); try reflexivity.
           do 2 f_equal. lia.
        -- intros Hj. destruct Hfail as [Hcw ->]; [congruence|]. split; [lia|reflexivity].
      * destruct Hx as [Hx Hu1]. rewrite Hx.
        exists (Raise PyodbcError), w1. cbn [firstn List.length].
        rewrite app_nil_r.
        repeat split; try congruence; try lia.
    + apply IH.
  - cbn [rows_of drain ending]. unfold bind, emit.
    destruct (IH buf total
                (mkWorld (trace w ++ [ev]) (polls w) (calls w)
                         (uncommitted w) (committed w)))
      as (r & w' & Hr & Hk & Hp & Hu & Hall & Hfail).
    exists r, w'. cbn in *. repeat split; try tauto; try congruence.
  - eexists _, _. split; [reflexivity|]. cbn.
    rewrite app_nil_r, Nat.add_0_r. repeat split; congruence.
Qed.

Lemma accepted_le (i : nat) (bs : list (list Row)) :
  (accepted E i bs <= List.length bs)%nat.
Proof.
  revert i. induction bs as [|b bs IH]; intros i; cbn; [lia|].
  destruct (driver E i b); [specialize (IH (S i))|]; lia.
Qed.

Lemma accepted_snoc (i : nat) (bs : list (list Row)) (b : list Row) :
  accepted E i bs = List.length bs ->
  accepted E i (bs ++ [b]) =
  match driver E (i + List.length bs) b with
  | Rowcount _ => S (List.length bs)
  | ExecFails => List.length bs
  end.
Proof.
  revert i. induction bs as [|b' bs IH]; intros i H; cbn in *.
  - rewrite Nat.add_0_r. destruct (driver E i b); reflexivity.
  - destruct (driver E i b'); [|discriminate].
    injection H as H. rewrite (IH (S i) H).
    replace (S i + List.length bs)%nat with (i + S (List.length bs))%nat by lia.
    destruct (driver E _ b); reflexivity.
Qed.

Lemma credits_snoc (i : nat) (bs : list (list Row)) (b : list Row) :
  credits E i (bs ++ [b]) =
  credits E i bs + credited (reported (driver E (i + List.length bs) b)) b.
Proof.
  revert i. induction bs as [|b' bs IH]; intros i; cbn.
  - rewrite Nat.add_0_r. lia.
  - rewrite IH.
    replace (S i + List.length bs)%nat with (i + S (List.length bs))%nat by lia.
    lia.
Qed.

Lemma accepted_app_short (i : nat) (bs cs : list (list Row)) :
  (accepted E i bs < List.length bs)%nat ->
  accepted E i (bs ++ cs) = accepted E i bs.
Proof.
  revert i. induction bs as [|b bs IH]; intros i Hlt; cbn in *; [lia|].
  destruct (driver E i b); [|reflexivity].
  f_equal. apply IH. lia.
Qed.

(** The whole writer call: it returns only when the iterable ended
    normally and every batch was accepted, and only then is anything
    committed; in every other case the batches that went through stay in
    the open transaction. *)
Lemma execmany_spec (g : gen) (fast : bool) (w : world) :
  let bs := batches batch (rows_of g) in
  let full := fst (fill batch [] (rows_of g)) in
  exists r w',
    _mssql_execmany E insert_sql g batch fast verify_rowcount w = (r, w') /\
    polls w' = polls w /\
    (ending g = Ok tt -> accepted E (calls w) bs = List.length bs ->
     r = Ok (credits E (calls w) bs) /\
     committed w' = committed w ++ uncommitted w ++ bs /\
     uncommitted w' = [] /\
     calls w' = (calls w + List.length bs)%nat) /\
    (~ (ending g = Ok tt /\ accepted E (calls w) bs = List.length bs) ->
     (forall x, r <> Ok x) /\
     committed w' = committed w /\
     uncommitted w' = uncommitted w ++ firstn (accepted E (calls w) full) full /\
     (ending g = Ok tt ->
      r = Raise PyodbcError /\
      calls w' = (calls w + accepted E (calls w) bs + 1)%nat)).
Proof.
  cbn zeta. unfold batches.
  set (w1 := mkWorld (trace w ++ [DstCursor]) (polls w) (calls w)
                     (uncommitted w) (committed w)).
  destruct (drain_spec g [] 0 w1) as (r & w2 & Hr & Hk & Hp & Hu & Hall & Hfail).
  cbn zeta in *. cbn [w1 calls uncommitted committed polls] in *.
  set (full := fst (fill batch [] (rows_of g))) in *.
  set (left := snd (fill batch [] (rows_of g))) in *.
  unfold _mssql_execmany. unfold bind at 1. unfold emit at 1. fold w1.
  unfold finally, except_pyodbc, catch. rewrite (bind_run _ _ _ _ _ Hr).
  destruct (Nat.eq_dec (accepted E (calls w) full) (List.length full)) as [Hj|Hj].
  - destruct (Hall Hj) as [Hc2 ->]. rewrite Hj in *. rewrite firstn_all in *.
    destruct (ending g) as [[]|e|] eqn:Hend.
    + cbn [Z.add]. destruct left as [|x left'] eqn:Hleft.
      * cbn [final_batch]. rewrite app_nil_r.
        eexists _, _. split; [reflexivity|]. cbn.
        split; [exact Hp|]. split.
        -- intros _ _. rewrite Hk, Hu, Hc2. repeat split; lia.
        -- intros Hneg. elim Hneg. split; [reflexivity|exact Hj].
      * cbn [final_batch].
        destruct (execute_batch_spec true (x :: left') w2)
          as (w3 & Hx & Hc3 & Hk3 & Hp3).
        rewrite (accepted_snoc _ _ _ Hj), credits_snoc.
        rewrite Hc2 in Hx.
        destruct (driver E (calls w + List.length full) (x :: left')) as [rc|].
        -- destruct Hx as [Hx Hu3]. unfold bind. cbv beta. rewrite Hx.
           eexists _, _. split; [reflexivity|]. cbn.
           split; [congruence|]. split.
           ++ intros _ _. rewrite Hk3, Hk, Hu3, Hu, Hc3, Hc2, length_app.
              cbn [List.length]. rewrite <- !app_assoc.
              repeat split; lia.
           ++ intros Hneg. elim Hneg. split; [reflexivity|].
              rewrite length_app. cbn. lia.
        -- destruct Hx as [Hx Hu3]. unfold bind. cbv beta. rewrite Hx.
           eexists _, _. split; [reflexivity|]. cbn.
           split; [congruence|]. split.
           ++ intros _ Habs. rewrite length_app in Habs. cbn in Habs. lia.
           ++ intros _. split; [discriminate|]. split; [congruence|].
              split; [congruence|]. intros _. split; [reflexivity|]. lia.
    + destruct (is_pyodbc_error e);
        (eexists _, _; split; [reflexivity|]; cbn;
         split; [exact Hp|]; split;
         [intros Habs; discriminate
         |intros _; split; [discriminate|];
          split; [exact Hk|]; split; [exact Hu|intros Habs; discriminate]]).
    + eexists _, _. split; [reflexivity|]. cbn [polls committed uncommitted].
      split; [exact Hp|]. split; [intros Habs; discriminate|].
      intros _. split; [discriminate|]. split; [exact Hk|].
      split; [exact Hu|intros Habs; discriminate].
  - destruct (Hfail Hj) as [Hc2 ->]. cbn.
    eexists _, _. split; [reflexivity|]. cbn.
    split; [exact Hp|].
    assert (Hlt : (accepted E (calls w) full < List.length full)%nat).
    { pose proof (accepted_le (calls w) full). lia. }
    pose proof (accepted_app_short (calls w) full (final_batch left) Hlt) as Hsame.
    split.
    + intros _ Habs. rewrite length_app in Habs. lia.
    + intros _. split; [discriminate|]. split; [exact Hk|].
      split; [exact Hu|]. intros _. split; [reflexivity|]. lia.
Qed.

End WriterFacts.

(** ** Batches as a function of the rows *)

Section BatchFacts.

Variable batch : Z.

Lemma fill_concat (rows : list Row) :
  forall buf,
    List.concat (fst (fill batch buf rows)) ++ snd (fill batch buf rows)
    = buf ++ rows.
Proof.
  induction rows as [|row rest IH]; intros buf.
  - cbn. now rewrite app_nil_r.
  - cbn [fill]. destruct (batch <=? Z.of_nat (List.length (buf ++ [row]))).
    + specialize (IH []). destruct (fill batch [] rest) as [bs left].
      cbn [fst snd List.concat] in *. rewrite <- !app_assoc, IH. reflexivity.
    + rewrite IH, <- app_assoc. reflexivity.
Qed.

Lemma batches_concat (rows : list Row) : List.concat (batches batch rows) = rows.
Proof.
  unfold batches. rewrite concat_app.
  pose proof (fill_concat rows []) as H. cbn [app] in H.
  destruct (snd (fill batch [] rows)) as [|x left]; cbn [final_batch List.concat].
  - exact H.
  - now rewrite app_nil_r.
Qed.

Hypothesis batch_pos : 0 < batch.

Lemma fill_sizes (rows : list Row) :
  forall buf,
    Z.of_nat (List.length buf) < batch ->
    Forall (fun b => Z.of_nat (List.length b) = batch)
           (fst (fill batch buf rows)) /\
    Z.of_nat (List.length (snd (fill batch buf rows))) < batch.
Proof.
  induction rows as [|row rest IH]; intros buf Hbuf.
  - cbn. split; [constructor|exact Hbuf].
  - cbn [fill].
    destruct (Z.leb_spec batch (Z.of_nat (List.length (buf ++ [row])))) as [Hfull|Hroom].
    + destruct (IH [] ltac:(cbn; lia)) as [Hall Hleft].
      destruct (fill batch [] rest) as [bs left]. cbn [fst snd] in *.
      split; [|exact Hleft]. constructor; [|exact Hall].
      rewrite length_app in *. cbn [List.length] in *. lia.
    + apply IH. exact Hroom.
Qed.

Lemma fill_count (rows : list Row) :
  forall buf,
    Z.of_nat (List.length buf) < batch ->
    Z.of_nat (List.length (fst (fill batch buf rows)))
    = (Z.of_nat (List.length buf) + Z.of_nat (List.length rows)) / batch /\
    Z.of_nat (List.length (snd (fill batch buf rows)))
    = (Z.of_nat (List.length buf) + Z.of_nat (List.length rows)) mod batch.
Proof.
  induction rows as [|row rest IH]; intros buf Hbuf.
  - cbn [fill fst snd List.length]. rewrite Z.add_0_r.
    rewrite Z.div_small, Z.mod_small by lia. split; reflexivity.
  - cbn [fill].
    destruct (Z.leb_spec batch (Z.of_nat (List.length (buf ++ [row])))) as [Hfull|Hroom].
    + destruct (IH [] ltac:(cbn; lia)) as [Hn Hl].
      destruct (fill batch [] rest) as [bs left]. cbn [fst snd] in *.
      rewrite length_app in Hfull. cbn [List.length] in *.
      replace (Z.of_nat (List.length buf) + Z.of_nat (S (List.length rest)))
        with (Z.of_nat (List.length rest) + 1 * batch) by lia.
      rewrite Z.div_add, Z.mod_add by lia.
      rewrite Nat2Z.inj_succ, Hn, Hl. cbn. split; [lia|reflexivity].
    + destruct (IH (buf ++ [row]) Hroom) as [Hn Hl].
      rewrite Hn, Hl, length_app. cbn [List.length].
      replace (Z.of_nat (List.length buf + 1) + Z.of_nat (List.length rest))
        with (Z.of_nat (List.length buf) + Z.of_nat (S (List.length rest)))
        by lia.
      split; reflexivity.
Qed.

(** The number of batches is [ceil(len(rows) / batch)]. *)
Lemma batches_count (rows : list Row) :
  Z.of_nat (List.length (batches batch rows))
  = (Z.of_nat (List.length rows) + batch - 1) / batch.
Proof.
  unfold batches. rewrite length_app, Nat2Z.inj_add.
  destruct (fill_count rows [] ltac:(cbn; lia)) as [Hn Hl].
  cbn [List.length Z.of_nat Z.add] in Hn, Hl. rewrite Hn.
  set (n := Z.of_nat (List.length rows)) in *.
  pose proof (Z.div_mod n batch ltac:(lia)) as Hdm.
  pose proof (Z.mod_pos_bound n batch batch_pos) as Hmod.
  destruct (snd (fill batch [] rows)) as [|x left]; cbn [final_batch List.length] in *.
  - apply Z.div_unique with (r := batch - 1); lia.
  - apply Z.div_unique with (r := n mod batch - 1); lia.
Qed.

(** Every batch is non-empty, holds at most [batch] rows, and all but
    the last one hold exactly [batch]. *)
Lemma batches_sizes (rows : list Row) :
  Forall (fun b => b <> [] /\ Z.of_nat (List.length b) <= batch)
         (batches batch rows) /\
  Forall (fun b => Z.of_nat (List.length b) = batch)
         (removelast (batches batch rows)).
Proof.
  unfold batches.
  destruct (fill_sizes rows [] ltac:(cbn; lia)) as [Hall Hleft].
  split.
  - apply Forall_app. split.
    + eapply Forall_impl; [|exact Hall]. intros b Hb. cbn beta in Hb.
      split; [|lia]. intros ->. cbn in Hb. lia.
    + destruct (snd (fill batch [] rows)) as [|x left]; cbn [final_batch].
      * constructor.
      * constructor; [|constructor]. split; [discriminate|lia].
  - destruct (snd (fill batch [] rows)) as [|x left]; cbn [final_batch].
    + rewrite app_nil_r. clear - Hall.
      induction Hall as [|b bs Hb Hbs IH]; [constructor|].
      cbn. destruct bs; [constructor|]. constructor; assumption.
    + rewrite removelast_last. exact Hall.
Qed.

End BatchFacts.

(** With a non-positive batch size every row is a batch of its own. *)
Lemma fill_nonpositive (batch : Z) (rows : list Row) :
  batch <= 0 ->
  fill batch [] rows = (map (fun row => [row]) rows, []).
Proof.
  intros Hb. induction rows as [|row rest IH]; [reflexivity|].
  cbn [fill app List.length].
  destruct (Z.leb_spec batch (Z.of_nat 1)) as [_|Hbad]; [|lia].
  rewrite IH. reflexivity.
Qed.

Lemma accepted_all (E : env) (i : nat) (bs : list (list Row)) :
  (forall j b, driver E j b <> ExecFails) ->
  accepted E i bs = List.length bs.
Proof.
  intros Hok. revert i. induction bs as [|b bs IH]; intros i; cbn; [reflexivity|].
  destruct (driver E i b) eqn:Hd; [now rewrite IH|now elim (Hok i b)].
Qed.

(** ** The streaming reader *)

Lemma rows_of_yield_all (page : list Row) (k : gen) :
  rows_of (yield_all page k) = page ++ rows_of k.
Proof.
  unfold yield_all. induction page as [|r page IH]; cbn; [|rewrite IH]; reflexivity.
Qed.

Lemma pages_of_yield_all (page : list Row) (k : gen) :
  pages_of (yield_all page k) = pages_of k.
Proof.
  unfold yield_all. induction page as [|r page IH]; cbn; [|rewrite IH]; reflexivity.
Qed.

Lemma ending_yield_all (page : list Row) (k : gen) :
  ending (yield_all page k) = ending k.
Proof.
  unfold yield_all. induction page as [|r page IH]; cbn; [|rewrite IH]; reflexivity.
Qed.

Lemma rows_of_gen_of_list (rows : list Row) : rows_of (gen_of_list rows) = rows.
Proof.
  unfold gen_of_list. change (fold_right GYield GDone rows) with (yield_all rows GDone).
  rewrite rows_of_yield_all. cbn. apply app_nil_r.
Qed.

Lemma ending_gen_of_list (rows : list Row) : ending (gen_of_list rows) = Ok tt.
Proof.
  unfold gen_of_list. change (fold_right GYield GDone rows) with (yield_all rows GDone).
  now rewrite ending_yield_all.
Qed.

(** The page loop never runs out of the fuel [_stream_rows] gives it,
    whatever the page size and the state of the cursor. *)
Lemma page_loop_total (arraysize : Z) (on_error on_end : gen) (fuel : nat) :
  ending on_error <> OutOfFuel -> ending on_end <> OutOfFuel ->
  forall c,
    (List.length (pending c) < fuel)%nat ->
    ending (page_loop fuel arraysize c on_error on_end) <> OutOfFuel.
Proof.
  intros Herr Hend. induction fuel as [|fuel IH]; intros c Hlen; [lia|].
  cbn [page_loop]. unfold fetchmany.
  destruct ((List.length (pending c) <? Z.to_nat arraysize)%nat && broken c)%bool;
    [exact Herr|].
  cbn [ending].
  destruct (firstn (Z.to_nat arraysize) (pending c)) as [|r page] eqn:Hpage;
    [exact Hend|].
  rewrite ending_yield_all. apply IH. cbn [pending].
  destruct (Z.to_nat arraysize) as [|k]; [discriminate|].
  destruct (pending c) as [|r' rest]; [discriminate|].
  cbn [skipn List.length] in *. pose proof (length_skipn k rest). lia.
Qed.

(** On a healthy cursor and with a positive page size the loop yields
    every pending row, in order, page by page. *)
Lemma page_loop_rows (arraysize : Z) (on_error on_end : gen) (fuel : nat) :
  0 < arraysize ->
  forall c,
    broken c = false ->
    (List.length (pending c) < fuel)%nat ->
    let g := page_loop fuel arraysize c on_error on_end in
    rows_of g = pending c ++ rows_of on_end /\
    ending g = ending on_end /\
    exists pages,
      pages_of g = pages ++ [] :: pages_of on_end /\
      List.concat pages = pending c /\
      Forall (fun p => p <> [] /\ Z.of_nat (List.length p) <= arraysize) pages /\
      Forall (fun p => Z.of_nat (List.length p) = arraysize) (removelast pages).
Proof.
  intros Hsize. induction fuel as [|fuel IH]; intros c Hb Hlen; [lia|].
  cbn zeta. cbn [page_loop]. unfold fetchmany. rewrite Hb, andb_false_r.
  set (k := Z.to_nat arraysize).
  assert (Hk : (0 < k)%nat) by (unfold k; lia).
  destruct (firstn k (pending c)) as [|r page] eqn:Hpage.
  - assert (Hnil : pending c = []).
    { destruct k; [lia|]. destruct (pending c); [reflexivity|discriminate]. }
    rewrite Hnil. cbn. repeat split.
    exists []. cbn. repeat split; constructor.
  - cbn [rows_of ending pages_of].
    rewrite rows_of_yield_all, ending_yield_all, pages_of_yield_all.
    assert (Hshort : (List.length (skipn k (pending c)) < fuel)%nat).
    { rewrite length_skipn.
      destruct (pending c); [rewrite firstn_nil in Hpage; discriminate|].
      cbn [List.length] in *. lia. }
    destruct (IH (mkCursor (skipn k (pending c)) false) eq_refl Hshort)
      as (Hrows & Hend & pages & Hpages & Hcat & Hsz & Hfull).
    cbn [pending] in *. rewrite Hrows, Hend, Hpages.
    split; [|split; [reflexivity|]].
    + rewrite app_assoc, <- Hpage, firstn_skipn. reflexivity.
    + exists ((r :: page) :: pages). cbn [app List.concat].
      split; [reflexivity|]. split; [|split].
      * change (r :: page ++ List.concat pages)
          with ((r :: page) ++ List.concat pages).
        rewrite Hcat, <- Hpage. apply firstn_skipn.
      * constructor; [|exact Hsz]. split; [discriminate|].
        rewrite <- Hpage, length_firstn. unfold k. lia.
      * destruct pages as [|p pages']; [constructor|].
        change (removelast ((r :: page) :: p :: pages'))
          with ((r :: page) :: removelast (p :: pages')).
        constructor; [|exact Hfull].
        rewrite <- Hpage, length_firstn.
        assert (Hp : p <> []) by (inversion Hsz as [|? ? [Hp _] _]; exact Hp).
        assert (Hmore : skipn k (pending c) <> []).
        { intros Hs. rewrite Hs in Hcat. cbn in Hcat.
          destruct p; [now elim Hp|discriminate]. }
        assert (k < List.length (pending c))%nat.
        { destruct (Nat.lt_ge_cases k (List.length (pending c))) as [|Hge]; [assumption|].
          elim Hmore. now apply skipn_all2. }
        unfold k in *. lia.
Qed.

Section StreamFacts.

Variable E : env.

Lemma stream_rows_total (select_sql : string) (arraysize : Z) (conn_given : bool) :
  ending (_stream_rows E select_sql arraysize conn_given) <> OutOfFuel.
Proof.
  unfold _stream_rows.
  assert (forall g, ending g <> OutOfFuel ->
            ending (if conn_given then g else GEvent SrcConnect g) <> OutOfFuel)
    as Hwrap by (intros g Hg; destruct conn_given; exact Hg).
  apply Hwrap. cbn [ending].
  assert (forall e, ending (GEvent (LogError EStreamingFailed)
                      (if conn_given then GRaise e
                       else GEvent SrcRelease (GRaise e))) <> OutOfFuel)
    as Hfail by (intros e; destruct conn_given; discriminate).
  destruct (query E "SET autocommit = 1"); [|apply Hfail].
  cbn [ending].
  destruct (query E (_wrap_unlimited select_sql)) as [cur|]; [|apply Hfail].
  apply page_loop_total; [apply Hfail| |lia].
  destruct conn_given; discriminate.
Qed.

(** What the generator of the streaming strategy produces when the source
    answers. *)
Lemma stream_rows_spec (select_sql : string) (arraysize : Z) (rows : list Row) :
  0 < arraysize ->
  query E "SET autocommit = 1" <> None ->
  query E (_wrap_unlimited select_sql) = Some (mkCursor rows false) ->
  let g := _stream_rows E select_sql arraysize true in
  rows_of g = rows /\ ending g = Ok tt /\
  exists pages,
    pages_of g = pages ++ [[]] /\
    List.concat pages = rows /\
    Forall (fun p => p <> [] /\ Z.of_nat (List.length p) <= arraysize) pages /\
    Forall (fun p => Z.of_nat (List.length p) = arraysize) (removelast pages).
Proof.
  intros Hsize Hset Hq. cbn zeta. unfold _stream_rows.
  destruct (query E "SET autocommit = 1"); [|now elim Hset].
  rewrite Hq. cbn [rows_of ending pages_of pending].
  destruct (page_loop_rows arraysize
              (GEvent (LogError EStreamingFailed) (GRaise DBAPIError)) GDone
              (S (List.length rows)) Hsize (mkCursor rows false) eq_refl
              ltac:(cbn; lia))
    as (Hrows & Hend & pages & Hpages & Hrest).
  cbn [pending rows_of ending pages_of] in *.
  rewrite Hrows, Hend, app_nil_r. repeat split.
  exists pages. split; [exact Hpages|exact Hrest].
Qed.

End StreamFacts.

(** ** Rows from the streaming reader to the writer *)

(** C1.  For every positive batch size and chunk size and every result
    set [R] that the source delivers without error, the writer fed by
    [_stream_rows] makes [ceil(len(R) / batch_size)] [executemany] calls,
    whose batches, concatenated in call order, are exactly [R]; every
    batch but the last holds [batch_size] rows.  The reader fetched [R]
    in pages of [chunk_size] rows (the last one possibly shorter),
    followed by the empty page that ends the read.  For 2,500 rows,
    chunks of 1000 and batches of 500 this gives pages of 1000, 1000 and
    500 rows and five batches of 500 (see [scenario_A]). *)
Theorem streamed_rows_reach_writer
    (E : env) (select_sql insert_sql : string) (chunk_size batch_size : Z)
    (fast verify : bool) (R : list Row) (w : world) :
  0 < batch_size -> 0 < chunk_size ->
  query E "SET autocommit = 1" <> None ->
  query E (_wrap_unlimited select_sql) = Some (mkCursor R false) ->
  (forall i b, driver E i b <> ExecFails) ->
  exists total w' bs pages,
    _mssql_execmany E insert_sql (_stream_rows E select_sql chunk_size true)
                    batch_size fast verify w = (Ok total, w') /\
    committed w' = committed w ++ uncommitted w ++ bs /\
    uncommitted w' = [] /\
    calls w' = (calls w + List.length bs)%nat /\
    List.concat bs = R /\
    Z.of_nat (List.length bs)
    = (Z.of_nat (List.length R) + batch_size - 1) / batch_size /\
    Forall (fun b => b <> [] /\ Z.of_nat (List.length b) <= batch_size) bs /\
    Forall (fun b => Z.of_nat (List.length b) = batch_size) (removelast bs) /\
    pages_of (_stream_rows E select_sql chunk_size true) = pages ++ [[]] /\
    List.concat pages = R /\
    Forall (fun p => p <> [] /\ Z.of_nat (List.length p) <= chunk_size) pages /\
    Forall (fun p => Z.of_nat (List.length p) = chunk_size) (removelast pages).
Proof.
  intros Hb Hc Hset Hq Hdrv.
  destruct (stream_rows_spec E select_sql chunk_size R Hc Hset Hq)
    as (Hrows & Hend & pages & Hpages & Hcat & Hsz & Hfull).
  destruct (execmany_spec E insert_sql batch_size verify
              (_stream_rows E select_sql chunk_size true) fast w)
    as (r & w' & Hrun & _ & Hok & _).
  rewrite Hrows in Hok.
  destruct (Hok Hend (accepted_all E _ _ Hdrv)) as (-> & Hcm & Hun & Hcalls).
  destruct (batches_sizes batch_size Hb R) as [Hbs Hbfull].
  exists (credits E (calls w) (batches batch_size R)), w',
         (batches batch_size R), pages.
  repeat split; try assumption.
  - apply batches_concat.
  - apply batches_count. exact Hb.
Qed.

(** ** Credited row counts *)

Lemma credits_negative (E : env) (bs : list (list Row)) :
  (forall i b, exists rc, driver E i b = Rowcount rc /\
                          forall n, rc = Some n -> n < 0) ->
  forall i, credits E i bs = Z.of_nat (List.length (List.concat bs)).
Proof.
  intros Hneg. induction bs as [|b bs IH]; intros i; [reflexivity|].
  cbn [credits List.concat]. rewrite IH, length_app, Nat2Z.inj_add.
  destruct (Hneg i b) as (rc & -> & Hrc). cbn [reported].
  unfold credited. destruct rc as [n|]; [|reflexivity].
  specialize (Hrc n eq_refl).
  destruct (Z.leb_spec 0 n); [lia|reflexivity].
Qed.

(** C8.  When the driver reports a negative or no row count for every
    batch, the total returned by the writer is the number of rows it was
    given, all of them committed; in general the returned total is the
    sum over the batches of the credited counts, and a batch for which
    the driver reports a non-negative count is credited with exactly
    that count, any other with its length. *)
Theorem fallback_to_buffer_length
    (E : env) (insert_sql : string) (batch : Z) (fast verify : bool)
    (g : gen) (w : world) :
  ending g = Ok tt ->
  (forall i b, driver E i b <> ExecFails) ->
  (exists w',
     _mssql_execmany E insert_sql g batch fast verify w
       = (Ok (credits E (calls w) (batches batch (rows_of g))), w') /\
     committed w' = committed w ++ uncommitted w ++ batches batch (rows_of g) /\
     ((forall i b, exists rc, driver E i b = Rowcount rc /\
                              forall n, rc = Some n -> n < 0) ->
      credits E (calls w) (batches batch (rows_of g))
      = Z.of_nat (List.length (rows_of g)))) /\
  (forall n buf, 0 <= n -> credited (Some n) buf = n) /\
  (forall n buf, n < 0 -> credited (Some n) buf = Z.of_nat (List.length buf)) /\
  (forall buf, credited None buf = Z.of_nat (List.length buf)).
Proof.
  intros Hend Hdrv. split; [|split; [|split]].
  - destruct (execmany_spec E insert_sql batch verify g fast w)
      as (r & w' & Hrun & _ & Hok & _).
    destruct (Hok Hend (accepted_all E _ _ Hdrv)) as (-> & Hcm & _).
    exists w'. split; [exact Hrun|]. split; [exact Hcm|].
    intros Hneg. rewrite (credits_negative E _ Hneg), batches_concat.
    reflexivity.
  - intros n buf Hn. unfold credited.
    destruct (Z.leb_spec 0 n); [reflexivity|lia].
  - intros n buf Hn. unfold credited.
    destruct (Z.leb_spec 0 n); [lia|reflexivity].
  - reflexivity.
Qed.

(** ** When batches become durable *)

Lemma fill_exact (batch : Z) (buf : list Row) :
  0 < batch -> Z.of_nat (List.length buf) = batch ->
  fill batch [] buf = ([buf], []).
Proof.
  intros Hb Hlen.
  destruct (fill_count batch Hb buf [] ltac:(cbn; lia)) as [Hn Hl].
  pose proof (fill_concat batch buf []) as Hcat.
  destruct (fill batch [] buf) as [bs left]. cbn [fst snd List.length app] in *.
  rewrite Hlen, Z.add_0_l in Hn, Hl.
  rewrite Z.div_same in Hn by lia. rewrite Z.mod_same in Hl by lia.
  destruct left; [|discriminate].
  destruct bs as [|b [|b' bs]]; cbn in Hn; try lia.
  cbn in Hcat. rewrite !app_nil_r in Hcat. now subst.
Qed.

Section FetchoneFacts.

Variable E : env.
Variables (this : self) (insert_sql : string) (batch_size : Z) (drops : bool).
Hypothesis batch_pos : 0 < batch_size.

(** The row-by-row loop: every batch the destination accepts before the
    first failure is committed by the writer call that submitted it. *)
Lemma fetchone_loop_spec (rows : list Row) :
  forall buf total fetched w,
    Z.of_nat (List.length buf) < batch_size ->
    uncommitted w = [] ->
    let bs := fst (fill batch_size buf rows) in
    let left := snd (fill batch_size buf rows) in
    let j := accepted E (calls w) bs in
    exists r w',
      fetchone_loop E this insert_sql batch_size rows drops buf total fetched w
        = (r, w') /\
      uncommitted w' = [] /\
      committed w' = committed w ++ firstn j bs /\
      polls w' = polls w /\
      (j = List.length bs ->
       calls w' = (calls w + j)%nat /\
       r = if drops then Raise DBAPIError
           else Ok (left, total + credits E (calls w) bs,
                    fetched + Z.of_nat (List.length rows))) /\
      (j <> List.length bs ->
       calls w' = (calls w + j + 1)%nat /\ r = Raise PyodbcError).
Proof.
  induction rows as [|row rest IH]; intros buf total fetched w Hbuf Hun; cbn zeta.
  - cbn [fetchone_loop fill fst snd accepted firstn credits List.length].
    unfold bind, emit.
    destruct drops; (eexists _, _; split; [reflexivity|]; cbn;
      rewrite app_nil_r, ?Z.add_0_r, Nat.add_0_r; repeat split; congruence).
  - cbn [fetchone_loop]. rewrite fill_yield.
    set (w1 := mkWorld (trace w ++ [SrcFetchOne]) (polls w) (calls w)
                       (uncommitted w) (committed w)).
    unfold bind at 1. unfold emit at 1. fold w1.
    destruct (Z.leb_spec batch_size (Z.of_nat (List.length (buf ++ [row]))))
      as [Hfull|Hroom].
    + assert (Hlen : Z.of_nat (List.length (buf ++ [row])) = batch_size).
      { rewrite length_app in *. cbn [List.length] in *. lia. }
      destruct (execmany_spec E insert_sql batch_size
                  (mssql_verify_rowcount this) (gen_of_list (buf ++ [row]))
                  (mssql_fast_executemany this) w1)
        as (r1 & w2 & Hrun & Hp2 & Hok & Hko).
      rewrite rows_of_gen_of_list, ending_gen_of_list in *.
      unfold batches in *. rewrite (fill_exact _ _ batch_pos Hlen) in *.
      cbn [fst snd final_batch app accepted List.length w1 calls uncommitted
           committed polls] in *.
      rewrite (bind_run _ _ _ _ _ Hrun).
      destruct (driver E (calls w) (buf ++ [row])) as [rc|] eqn:Hd.
      * destruct (Hok eq_refl eq_refl) as (-> & Hcm & Hun2 & Hc2).
        destruct (IH [] (total + credits E (calls w) [buf ++ [row]])
                     (fetched + 1) w2 ltac:(cbn; lia) Hun2)
          as (r & w' & Hr & Hun' & Hcm' & Hp' & Hall & Hfail).
        exists r, w'. rewrite Hc2 in *.
        replace (calls w + 1)%nat with (S (calls w)) in * by lia.
        cbn [credits reported] in *. rewrite Hd in *. cbn [reported] in *.
        split; [exact Hr|]. split; [exact Hun'|].
        split; [rewrite Hcm', Hcm, Hun; cbn; rewrite <- app_assoc; reflexivity|].
        split; [congruence|]. split.
        -- intros Hj. injection Hj as Hj. destruct (Hall Hj) as [Hcw ->].
           split; [lia|]. destruct drops; [reflexivity|].
           f_equal. f_equal; [f_equal; lia|cbn [List.length]; lia].
        -- intros Hj. destruct Hfail as [Hcw ->]; [congruence|].
           split; [lia|reflexivity].
      * destruct Hko as (Hne & Hcm & Hun2 & Hraise); [intros [_ Habs]; discriminate|].
        destruct (Hraise eq_refl) as [-> Hc2].
        exists (Raise PyodbcError), w2. cbn [firstn List.length] in *.
        rewrite app_nil_r in *.
        repeat split; try congruence; try lia.
    + destruct (IH (buf ++ [row]) total (fetched + 1) w1 Hroom Hun)
        as (r & w' & Hr & Hun' & Hcm' & Hp' & Hall & Hfail).
      exists r, w'. cbn [w1 calls committed polls] in *.
      split; [exact Hr|]. split; [exact Hun'|]. split; [exact Hcm'|].
      split; [exact Hp'|]. split; [|exact Hfail].
      intros Hj. destruct (Hall Hj) as [Hcw ->]. split; [exact Hcw|].
      destruct drops; [reflexivity|].
      f_equal. f_equal. cbn [List.length]. lia.
Qed.

End FetchoneFacts.

(** C3 (as the code has it).  In the row-by-row strategy every full
    batch is submitted by a writer call of its own, which commits it: the
    batches accepted before the first failing insert (or before the
    source read fails) are all durable and none is left in an open
    transaction.  A single writer call, as made once per job by the
    streaming and fetch-all strategies, commits once, after its last
    batch: when it returns, all its batches are durable; when it raises,
    none is, and the batches accepted so far sit in the open
    transaction. *)
Theorem commit_granularity
    (E : env) (this : self) (insert_sql : string) (batch_size : Z)
    (rows : list Row) (drops : bool) (g : gen) (w : world) :
  0 < batch_size -> uncommitted w = [] ->
  let full := fst (fill batch_size [] rows) in
  (exists r w',
     fetchone_loop E this insert_sql batch_size rows drops [] 0 0 w = (r, w') /\
     uncommitted w' = [] /\
     committed w' = committed w ++ firstn (accepted E (calls w) full) full /\
     ((forall x, r <> Ok x) <->
      drops = true \/ accepted E (calls w) full <> List.length full)) /\
  (exists r w',
     _mssql_execmany E insert_sql g batch_size
       (mssql_fast_executemany this) (mssql_verify_rowcount this) w = (r, w') /\
     ((exists total, r = Ok total) /\
      committed w' = committed w ++ batches batch_size (rows_of g) /\
      uncommitted w' = []
      \/
      (forall x, r <> Ok x) /\
      committed w' = committed w /\
      uncommitted w'
      = firstn (accepted E (calls w) (fst (fill batch_size [] (rows_of g))))
               (fst (fill batch_size [] (rows_of g))))).
Proof.
  intros Hb Hun. cbn zeta. split.
  - destruct (fetchone_loop_spec E this insert_sql batch_size drops Hb rows
                [] 0 0 w ltac:(cbn; lia) Hun)
      as (r & w' & Hr & Hun' & Hcm & _ & Hall & Hfail).
    exists r, w'. split; [exact Hr|]. split; [exact Hun'|]. split; [exact Hcm|].
    destruct (Nat.eq_dec (accepted E (calls w) (fst (fill batch_size [] rows)))
                (List.length (fst (fill batch_size [] rows)))) as [Hj|Hj].
    + destruct (Hall Hj) as [_ ->]. destruct drops.
      * split; [intros _; now left|intros _ x; discriminate].
      * split.
        -- intros Hne. now elim (Hne _ eq_refl).
        -- intros [Habs|Habs]; [discriminate|now elim Habs].
    + destruct (Hfail Hj) as [_ ->].
      split; [intros _; now right|intros _ x; discriminate].
  - destruct (execmany_spec E insert_sql batch_size (mssql_verify_rowcount this)
                g (mssql_fast_executemany this) w)
      as (r & w' & Hrun & _ & Hok & Hko).
    exists r, w'. split; [exact Hrun|]. rewrite Hun in *. cbn [app] in *.
    destruct (ending g) as [[]|e|] eqn:Hend.
    + destruct (Nat.eq_dec (accepted E (calls w) (batches batch_size (rows_of g)))
                  (List.length (batches batch_size (rows_of g)))) as [Hj|Hj].
      * left. destruct (Hok eq_refl Hj) as (-> & Hcm & Hun' & _). eauto.
      * right. destruct Hko as (Hne & Hcm & Hun' & _); [tauto|]. auto.
    + right. destruct Hko as (Hne & Hcm & Hun' & _); [|auto].
      intros [Habs _]. discriminate.
    + right. destruct Hko as (Hne & Hcm & Hun' & _); [|auto].
      intros [Habs _]. discriminate.
Qed.

(** ** Unresolved placeholders *)

(** C6 (as the code has it).  When the select statement still contains
    [|||], each of the three entry points raises [ValueError] as its
    first action: the call leaves the world as it found it, so it opens
    no connection and runs no statement on either side.  (The
    connections themselves were opened, and session statements run, when
    the manager was constructed; see [placeholder_after_construction].) *)
Theorem placeholder_rejected_first
    (E : env) (fuel : nat) (this : self) (select_sql insert_sql : string)
    (preview_rows chunk_size batch_size stable_for interval max_wait : Z)
    (w : world) :
  contains "|||" select_sql = true ->
  let err := ValueError
               ("Unresolved placeholder in select_sql: " ++ select_sql)%string in
  transfer E fuel this select_sql insert_sql preview_rows chunk_size
           batch_size stable_for interval max_wait w = (Raise err, w) /\
  transfer_fetchall E fuel this select_sql insert_sql preview_rows
           batch_size stable_for interval max_wait w = (Raise err, w) /\
  transfer_fetchone E fuel this select_sql insert_sql preview_rows
           batch_size stable_for interval max_wait w = (Raise err, w).
Proof.
  intros H. unfold transfer, transfer_fetchall, transfer_fetchone.
  rewrite H. repeat split.
Qed.

(** ** The trace only grows *)

Lemma appends_ret {A} (a : A) : appends (ret a).
Proof. intros w r w' H. inversion H. exists []. now rewrite app_nil_r. Qed.

Lemma appends_raise {A} (e : exn) : appends (@raise A e).
Proof. intros w r w' H. inversion H. exists []. now rewrite app_nil_r. Qed.

Lemma appends_fuel {A} : appends (@out_of_fuel A).
Proof. intros w r w' H. inversion H. exists []. now rewrite app_nil_r. Qed.

Lemma appends_emit (ev : event) : appends (emit ev).
Proof. intros w r w' H. inversion H. now exists [ev]. Qed.

Lemma appends_bind {A B} (m : M A) (k : A -> M B) :
  appends m -> (forall a, appends (k a)) -> appends (bind m k).
Proof.
  intros Hm Hk w r w' H. unfold bind in H.
  destruct (m w) as [[a|e|] w1] eqn:Hmw; destruct (Hm _ _ _ Hmw) as [t1 Ht1].
  - destruct (Hk a _ _ _ H) as [t2 Ht2]. exists (t1 ++ t2).
    now rewrite Ht2, Ht1, app_assoc.
  - inversion H; subst. now exists t1.
  - inversion H; subst. now exists t1.
Qed.

Lemma appends_catch {A} (m : M A) (h : exn -> M A) :
  appends m -> (forall e, appends (h e)) -> appends (catch m h).
Proof.
  intros Hm Hh w r w' H. unfold catch in H.
  destruct (m w) as [[a|e|] w1] eqn:Hmw; destruct (Hm _ _ _ Hmw) as [t1 Ht1].
  - inversion H; subst. now exists t1.
  - destruct (Hh e _ _ _ H) as [t2 Ht2]. exists (t1 ++ t2).
    now rewrite Ht2, Ht1, app_assoc.
  - inversion H; subst. now exists t1.
Qed.

Lemma appends_finally {A} (m : M A) (f : M unit) :
  appends m -> appends f -> appends (finally m f).
Proof.
  intros Hm Hf w r w' H. unfold finally in H.
  destruct (m w) as [[a|e|] w1] eqn:Hmw; destruct (Hm _ _ _ Hmw) as [t1 Ht1].
  - destruct (appends_bind f (fun _ => ret a) Hf (fun _ => appends_ret a) _ _ _ H)
      as [t2 Ht2].
    exists (t1 ++ t2). now rewrite Ht2, Ht1, app_assoc.
  - destruct (appends_bind f (fun _ => raise e) Hf (fun _ => appends_raise e) _ _ _ H)
      as [t2 Ht2].
    exists (t1 ++ t2). now rewrite Ht2, Ht1, app_assoc.
  - inversion H; subst. now exists t1.
Qed.

Lemma begins_appends {A} (evs : list event) (m : M A) :
  begins evs m -> appends m.
Proof. intros Hm w r w' H. destruct (Hm _ _ _ H) as [t Ht]. eauto. Qed.

Lemma begins_emit_then {A} (ev : event) (evs : list event) (k : M A) :
  begins evs k -> begins (ev :: evs) (emit ev ;;; k).
Proof.
  intros Hk w r w' H. unfold bind, emit in H.
  destruct (Hk _ _ _ H) as [t Ht]. exists t. cbn in Ht.
  now rewrite Ht, <- app_assoc.
Qed.

Lemma begins_bind {A B} (evs : list event) (m : M A) (k : A -> M B) :
  begins evs m -> (forall a, appends (k a)) -> begins evs (bind m k).
Proof.
  intros Hm Hk w r w' H. unfold bind in H.
  destruct (m w) as [[a|e|] w1] eqn:Hmw; destruct (Hm _ _ _ Hmw) as [t1 Ht1].
  - destruct (Hk a _ _ _ H) as [t2 Ht2]. exists (t1 ++ t2).
    now rewrite Ht2, Ht1, <- !app_assoc.
  - inversion H; subst. now exists t1.
  - inversion H; subst. now exists t1.
Qed.

Lemma begins_catch {A} (evs : list event) (m : M A) (h : exn -> M A) :
  begins evs m -> (forall e, appends (h e)) -> begins evs (catch m h).
Proof.
  intros Hm Hh w r w' H. unfold catch in H.
  destruct (m w) as [[a|e|] w1] eqn:Hmw; destruct (Hm _ _ _ Hmw) as [t1 Ht1].
  - inversion H; subst. now exists t1.
  - destruct (Hh e _ _ _ H) as [t2 Ht2]. exists (t1 ++ t2).
    now rewrite Ht2, Ht1, <- !app_assoc.
  - inversion H; subst. now exists t1.
Qed.

Lemma begins_finally {A} (evs : list event) (m : M A) (f : M unit) :
  begins evs m -> appends f -> begins evs (finally m f).
Proof.
  intros Hm Hf w r w' H. unfold finally in H.
  destruct (m w) as [[a|e|] w1] eqn:Hmw; destruct (Hm _ _ _ Hmw) as [t1 Ht1].
  - destruct (appends_bind f (fun _ => ret a) Hf (fun _ => appends_ret a) _ _ _ H)
      as [t2 Ht2].
    exists (t1 ++ t2). now rewrite Ht2, Ht1, <- !app_assoc.
  - destruct (appends_bind f (fun _ => raise e) Hf (fun _ => appends_raise e) _ _ _ H)
      as [t2 Ht2].
    exists (t1 ++ t2). now rewrite Ht2, Ht1, <- !app_assoc.
  - inversion H; subst. now exists t1.
Qed.

Create HintDb trace_db.

#[local] Hint Resolve appends_ret appends_raise appends_fuel appends_emit : trace_db.

Ltac appends_step :=
  match goal with
  | |- appends (bind _ _) => apply appends_bind; [|intros]
  | |- appends (catch _ _) => apply appends_catch; [|intros]
  | |- appends (finally _ _) => apply appends_finally
  | |- appends (log_warning _) => apply appends_emit
  | |- appends (log_error _) => apply appends_emit
  | |- appends (if ?b then _ else _) => destruct b
  | |- appends (match ?x with _ => _ end) => destruct x
  end.

Ltac appends_auto :=
  repeat first [ solve [auto with trace_db] | appends_step ].

Section TraceFacts.

Variable E : env.

Lemma appends_execute (sql : string) : appends (execute E sql).
Proof. unfold execute. appends_auto. Qed.

Lemma begins_execute (sql : string) : begins [SrcExec sql] (execute E sql).
Proof.
  unfold execute. apply begins_emit_then.
  intros w r w' H. exists []. cbn.
  destruct (query E sql); inversion H; now rewrite app_nil_r.
Qed.

Lemma appends_count_query (sql : string) : appends (count_query E sql).
Proof.
  unfold count_query. apply appends_bind; [auto with trace_db|].
  intros _ w r w' H. exists []. cbn.
  destruct (counts E (polls w)); inversion H; cbn; now rewrite app_nil_r.
Qed.

Lemma appends_sleep (seconds : Z) : appends (sleep seconds).
Proof. unfold sleep. appends_auto. Qed.

Hint Resolve appends_execute appends_count_query appends_sleep : trace_db.

Lemma appends_poll_loop (fuel : nat) :
  forall wrapped stable_for interval max_wait last same_for waited,
    appends (poll_loop E fuel wrapped stable_for interval max_wait
                       last same_for waited).
Proof.
  induction fuel as [|fuel IH]; intros; cbn [poll_loop]; appends_auto.
Qed.

Hint Resolve appends_poll_loop : trace_db.

Lemma appends_gate (fuel : nat) (wrapped : string) (stable_for interval max_wait : Z) :
  appends (_wait_for_stable_count E fuel wrapped stable_for interval max_wait).
Proof. unfold _wait_for_stable_count. appends_auto. Qed.

Lemma appends_executemany (sql : string) (buf : list Row) :
  appends (executemany E sql buf).
Proof.
  intros w r w' H. unfold executemany in H.
  destruct (driver E (calls w) buf); inversion H; cbn; eauto.
Qed.

Lemma appends_commit : appends commit.
Proof. intros w r w' H. inversion H. cbn. eauto. Qed.

Hint Resolve appends_gate appends_executemany appends_commit : trace_db.

Lemma appends_execute_batch (sql : string) (verify final : bool) (buf : list Row) :
  appends (execute_batch E sql verify final buf).
Proof. unfold execute_batch. appends_auto. Qed.

Hint Resolve appends_execute_batch : trace_db.

Lemma appends_drain (sql : string) (batch : Z) (verify : bool) (g : gen) :
  forall buf total, appends (drain E sql batch verify g buf total).
Proof.
  induction g; intros; cbn [drain]; appends_auto.
Qed.

Hint Resolve appends_drain : trace_db.

Lemma appends_execmany (sql : string) (g : gen) (batch : Z) (fast verify : bool) :
  appends (_mssql_execmany E sql g batch fast verify).
Proof.
  unfold _mssql_execmany, except_pyodbc. appends_auto.
Qed.

Hint Resolve appends_execmany : trace_db.

Lemma appends_execute_each (stmts : list string) : appends (execute_each E stmts).
Proof. induction stmts; cbn [execute_each]; appends_auto. Qed.

Lemma appends_do_fetchall (c : cursor) : appends (do_fetchall c).
Proof. unfold do_fetchall. appends_auto. Qed.

Hint Resolve appends_execute_each appends_do_fetchall : trace_db.

Lemma appends_with_connection {A} (body : M A) :
  appends body -> appends (with_connection body).
Proof. intros H. unfold with_connection. appends_auto. Qed.

Lemma appends_mysql_diag (label : string) : appends (_mysql_diag E label).
Proof.
  unfold _mysql_diag, with_connection, unpack_context. appends_auto.
Qed.

Hint Resolve appends_mysql_diag : trace_db.

Lemma appends_fetchone_loop (this : self) (sql : string) (batch : Z)
    (rows : list Row) (drops : bool) :
  forall buf total fetched,
    appends (fetchone_loop E this sql batch rows drops buf total fetched).
Proof.
  induction rows; intros; cbn [fetchone_loop]; appends_auto.
Qed.

Hint Resolve appends_fetchone_loop : trace_db.

(** The block that follows the preview in each entry point opens a
    connection and sets the isolation level before anything else. *)
Lemma begins_stable_session {A B} (f : failure) (body : M A) (k : A -> M B) :
  appends body -> (forall a, appends (k a)) ->
  begins [SrcConnect;
          SrcExec "SET SESSION TRANSACTION ISOLATION LEVEL READ COMMITTED"]
         (bind (logged f (with_connection (open_stable_session E ;;; body))) k).
Proof.
  intros Hbody Hk. apply begins_bind; [|exact Hk].
  unfold logged. apply begins_catch; [|intros; appends_auto].
  unfold with_connection. apply begins_emit_then.
  apply begins_finally; [|auto with trace_db].
  apply begins_bind; [|intros; exact Hbody].
  unfold open_stable_session.
  apply begins_bind; [apply begins_execute|intros; appends_auto].
Qed.

End TraceFacts.

#[local] Hint Resolve appends_execute appends_count_query appends_sleep
  appends_poll_loop appends_gate appends_executemany appends_commit
  appends_execute_batch appends_drain appends_execmany appends_execute_each
  appends_do_fetchall appends_mysql_diag appends_fetchone_loop : trace_db.

(** ** The preview *)

Section PreviewFacts.

Variable E : env.

(** Diagnostics swallow every exception. *)
Lemma mysql_diag_ok (label : string) (w : world) :
  exists w', _mysql_diag E label w = (Ok tt, w').
Proof.
  cbv [_mysql_diag with_connection unpack_context catch finally bind
       execute emit log_warning raise ret].
  destruct (query E "SET autocommit = 1") as [c0|]; [|eexists; reflexivity].
  destruct (query E _) as [cur|]; [|eexists; reflexivity].
  destruct (pending cur) as [|row rest].
  - destruct (broken cur); eexists; reflexivity.
  - destruct (List.length row =? 6)%nat; [|eexists; reflexivity].
    destruct (query E "SELECT @@global.gtid_executed"); eexists; reflexivity.
Qed.

(** The "Peek" block always returns normally; it talks to the source
    only. *)
Lemma peek_ok (select_sql : string) (n : Z) (w : world) :
  exists w',
    peek E select_sql n w = (Ok tt, w') /\
    polls w' = polls w /\ calls w' = calls w /\
    uncommitted w' = uncommitted w /\ committed w' = committed w /\
    (query E "SET autocommit = 1" <> None ->
     exists t,
       trace w'
       = trace w
         ++ [SrcConnect; SrcExec "SET autocommit = 1";
             SrcExec (_strip_semicolon select_sql ++ " LIMIT "
                      ++ str_of_int n)%string] ++ t) /\
    (forall e w1,
       _preview_rows E select_sql n w = (Raise e, w1) ->
       trace w' = trace w1 ++ [LogWarning WPreviewFailed]) /\
    (forall rows w1,
       _preview_rows E select_sql n w = (Ok rows, w1) -> w' = w1).
Proof.
  cbv [peek _preview_rows with_connection do_fetchall fetchall catch
       finally bind execute emit log_warning raise ret].
  destruct (query E "SET autocommit = 1") as [c0|].
  - destruct (query E _) as [cur|].
    + destruct (broken cur);
        (eexists; split; [reflexivity|]; cbn; repeat split;
         try (intros; rewrite <- !app_assoc; cbn; eexists; reflexivity);
         intros ? ? H; inversion H; reflexivity).
    + eexists; split; [reflexivity|]; cbn; repeat split;
        try (intros; rewrite <- !app_assoc; cbn; eexists; reflexivity);
        intros ? ? H; inversion H; reflexivity.
  - eexists; split; [reflexivity|]; cbn; repeat split;
      try (intros Habs; now elim Habs);
      intros ? ? H; inversion H; reflexivity.
Qed.

End PreviewFacts.

(** In each entry point the preview is the select statement, stripped
    of its trailing semicolon, with [" LIMIT n"] appended, run on a
    connection of its own.  The block around it returns normally in every
    case and leaves the destination untouched; when the preview raises,
    the exception is replaced by a logged warning.  So, for a select
    statement without placeholder and once the session set-up has
    returned, whatever the preview did, the entry point goes on to open
    the connection of the stabilization phase and set its isolation
    level. *)
Lemma peek_then_stabilization
    (E : env) (fuel : nat) (this : self) (select_sql insert_sql : string)
    (preview_rows chunk_size batch_size stable_for interval max_wait : Z)
    (w w1 : world) :
  contains "|||" select_sql = false ->
  _ensure_mysql_fresh_session E w = (Ok tt, w1) ->
  exists w2 w3,
    _mysql_diag E "pre-select" w1 = (Ok tt, w2) /\
    peek E select_sql preview_rows w2 = (Ok tt, w3) /\
    uncommitted w3 = uncommitted w2 /\ committed w3 = committed w2 /\
    (query E "SET autocommit = 1" <> None ->
     exists t,
       trace w3
       = trace w2
         ++ [SrcConnect; SrcExec "SET autocommit = 1";
             SrcExec (_strip_semicolon select_sql ++ " LIMIT "
                      ++ str_of_int preview_rows)%string] ++ t) /\
    (forall e u,
       _preview_rows E select_sql preview_rows w2 = (Raise e, u) ->
       trace w3 = trace u ++ [LogWarning WPreviewFailed]) /\
    (forall r w',
       transfer E fuel this select_sql insert_sql preview_rows chunk_size
                batch_size stable_for interval max_wait w = (r, w') \/
       transfer_fetchall E fuel this select_sql insert_sql preview_rows
                batch_size stable_for interval max_wait w = (r, w') \/
       transfer_fetchone E fuel this select_sql insert_sql preview_rows
                batch_size stable_for interval max_wait w = (r, w') ->
       exists t,
         trace w'
         = trace w3
           ++ [SrcConnect;
               SrcExec "SET SESSION TRANSACTION ISOLATION LEVEL READ COMMITTED"]
           ++ t).
Proof.
  intros Hsel Hens.
  destruct (mysql_diag_ok E "pre-select" w1) as [w2 Hdiag].
  destruct (peek_ok E select_sql preview_rows w2)
    as (w3 & Hpeek & _ & _ & Hun & Hcm & Hsql & Hwarn & _).
  exists w2, w3. repeat split; try assumption.
  intros r w' H.
  unfold transfer, transfer_fetchall, transfer_fetchone in H.
  rewrite Hsel in H.
  rewrite !(bind_run _ _ _ _ _ Hens) in H.
  rewrite !(bind_run _ _ _ _ _ Hdiag) in H.
  rewrite !(bind_run _ _ _ _ _ Hpeek) in H.
  destruct H as [H|[H|H]]; revert H; apply begins_stable_session;
    intros; unfold logged; appends_auto;
    try (apply appends_bind; [|intros]); appends_auto.
Qed.

(** * The scenarios, run *)

Ltac find_event := repeat first [left; reflexivity | right].

(** Scenario A: pages of 1000, 1000 and 500 rows, five batches of 500,
    2,500 rows transferred. *)
Lemma scenario_A :
  (exists total w' bs pages,
     _mssql_execmany scenario_A_env dst_sql
       (_stream_rows scenario_A_env src_sql 1000 true) 500 true true w0
       = (Ok total, w') /\
     committed w' = committed w0 ++ uncommitted w0 ++ bs /\
     uncommitted w' = [] /\
     calls w' = (calls w0 + List.length bs)%nat /\
     List.concat bs = numbered_rows 2500 /\
     Z.of_nat (List.length bs)
     = (Z.of_nat (List.length (numbered_rows 2500)) + 500 - 1) / 500 /\
     Forall (fun b => b <> [] /\ Z.of_nat (List.length b) <= 500) bs /\
     Forall (fun b => Z.of_nat (List.length b) = 500) (removelast bs) /\
     pages_of (_stream_rows scenario_A_env src_sql 1000 true) = pages ++ [[]] /\
     List.concat pages = numbered_rows 2500 /\
     Forall (fun p => p <> [] /\ Z.of_nat (List.length p) <= 1000) pages /\
     Forall (fun p => Z.of_nat (List.length p) = 1000) (removelast pages)) /\
  map (@List.length Row) (pages_of (_stream_rows scenario_A_env src_sql 1000 true))
  = [1000; 1000; 500; 0]%nat /\
  fst (_mssql_execmany scenario_A_env dst_sql
         (_stream_rows scenario_A_env src_sql 1000 true) 500 true true w0)
  = Ok 2500 /\
  map (@List.length Row)
      (committed
         (snd (_mssql_execmany scenario_A_env dst_sql
                 (_stream_rows scenario_A_env src_sql 1000 true)
                 500 true true w0)))
  = [500; 500; 500; 500; 500]%nat.
Proof.
  split.
  - apply (streamed_rows_reach_writer scenario_A_env src_sql dst_sql 1000 500
             true true (numbered_rows 2500) w0).
    + lia.
    + lia.
    + discriminate.
    + vm_compute. reflexivity.
    + intros i b. discriminate.
  - vm_compute. repeat split.
Defined.

(** Scenario B: the gate returns 15 at the fifth sample. *)
Lemma scenario_B :
  exists w',
    _wait_for_stable_count scenario_B_env 5 src_sql 2 1 600 w0 = (Ok 15, w') /\
    polls w' = 5%nat.
Proof.
  destruct (stable_count_is_returned scenario_B_env src_sql 2 1 600
              2 2 15 w0 5) as (w' & Hr & _ & Hexact).
  - lia.
  - lia.
  - lia.
  - lia.
  - reflexivity.
  - intros i Hi. destruct i as [|[|[|i]]]; [reflexivity..|exfalso; lia].
  - lia.
  - exists w'. split; [exact Hr|]. apply Hexact; [lia|discriminate].
Defined.

(** A count that grows at every poll, a wait of 3 seconds polled every
    second: the gate returns the fourth sample. *)
Lemma growing_count_times_out :
  exists w',
    _wait_for_stable_count growing_env 5 src_sql 60 1 3 w0 = (Ok 3, w') /\
    polls w' = 4%nat.
Proof.
  destruct (timeout_returns_last_count growing_env src_sql 60 1 3 w0 5)
    as [(v & w' & Hr & Hv & Hp & _) _].
  - lia.
  - lia.
  - intros i _. discriminate.
  - intros i c c' _ H1 H2. cbn in H1, H2.
    injection H1 as <-. injection H2 as <-. lia.
  - vm_compute. lia.
  - exists w'. vm_compute in Hv. injection Hv as <-.
    split; [exact Hr|exact Hp].
Defined.

(** The same source polled every second ends within four polls; polled
    with a zero interval it never ends. *)
Lemma growing_count_interval_zero :
  (exists r w',
     _wait_for_stable_count growing_env 5 src_sql 60 1 3 w0 = (r, w') /\
     r <> OutOfFuel /\
     Z.of_nat (polls w') - Z.of_nat (polls w0) <= 3 / 1 + 1) /\
  (forall fuel,
     fst (_wait_for_stable_count growing_env fuel src_sql 60 0 3 w0)
     = OutOfFuel).
Proof.
  destruct (gate_ends_iff_interval_positive growing_env src_sql 60 3 w0)
    as [Hpos Hzero].
  split.
  - destruct (Hpos 1 5%nat) as (r & w' & Hr & Hne & Hb & _).
    + lia.
    + vm_compute. lia.
    + exists r, w'. split; [exact Hr|]. split; [exact Hne|]. apply Hb. lia.
  - apply Hzero.
    + lia.
    + intros i. discriminate.
    + intros i c c' H1 H2. cbn in H1, H2.
      injection H1 as <-. injection H2 as <-. lia.
Defined.

(** Four rows in batches of two, the second insert failing: the
    row-by-row loop leaves the first batch committed, a single writer
    call leaves it in the open transaction. *)
Lemma second_insert_fails :
  (exists r w',
     fetchone_loop failing_env manager dst_sql 2 (numbered_rows 4) false
                   [] 0 0 w0 = (r, w') /\
     committed w' = [[[VInt 0]; [VInt 1]]] /\ uncommitted w' = []) /\
  (exists r w',
     _mssql_execmany failing_env dst_sql (gen_of_list (numbered_rows 4)) 2
                     true true w0 = (r, w') /\
     committed w' = [] /\ uncommitted w' = [[[VInt 0]; [VInt 1]]]).
Proof.
  destruct (commit_granularity failing_env manager dst_sql 2
              (numbered_rows 4) false (gen_of_list (numbered_rows 4)) w0)
    as [(r & w' & Hr & Hun & Hcm & _) (r2 & w2 & Hr2 & Hcase)].
  - lia.
  - reflexivity.
  - split.
    + exists r, w'. split; [exact Hr|]. split; [rewrite Hcm; reflexivity|exact Hun].
    + exists r2, w2. split; [exact Hr2|].
      destruct Hcase as [([total Hok] & _)|(_ & Hcm2 & Hun2)].
      * exfalso. vm_compute in Hr2. rewrite Hok in Hr2. discriminate.
      * split; [exact Hcm2|rewrite Hun2; reflexivity].
Defined.

(** C3, the claim as stated: in the streaming and in the fetch-all
    strategy a failure of the second insert leaves the first batch,
    whose insert had succeeded, uncommitted. *)
Lemma later_failure_leaves_nothing_committed :
  let streamed := transfer failing_env 70 manager src_sql dst_sql
                           10 5000 2 2 1 600 w0 in
  let fetched := transfer_fetchall failing_env 70 manager src_sql dst_sql
                                   10 2 2 1 600 w0 in
  driver failing_env 0 [[VInt 0]; [VInt 1]] = Rowcount (Some (-1)) /\
  fst streamed = Raise PyodbcError /\
  uncommitted (snd streamed) = [[[VInt 0]; [VInt 1]]] /\
  committed (snd streamed) = [] /\
  ~ In DstCommit (trace (snd streamed)) /\
  fst fetched = Raise PyodbcError /\
  uncommitted (snd fetched) = [[[VInt 0]; [VInt 1]]] /\
  committed (snd fetched) = [] /\
  ~ In DstCommit (trace (snd fetched)).
Proof.
  vm_compute. repeat split;
    intros H; repeat (destruct H as [H|H]; [discriminate H|]); contradiction.
Qed.

(** C4 (as the code has it).  What is credited to a batch is the
    driver's report itself whenever that report is non-negative, however
    it compares with the number of rows submitted, and the number of rows
    submitted when the report is negative or absent.  This is so for the
    bookkeeping of every [executemany] call (in the loop and for the final
    batch) and is what a writer call on that one batch returns.  Hence
    the credited count stays within the batch exactly when the report
    does: a larger report is credited as reported, not clamped. *)
Theorem credited_is_the_report_unclamped
    (E : env) (insert_sql : string) (buf : list Row) (fast verify : bool)
    (rc : option Z) (w : world) :
  buf <> [] ->
  driver E (calls w) buf = Rowcount rc ->
  exists total,
    (forall final, exists w1,
       execute_batch E insert_sql verify final buf w = (Ok total, w1)) /\
    (exists w',
       _mssql_execmany E insert_sql (gen_of_list buf)
         (Z.of_nat (List.length buf)) fast verify w = (Ok total, w') /\
       committed w' = committed w ++ uncommitted w ++ [buf]) /\
    (forall n, rc = Some n -> 0 <= n -> total = n) /\
    ((forall n, rc = Some n -> n < 0) ->
     total = Z.of_nat (List.length buf)) /\
    (total <= Z.of_nat (List.length buf) <->
     forall n, rc = Some n -> n <= Z.of_nat (List.length buf)).
Proof.
  intros Hne Hd. exists (credited rc buf).
  repeat match goal with |- _ /\ _ => split end.
  - intros final.
    destruct (execute_batch_spec E insert_sql verify final buf w)
      as (w1 & Hx & _).
    rewrite Hd in Hx. destruct Hx as [Hx _]. now exists w1.
  - destruct (execmany_spec E insert_sql (Z.of_nat (List.length buf)) verify
                (gen_of_list buf) fast w) as (r & w' & Hrun & _ & Hok & _).
    cbn zeta in Hok. rewrite rows_of_gen_of_list in Hok.
    unfold batches in Hok. rewrite fill_exact in Hok.
    + cbn [fst snd final_batch app accepted credits List.length] in Hok.
      rewrite Hd in Hok. cbn [reported] in Hok.
      destruct (Hok (ending_gen_of_list buf) eq_refl) as (-> & Hcm & _).
      exists w'. rewrite Z.add_0_r in Hrun. split; [exact Hrun|exact Hcm].
    + destruct buf; [now elim Hne|cbn [List.length]; lia].
    + reflexivity.
  - intros n -> Hn. unfold credited.
    destruct (Z.leb_spec 0 n); [reflexivity|lia].
  - intros Hneg. unfold credited. destruct rc as [n|]; [|reflexivity].
    specialize (Hneg n eq_refl). destruct (Z.leb_spec 0 n); [lia|reflexivity].
  - unfold credited. destruct rc as [n|].
    + destruct (Z.leb_spec 0 n); split.
      * intros Hle m Hm. injection Hm as <-. exact Hle.
      * intros Hle. exact (Hle n eq_refl).
      * intros _ m Hm. injection Hm as <-. lia.
      * intros _. lia.
    + split; [intros _ m Hm; discriminate Hm|intros _; lia].
Qed.

(** A report of 7 rows for a batch of 5: the writer returns 7. *)
Lemma report_above_batch_is_credited :
  exists w',
    _mssql_execmany trigger_env dst_sql (gen_of_list (numbered_rows 5)) 5
                    true true w0 = (Ok 7, w') /\
    committed w' = [numbered_rows 5].
Proof.
  destruct (credited_is_the_report_unclamped trigger_env dst_sql
              (numbered_rows 5) true true (Some 7) w0)
    as (total & _ & (w' & Hrun & Hcm) & Hrep & _).
  - discriminate.
  - reflexivity.
  - rewrite (Hrep 7 eq_refl ltac:(lia)) in Hrun.
    exists w'. split; [exact Hrun|exact Hcm].
Defined.

(** C4, the claim as stated: a driver that reports 7 rows for a batch of
    5 gets 7 credited. *)
Lemma trigger_rowcount_exceeds_batch :
  let run := _mssql_execmany trigger_env dst_sql
               (gen_of_list (numbered_rows 5)) 5 true true w0 in
  fst run = Ok 7 /\
  committed (snd run) = [numbered_rows 5] /\
  credited (Some 7) (numbered_rows 5) = 7 /\
  ~ (credited (Some 7) (numbered_rows 5)
     <= Z.of_nat (List.length (numbered_rows 5))).
Proof.
  vm_compute. repeat split. intros H. now apply H.
Qed.

(** A templated select statement is rejected by the three entry points
    before they do anything. *)
Lemma placeholder_rejected_example :
  let err := ValueError
               ("Unresolved placeholder in select_sql: " ++ templated_sql)%string in
  transfer small_env 70 manager templated_sql dst_sql 10 5000 1000 60 1 600 w0
    = (Raise err, w0) /\
  transfer_fetchall small_env 70 manager templated_sql dst_sql 10 1000 60 1 600 w0
    = (Raise err, w0) /\
  transfer_fetchone small_env 70 manager templated_sql dst_sql 10 1000 60 1 600 w0
    = (Raise err, w0).
Proof.
  apply (placeholder_rejected_first small_env 70 manager templated_sql dst_sql
           10 5000 1000 60 1 600 w0).
  vm_compute. reflexivity.
Defined.

(** C6, the claim as stated: by the time an entry point can reject the
    statement, the constructor has opened a source connection, run
    session statements on it and opened the destination connection. *)
Lemma placeholder_after_construction :
  let run :=
    (this <- __init__ small_env "mysqlconnector" true true true ;;
     transfer small_env 70 this templated_sql dst_sql 10 5000 1000 60 1 600) w0 in
  fst run
  = Raise (ValueError
             ("Unresolved placeholder in select_sql: " ++ templated_sql)%string) /\
  In SrcConnect (trace (snd run)) /\
  In (SrcExec "SET SESSION TRANSACTION ISOLATION LEVEL READ COMMITTED")
     (trace (snd run)) /\
  In DstConnect (trace (snd run)).
Proof.
  vm_compute. repeat split; find_event.
Qed.


(** Five rows in batches of two with a driver that reports -1: five rows
    counted. *)
Lemma silent_driver_example :
  exists w',
    _mssql_execmany small_env dst_sql (gen_of_list (numbered_rows 5)) 2
                    true true w0 = (Ok 5, w') /\
    committed w' = batches 2 (numbered_rows 5).
Proof.
  destruct (fallback_to_buffer_length small_env dst_sql 2 true true
              (gen_of_list (numbered_rows 5)) w0)
    as [(w' & Hr & Hcm & Hneg) _].
  - reflexivity.
  - intros i b. discriminate.
  - exists w'. rewrite Hneg in Hr.
    + split; [exact Hr|]. rewrite Hcm. reflexivity.
    + intros i b. exists (Some (-1)). split; [reflexivity|].
      intros n H. injection H as <-. lia.
Defined.

(** The whole streaming transfer on the failing preview: four rows
    inserted, the warning in the log. *)
Example failed_preview_transfer :
  fst (transfer preview_fails_env 70 manager src_sql dst_sql
                10 5000 2 2 1 600 w0) = Ok 4.
Proof. reflexivity. Qed.

(** Scenario A through the whole streaming entry point: the count is
    stable at 2,500, the transfer returns 2,500 and leaves five committed
    batches of 500 rows. *)
Example scenario_A_transfer :
  let run := transfer scenario_A_env 70 manager src_sql dst_sql
                      10 1000 500 60 1 600 w0 in
  fst run = Ok 2500 /\
  map (@List.length Row) (committed (snd run)) = [500; 500; 500; 500; 500]%nat /\
  List.concat (committed (snd run)) = numbered_rows 2500.
Proof. vm_compute. repeat split. Qed.

(** * Further properties of the module *)

(** ** The string helpers *)

Lemma rstrip_spec (p : ascii -> bool) (s : string) :
  exists junk,
    s = (rstrip p s ++ junk)%string /\
    all_chars p junk = true /\
    match last_char (rstrip p s) with
    | Some c => p c = false
    | None => True
    end.
Proof.
  induction s as [|c s IH].
  - exists EmptyString. repeat split.
  - destruct IH as (junk & Hs & Hjunk & Hlast). cbn [rstrip].
    destruct (rstrip p s) as [|d t] eqn:Hr.
    + cbn [append] in Hs. subst junk.
      destruct (p c) eqn:Hc.
      * exists (String c s). cbn. rewrite Hc, Hjunk. repeat split.
      * exists s. cbn. repeat split; assumption.
    + exists junk. cbn [append]. split; [now rewrite Hs at 1|].
      split; [exact Hjunk|exact Hlast].
Qed.

Lemma rstrip_fixed (p : ascii -> bool) (s : string) :
  match last_char s with
  | Some c => p c = false
  | None => True
  end ->
  rstrip p s = s.
Proof.
  induction s as [|c s IH]; [reflexivity|].
  intros Hlast. cbn [rstrip]. destruct s as [|d t].
  - cbn in *. now rewrite Hlast.
  - rewrite IH by exact Hlast. reflexivity.
Qed.

Lemma all_chars_app (p : ascii -> bool) (a b : string) :
  all_chars p (a ++ b)%string = (all_chars p a && all_chars p b)%bool.
Proof.
  induction a as [|c a IH]; [reflexivity|].
  cbn. now rewrite IH, andb_assoc.
Qed.

Lemma all_chars_weaken (p q : ascii -> bool) (s : string) :
  (forall c, p c = true -> q c = true) ->
  all_chars p s = true -> all_chars q s = true.
Proof.
  intros Hpq. induction s as [|c s IH]; [reflexivity|].
  cbn. intros H. apply andb_true_iff in H as [Hc Hs].
  now rewrite (Hpq c Hc), IH.
Qed.

Lemma append_assoc (a b c : string) :
  ((a ++ b) ++ c = a ++ (b ++ c))%string.
Proof. induction a as [|x a IH]; [reflexivity|]. cbn. now rewrite IH. Qed.

(** X1.  [_strip_semicolon] removes a suffix made only of whitespace and
    semicolons, and what it returns never ends with a semicolon; a
    statement that ends with neither whitespace nor a semicolon is
    returned unchanged. *)
Theorem strip_semicolon_spec (sql : string) :
  (exists junk,
     sql = (_strip_semicolon sql ++ junk)%string /\
     all_chars (fun c => is_space c || is_semicolon c)%bool junk = true) /\
  last_char (_strip_semicolon sql) <> Some ";"%char /\
  (match last_char sql with
   | Some c => is_space c = false /\ is_semicolon c = false
   | None => True
   end -> _strip_semicolon sql = sql).
Proof.
  unfold _strip_semicolon. split; [|split].
  - destruct (rstrip_spec is_space sql) as (j1 & H1 & Hj1 & _).
    destruct (rstrip_spec is_semicolon (rstrip is_space sql)) as (j2 & H2 & Hj2 & _).
    exists (j2 ++ j1)%string. split.
    + rewrite <- append_assoc, <- H2. exact H1.
    + rewrite all_chars_app. apply andb_true_iff. split.
      * apply (all_chars_weaken is_semicolon); [|exact Hj2].
        intros c Hc. rewrite Hc. apply orb_true_r.
      * apply (all_chars_weaken is_space); [|exact Hj1].
        intros c Hc. now rewrite Hc.
  - destruct (rstrip_spec is_semicolon (rstrip is_space sql)) as (_ & _ & _ & Hlast).
    destruct (last_char _) as [c|]; [|discriminate].
    intros Heq. injection Heq as ->. discriminate.
  - intros Hlast.
    assert (H1 : rstrip is_space sql = sql).
    { apply rstrip_fixed. destruct (last_char sql); tauto. }
    rewrite H1. apply rstrip_fixed. destruct (last_char sql); tauto.
Qed.

Lemma strip_semicolon_spec_example :
  _strip_semicolon "SELECT id FROM src" = "SELECT id FROM src".
Proof.
  apply (strip_semicolon_spec "SELECT id FROM src").
  vm_compute. split; reflexivity.
Defined.

Lemma prefix_spec (a b : string) :
  String.prefix a b = true <-> exists t, b = (a ++ t)%string.
Proof.
  revert b. induction a as [|x a IH]; intros b.
  - split; [intros _; now exists b|intros _; destruct b; reflexivity].
  - destruct b as [|y b]; cbn.
    + split; [discriminate|intros [t Ht]; discriminate].
    + destruct (ascii_dec x y) as [->|Hxy].
      * rewrite IH. split; intros [t Ht]; exists t; congruence.
      * split; [discriminate|intros [t Ht]; congruence].
Qed.

(** Python's [in] on strings is the substring relation. *)
Lemma contains_spec (needle hay : string) :
  contains needle hay = true <->
  exists a b, hay = (a ++ needle ++ b)%string.
Proof.
  split.
  - induction hay as [|c hay IH]; cbn [contains].
    + destruct (String.prefix needle "") eqn:Hp; [|discriminate].
      intros _. apply prefix_spec in Hp as [t Ht]. now exists EmptyString, t.
    + destruct (String.prefix needle (String c hay)) eqn:Hp.
      * intros _. apply prefix_spec in Hp as [t Ht]. now exists EmptyString, t.
      * intros H. destruct (IH H) as (a & b & ->). now exists (String c a), b.
  - intros (a & b & ->). induction a as [|c a IH].
    + assert (Hp : String.prefix needle (needle ++ b) = true)
        by (apply prefix_spec; now exists b).
      cbn [append]. destruct (needle ++ b)%string; cbn [contains]; now rewrite Hp.
    + cbn [append contains]. rewrite IH. now destruct (String.prefix needle _).
Qed.

Lemma appends_begins_nil {A} (m : M A) : appends m -> begins [] m.
Proof. intros H w r w' Hr. destruct (H _ _ _ Hr) as [t Ht]. now exists t. Qed.

Lemma begins_with_connection {A} (body : M A) :
  appends body -> begins [SrcConnect] (with_connection body).
Proof.
  intros H. unfold with_connection. apply begins_emit_then.
  apply appends_begins_nil. apply appends_finally; auto with trace_db.
Qed.

Lemma appends_ensure (E : env) : appends (_ensure_mysql_fresh_session E).
Proof.
  unfold _ensure_mysql_fresh_session. apply appends_with_connection.
  appends_auto.
Qed.

Lemma appends_preview_rows (E : env) (select_sql : string) (n : Z) :
  appends (_preview_rows E select_sql n).
Proof.
  unfold _preview_rows. apply appends_with_connection. appends_auto.
Qed.

Lemma appends_peek (E : env) (select_sql : string) (n : Z) :
  appends (peek E select_sql n).
Proof.
  unfold peek. apply appends_catch; [|intros; appends_auto].
  apply appends_bind; [apply appends_preview_rows|intros; appends_auto].
Qed.

Lemma appends_is_read_only (E : env) : appends (_mysql_is_read_only E).
Proof.
  unfold _mysql_is_read_only. apply appends_with_connection. appends_auto.
Qed.

#[local] Hint Resolve appends_ensure appends_preview_rows appends_peek
  appends_is_read_only : trace_db.

Lemma appends_transfer (E : env) (fuel : nat) (this : self)
    (select_sql insert_sql : string)
    (preview_rows chunk_size batch_size stable_for interval max_wait : Z) :
  appends (transfer E fuel this select_sql insert_sql preview_rows chunk_size
                    batch_size stable_for interval max_wait).
Proof.
  unfold transfer, unresolved_placeholder, logged.
  destruct (contains "|||" select_sql); [auto with trace_db|].
  repeat (apply appends_bind; [solve [auto with trace_db]|intros]).
  apply appends_bind.
  - apply appends_catch; [|intros; appends_auto].
    apply appends_with_connection. unfold open_stable_session. appends_auto.
  - intros [expected total]. appends_auto.
Qed.

Lemma appends_transfer_fetchall (E : env) (fuel : nat) (this : self)
    (select_sql insert_sql : string)
    (preview_rows batch_size stable_for interval max_wait : Z) :
  appends (transfer_fetchall E fuel this select_sql insert_sql preview_rows
                             batch_size stable_for interval max_wait).
Proof.
  unfold transfer_fetchall, unresolved_placeholder, logged.
  destruct (contains "|||" select_sql); [auto with trace_db|].
  repeat (apply appends_bind; [solve [auto with trace_db]|intros]).
  apply appends_bind.
  - apply appends_catch; [|intros; appends_auto].
    apply appends_with_connection. unfold open_stable_session. appends_auto.
  - intros [expected rows]. appends_auto.
Qed.

Lemma appends_transfer_fetchone (E : env) (fuel : nat) (this : self)
    (select_sql insert_sql : string)
    (preview_rows batch_size stable_for interval max_wait : Z) :
  appends (transfer_fetchone E fuel this select_sql insert_sql preview_rows
                             batch_size stable_for interval max_wait).
Proof.
  unfold transfer_fetchone, unresolved_placeholder, logged.
  destruct (contains "|||" select_sql); [auto with trace_db|].
  repeat (apply appends_bind; [solve [auto with trace_db]|intros]).
  apply appends_bind.
  - apply appends_catch; [|intros; appends_auto].
    apply appends_with_connection. unfold open_stable_session.
    appends_auto.
  - intros [[expected total] fetched]. appends_auto.
Qed.

Lemma begins_ensure (E : env) :
  begins [SrcConnect] (_ensure_mysql_fresh_session E).
Proof.
  unfold _ensure_mysql_fresh_session. apply begins_with_connection.
  appends_auto.
Qed.

(** A statement without placeholder gets past the check, and the first
    thing each entry point then does is take a source connection. *)
Lemma entry_points_begin_with_connect (E : env) (fuel : nat) (this : self)
    (select_sql insert_sql : string)
    (preview_rows chunk_size batch_size stable_for interval max_wait : Z) :
  contains "|||" select_sql = false ->
  begins [SrcConnect]
    (transfer E fuel this select_sql insert_sql preview_rows chunk_size
              batch_size stable_for interval max_wait) /\
  begins [SrcConnect]
    (transfer_fetchall E fuel this select_sql insert_sql preview_rows
              batch_size stable_for interval max_wait) /\
  begins [SrcConnect]
    (transfer_fetchone E fuel this select_sql insert_sql preview_rows
              batch_size stable_for interval max_wait).
Proof.
  intros Hsel. unfold transfer, transfer_fetchall, transfer_fetchone, logged.
  rewrite Hsel. repeat split.
  - apply begins_bind; [apply begins_ensure|intros].
    repeat (apply appends_bind; [solve [auto with trace_db]|intros]).
    apply appends_bind.
    + apply appends_catch; [|intros; appends_auto].
      apply appends_with_connection. unfold open_stable_session. appends_auto.
    + intros [expected total]. appends_auto.
  - apply begins_bind; [apply begins_ensure|intros].
    repeat (apply appends_bind; [solve [auto with trace_db]|intros]).
    apply appends_bind.
    + apply appends_catch; [|intros; appends_auto].
      apply appends_with_connection. unfold open_stable_session. appends_auto.
    + intros [expected rows]. appends_auto.
  - apply begins_bind; [apply begins_ensure|intros].
    repeat (apply appends_bind; [solve [auto with trace_db]|intros]).
    apply appends_bind.
    + apply appends_catch; [|intros; appends_auto].
      apply appends_with_connection. unfold open_stable_session.
      appends_auto.
    + intros [[expected total] fetched]. appends_auto.
Qed.

Lemma trace_not_extended (w : world) (ev : event) (t : list event) :
  trace w <> trace w ++ ev :: t.
Proof.
  intros H. apply (f_equal (@List.length event)) in H.
  rewrite length_app in H. cbn in H. lia.
Qed.

(** X2.  Each entry point rejects exactly the select statements that
    have [|||] somewhere inside: such a statement makes the call raise
    with the world untouched, and for any other statement the call does
    not end without having taken a source connection. *)
Theorem placeholder_check_exact
    (E : env) (fuel : nat) (this : self) (select_sql insert_sql : string)
    (preview_rows chunk_size batch_size stable_for interval max_wait : Z)
    (w : world) :
  ((exists a b, select_sql = (a ++ "|||" ++ b)%string) <->
   exists e, transfer E fuel this select_sql insert_sql preview_rows
               chunk_size batch_size stable_for interval max_wait w
             = (Raise e, w)) /\
  ((exists a b, select_sql = (a ++ "|||" ++ b)%string) <->
   exists e, transfer_fetchall E fuel this select_sql insert_sql preview_rows
               batch_size stable_for interval max_wait w
             = (Raise e, w)) /\
  ((exists a b, select_sql = (a ++ "|||" ++ b)%string) <->
   exists e, transfer_fetchone E fuel this select_sql insert_sql preview_rows
               batch_size stable_for interval max_wait w
             = (Raise e, w)).
Proof.
  rewrite <- contains_spec.
  destruct (contains "|||" select_sql) eqn:Hsel.
  - unfold transfer, transfer_fetchall, transfer_fetchone. rewrite Hsel.
    repeat split; intros _; trivial; eexists; reflexivity.
  - destruct (entry_points_begin_with_connect E fuel this select_sql insert_sql
                preview_rows chunk_size batch_size stable_for interval max_wait
                Hsel) as (H1 & H2 & H3).
    repeat split; try discriminate; intros [e He]; exfalso.
    + destruct (H1 _ _ _ He) as [t Ht]. exact (trace_not_extended _ _ _ Ht).
    + destruct (H2 _ _ _ He) as [t Ht]. exact (trace_not_extended _ _ _ Ht).
    + destruct (H3 _ _ _ He) as [t Ht]. exact (trace_not_extended _ _ _ Ht).
Qed.

(** ** More on the stability gate *)

(** What the loop hands back, in terms of the polls it made. *)
Lemma poll_loop_exit (E : env) (wrapped_sql : string)
    (stable_for interval max_wait : Z) (fuel : nat) :
  forall last same_for waited w x w',
    poll_loop E fuel wrapped_sql stable_for interval max_wait
              last same_for waited w = (Ok x, w') ->
    match x with
    | Stabilized V =>
        (polls w < polls w')%nat /\
        counts E (polls w' - 1) = Some V /\
        (polls w' = S (polls w) -> last = Some V) /\
        (S (polls w) < polls w' -> counts E (polls w' - 2) = Some V)%nat
    | TimedOut l =>
        (polls w <= polls w')%nat /\
        (polls w' = polls w -> l = last /\ w' = w) /\
        (polls w < polls w' -> l = counts E (polls w' - 1))%nat
    end.
Proof.
  induction fuel as [|fuel IH]; intros last same_for waited w x w' H.
  - discriminate.
  - rewrite poll_loop_S in H.
    destruct (waited <=? max_wait).
    + destruct (counts E (polls w)) as [cnt|] eqn:Hc; [|discriminate].
      assert (Hstep : forall last' same',
                (last' = Some cnt) ->
                poll_loop E fuel wrapped_sql stable_for interval max_wait
                  last' same' (waited + interval)
                  (slept interval (polled
                     ("SELECT COUNT(*) FROM (" ++ wrapped_sql ++ ") subq")%string
                     w)) = (Ok x, w') ->
                match x with
                | Stabilized V =>
                    (polls w < polls w')%nat /\
                    counts E (polls w' - 1) = Some V /\
                    (polls w' = S (polls w) -> last = Some V) /\
                    (S (polls w) < polls w' -> counts E (polls w' - 2) = Some V)%nat
                | TimedOut l =>
                    (polls w <= polls w')%nat /\
                    (polls w' = polls w -> l = last /\ w' = w) /\
                    (polls w < polls w' -> l = counts E (polls w' - 1))%nat
                end).
      { intros last' same' Hl Hrec. apply IH in Hrec.
        cbn [slept polled polls] in Hrec. destruct x as [V|l].
        - destruct Hrec as (Hlt & Hlast & Hone & Htwo).
          split; [lia|]. split; [exact Hlast|]. split; [lia|].
          intros Hgt. destruct (Nat.eq_dec (polls w') (S (S (polls w)))) as [He|He].
          + rewrite He. replace (S (S (polls w)) - 2)%nat with (polls w) by lia.
            rewrite Hc. rewrite <- Hl. apply Hone. exact He.
          + apply Htwo. lia.
        - destruct Hrec as (Hle & Hsame & Hmore).
          split; [lia|]. split; [lia|].
          intros Hgt. destruct (Nat.eq_dec (polls w') (S (polls w))) as [He|He].
          + destruct (Hsame He) as [-> _]. rewrite He.
            replace (S (polls w) - 1)%nat with (polls w) by lia. congruence.
          + apply Hmore. lia. }
      destruct (same_as_last cnt last) eqn:Hsl.
      * apply same_as_last_true in Hsl.
        destruct (stable_for <=? same_for + interval).
        -- injection H as <- <-. cbn [polled polls].
           replace (S (polls w) - 1)%nat with (polls w) by lia.
           repeat split; try lia; congruence.
        -- destruct (interval <? 0); [discriminate|].
           exact (Hstep last (same_for + interval) Hsl H).
      * destruct (interval <? 0); [discriminate|].
        exact (Hstep (Some cnt) 0 eq_refl H).
    + injection H as <- <-. repeat split; lia.
Qed.

(** X3.  Whatever count the gate returns is the count of the last poll
    it made; it returns without having polled only when [max_wait] is
    negative, and then returns 0. *)
Theorem gate_returns_latest_sample
    (E : env) (fuel : nat) (wrapped_sql : string)
    (stable_for interval max_wait : Z) (w w' : world) (v : Z) :
  _wait_for_stable_count E fuel wrapped_sql stable_for interval max_wait w
    = (Ok v, w') ->
  (polls w <= polls w')%nat /\
  (polls w < polls w' -> counts E (polls w' - 1) = Some v)%nat /\
  (polls w' = polls w -> v = 0 /\ max_wait < 0).
Proof.
  rewrite gate_unfold. intros H.
  destruct (poll_loop E fuel wrapped_sql stable_for interval max_wait
              None 0 0 w) as [[[V|l]|e|] w1] eqn:Hloop; try discriminate.
  - injection H as <- <-. apply poll_loop_exit in Hloop.
    destruct Hloop as (Hlt & Hlast & _).
    split; [lia|]. split; [intros _; exact Hlast|intros; lia].
  - injection H as <- <-. cbn [polls].
    pose proof (poll_loop_exit _ _ _ _ _ _ _ _ _ _ _ _ Hloop) as (Hle & Hsame & Hmore).
    split; [exact Hle|]. split.
    + intros Hlt. rewrite <- (Hmore Hlt). destruct l as [c|]; [reflexivity|].
      pose proof (timed_out_without_sample _ _ _ _ _ _ _ _ _ _ _ Hloop)
        as (_ & -> & _). lia.
    + intros He. destruct (Hsame He) as [-> ->].
      pose proof (timed_out_without_sample _ _ _ _ _ _ _ _ _ _ _ Hloop)
        as (_ & _ & Hneg). split; [reflexivity|lia].
Qed.

Lemma gate_returns_latest_sample_example :
  counts scenario_B_env 4 = Some 15.
Proof.
  destruct (gate_returns_latest_sample scenario_B_env 5 src_sql 2 1 600 w0
              (snd (_wait_for_stable_count scenario_B_env 5 src_sql 2 1 600 w0))
              15) as (_ & Hlast & _).
  - vm_compute. reflexivity.
  - apply Hlast. vm_compute. lia.
Defined.

(** X4.  The loop reports a stable count only after two consecutive
    polls gave that count, whatever the window: with a window of zero
    or less a single sample is still not enough. *)
Theorem stabilized_needs_two_equal_polls
    (E : env) (fuel : nat) (wrapped_sql : string)
    (stable_for interval max_wait : Z) (w w' : world) (V : Z) :
  poll_loop E fuel wrapped_sql stable_for interval max_wait None 0 0 w
    = (Ok (Stabilized V), w') ->
  (polls w + 2 <= polls w')%nat /\
  counts E (polls w' - 1) = Some V /\
  counts E (polls w' - 2) = Some V.
Proof.
  intros H. apply poll_loop_exit in H. destruct H as (Hlt & Hlast & Hone & Htwo).
  assert (Hne : polls w' <> S (polls w)).
  { intros He. specialize (Hone He). discriminate. }
  repeat split; [lia|exact Hlast|apply Htwo; lia].
Qed.

Lemma stabilized_needs_two_equal_polls_example :
  counts scenario_B_env 3 = Some 15 /\ counts scenario_B_env 2 = Some 15.
Proof.
  destruct (stabilized_needs_two_equal_polls scenario_B_env 5 src_sql 0 1 600
              w0 (snd (poll_loop scenario_B_env 5 src_sql 0 1 600 None 0 0 w0))
              15) as (_ & H1 & H2).
  - vm_compute. reflexivity.
  - split; [exact H1|exact H2].
Defined.

(** X5.  A negative poll interval is not rejected up front: the gate
    makes its first COUNT query and then raises [ValueError] from the
    sleep, whatever the count was. *)
Theorem negative_interval_raises_after_first_poll
    (E : env) (fuel : nat) (wrapped_sql : string)
    (stable_for interval max_wait : Z) (w : world) (cnt : Z) :
  interval < 0 -> 0 <= max_wait ->
  counts E (polls w) = Some cnt ->
  _wait_for_stable_count E (S fuel) wrapped_sql stable_for interval max_wait w
  = (Raise (ValueError "sleep length must be non-negative"),
     polled ("SELECT COUNT(*) FROM (" ++ wrapped_sql ++ ") subq")%string w).
Proof.
  intros Hi Hm Hc. rewrite gate_unfold, poll_loop_S.
  destruct (Z.leb_spec 0 max_wait); [|lia].
  rewrite Hc. cbn [same_as_last].
  destruct (Z.ltb_spec interval 0); [reflexivity|lia].
Qed.

Lemma negative_interval_example :
  _wait_for_stable_count small_env 10 src_sql 60 (-1) 600 w0
  = (Raise (ValueError "sleep length must be non-negative"),
     polled ("SELECT COUNT(*) FROM (" ++ src_sql ++ ") subq")%string w0).
Proof.
  apply (negative_interval_raises_after_first_poll small_env 9 src_sql 60 (-1)
           600 w0 4).
  - lia.
  - lia.
  - reflexivity.
Defined.

(** X6.  With a negative [max_wait] the gate makes no query at all: it
    logs the timeout warning and returns 0 as the expected count. *)
Theorem negative_max_wait_returns_zero
    (E : env) (fuel : nat) (wrapped_sql : string)
    (stable_for interval max_wait : Z) (w : world) :
  max_wait < 0 ->
  _wait_for_stable_count E (S fuel) wrapped_sql stable_for interval max_wait w
  = (Ok 0, mkWorld (trace w ++ [LogWarning (WStableTimeout None)])
                   (polls w) (calls w) (uncommitted w) (committed w)).
Proof.
  intros Hm. rewrite gate_unfold, poll_loop_S.
  destruct (Z.leb_spec 0 max_wait); [lia|reflexivity].
Qed.

Lemma negative_max_wait_example :
  fst (_wait_for_stable_count small_env 10 src_sql 60 1 (-5) w0) = Ok 0.
Proof.
  rewrite (negative_max_wait_returns_zero small_env 9 src_sql 60 1 (-5) w0).
  - reflexivity.
  - lia.
Defined.

(** X7.  A COUNT query that raises while the gate is still polling ends
    the gate with that exception: the gate neither retries nor falls
    back to the last count it saw. *)
Theorem count_failure_propagates
    (E : env) (wrapped_sql : string) (stable_for interval max_wait : Z)
    (k fuel : nat) (w : world) :
  0 < interval ->
  Z.of_nat k * interval <= max_wait ->
  fst (_wait_for_stable_count E k wrapped_sql stable_for interval max_wait w)
    = OutOfFuel ->
  counts E (polls w + k) = None ->
  (k < fuel)%nat ->
  exists w',
    _wait_for_stable_count E fuel wrapped_sql stable_for interval max_wait w
      = (Raise DBAPIError, w') /\
    polls w' = (polls w + k + 1)%nat.
Proof.
  intros Hi Hmax Hout Hnone Hfuel.
  assert (Hout' : fst (poll_loop E k wrapped_sql stable_for interval max_wait
                         None 0 0 w) = OutOfFuel).
  { rewrite gate_unfold in Hout.
    destruct (poll_loop E k wrapped_sql stable_for interval max_wait None 0 0 w)
      as [[[cnt|last]|e|] w1]; try discriminate. reflexivity. }
  destruct (prefix_running E wrapped_sql stable_for interval max_wait k Hi
              None 0 0 w ltac:(lia) Hout')
    as (last' & same' & w1 & _ & Hp & _ & Hm).
  rewrite gate_unfold. replace fuel with (k + S (fuel - k - 1))%nat by lia.
  rewrite Hm, poll_loop_S.
  destruct (Z.leb_spec (0 + Z.of_nat k * interval) max_wait); [|lia].
  rewrite Hp, Hnone. eexists. split; [reflexivity|]. cbn [polled polls]. lia.
Qed.

Lemma count_failure_example :
  exists w',
    _wait_for_stable_count count_fails_env 10 src_sql 60 1 600 w0
      = (Raise DBAPIError, w') /\
    polls w' = 3%nat.
Proof.
  apply (count_failure_propagates count_fails_env src_sql 60 1 600 2 10 w0).
  - lia.
  - lia.
  - vm_compute. reflexivity.
  - reflexivity.
  - lia.
Defined.

(** ** What a computation emits and what it leaves alone *)

Lemma emits_ret (P : event -> Prop) {A} (a : A) : emits P (ret a).
Proof. intros w r w' H. inversion H. exists []. now rewrite app_nil_r. Qed.

Lemma emits_raise (P : event -> Prop) {A} (e : exn) : emits P (@raise A e).
Proof. intros w r w' H. inversion H. exists []. now rewrite app_nil_r. Qed.

Lemma emits_fuel (P : event -> Prop) {A} : emits P (@out_of_fuel A).
Proof. intros w r w' H. inversion H. exists []. now rewrite app_nil_r. Qed.

Lemma emits_emit (P : event -> Prop) (ev : event) : P ev -> emits P (emit ev).
Proof. intros Hp w r w' H. inversion H. exists [ev]. split; [reflexivity|auto]. Qed.

Lemma emits_bind (P : event -> Prop) {A B} (m : M A) (k : A -> M B) :
  emits P m -> (forall a, emits P (k a)) -> emits P (bind m k).
Proof.
  intros Hm Hk w r w' H. unfold bind in H.
  destruct (m w) as [[a|e|] w1] eqn:Hmw; destruct (Hm _ _ _ Hmw) as (t1 & Ht1 & Hp1).
  - destruct (Hk a _ _ _ H) as (t2 & Ht2 & Hp2). exists (t1 ++ t2).
    split; [now rewrite Ht2, Ht1, app_assoc|now apply Forall_app].
  - inversion H; subst. eauto.
  - inversion H; subst. eauto.
Qed.

Lemma emits_catch (P : event -> Prop) {A} (m : M A) (h : exn -> M A) :
  emits P m -> (forall e, emits P (h e)) -> emits P (catch m h).
Proof.
  intros Hm Hh w r w' H. unfold catch in H.
  destruct (m w) as [[a|e|] w1] eqn:Hmw; destruct (Hm _ _ _ Hmw) as (t1 & Ht1 & Hp1).
  - inversion H; subst. eauto.
  - destruct (Hh e _ _ _ H) as (t2 & Ht2 & Hp2). exists (t1 ++ t2).
    split; [now rewrite Ht2, Ht1, app_assoc|now apply Forall_app].
  - inversion H; subst. eauto.
Qed.

Lemma emits_finally (P : event -> Prop) {A} (m : M A) (f : M unit) :
  emits P m -> emits P f -> emits P (finally m f).
Proof.
  intros Hm Hf w r w' H. unfold finally in H.
  destruct (m w) as [[a|e|] w1] eqn:Hmw; destruct (Hm _ _ _ Hmw) as (t1 & Ht1 & Hp1).
  - destruct (emits_bind P f (fun _ => ret a) Hf (fun _ => emits_ret P a) _ _ _ H)
      as (t2 & Ht2 & Hp2).
    exists (t1 ++ t2). split; [now rewrite Ht2, Ht1, app_assoc|now apply Forall_app].
  - destruct (emits_bind P f (fun _ => raise e) Hf (fun _ => emits_raise P e) _ _ _ H)
      as (t2 & Ht2 & Hp2).
    exists (t1 ++ t2). split; [now rewrite Ht2, Ht1, app_assoc|now apply Forall_app].
  - inversion H; subst. eauto.
Qed.

Lemma emits_weaken (P Q : event -> Prop) {A} (m : M A) :
  (forall ev, P ev -> Q ev) -> emits P m -> emits Q m.
Proof.
  intros Hpq Hm w r w' H. destruct (Hm _ _ _ H) as (t & Ht & Hp).
  exists t. split; [exact Ht|]. eapply Forall_impl; eauto.
Qed.

Lemma keeps_ret {X} (f : world -> X) {A} (a : A) : keeps f (ret a).
Proof. intros w r w' H. now inversion H. Qed.

Lemma keeps_raise {X} (f : world -> X) {A} (e : exn) : keeps f (@raise A e).
Proof. intros w r w' H. now inversion H. Qed.

Lemma keeps_fuel {X} (f : world -> X) {A} : keeps f (@out_of_fuel A).
Proof. intros w r w' H. now inversion H. Qed.

Lemma keeps_bind {X} (f : world -> X) {A B} (m : M A) (k : A -> M B) :
  keeps f m -> (forall a, keeps f (k a)) -> keeps f (bind m k).
Proof.
  intros Hm Hk w r w' H. unfold bind in H.
  destruct (m w) as [[a|e|] w1] eqn:Hmw; pose proof (Hm _ _ _ Hmw) as H1.
  - rewrite (Hk a _ _ _ H). exact H1.
  - now inversion H; subst.
  - now inversion H; subst.
Qed.

Lemma keeps_catch {X} (f : world -> X) {A} (m : M A) (h : exn -> M A) :
  keeps f m -> (forall e, keeps f (h e)) -> keeps f (catch m h).
Proof.
  intros Hm Hh w r w' H. unfold catch in H.
  destruct (m w) as [[a|e|] w1] eqn:Hmw; pose proof (Hm _ _ _ Hmw) as H1.
  - now inversion H; subst.
  - rewrite (Hh e _ _ _ H). exact H1.
  - now inversion H; subst.
Qed.

Lemma keeps_finally {X} (f : world -> X) {A} (m : M A) (g : M unit) :
  keeps f m -> keeps f g -> keeps f (finally m g).
Proof.
  intros Hm Hg w r w' H. unfold finally in H.
  destruct (m w) as [[a|e|] w1] eqn:Hmw; pose proof (Hm _ _ _ Hmw) as H1.
  - rewrite (keeps_bind f g (fun _ => ret a) Hg (fun _ => keeps_ret f a) _ _ _ H).
    exact H1.
  - rewrite (keeps_bind f g (fun _ => raise e) Hg (fun _ => keeps_raise f e) _ _ _ H).
    exact H1.
  - now inversion H; subst.
Qed.

Lemma keeps_dest_emit (ev : event) : keeps dest (emit ev).
Proof. intros w r w' H. now inversion H. Qed.

Lemma keeps_polls_emit (ev : event) : keeps polls (emit ev).
Proof. intros w r w' H. now inversion H. Qed.

Ltac emits_step :=
  match goal with
  | |- emits _ (bind _ _) => apply emits_bind; [|intros]
  | |- emits _ (catch _ _) => apply emits_catch; [|intros]
  | |- emits _ (finally _ _) => apply emits_finally
  | |- emits _ (ret _) => apply emits_ret
  | |- emits _ (raise _) => apply emits_raise
  | |- emits _ out_of_fuel => apply emits_fuel
  | |- emits _ (emit _) => apply emits_emit; try reflexivity; cbn; auto
  | |- emits _ (log_warning _) => apply emits_emit; cbn; eauto
  | |- emits _ (log_error _) => apply emits_emit; cbn; eauto
  | |- emits _ (if ?b then _ else _) => destruct b
  | |- emits _ (match ?x with _ => _ end) => destruct x
  end.

Ltac keeps_step :=
  match goal with
  | |- keeps _ (bind _ _) => apply keeps_bind; [|intros]
  | |- keeps _ (catch _ _) => apply keeps_catch; [|intros]
  | |- keeps _ (finally _ _) => apply keeps_finally
  | |- keeps _ (ret _) => apply keeps_ret
  | |- keeps _ (raise _) => apply keeps_raise
  | |- keeps _ out_of_fuel => apply keeps_fuel
  | |- keeps dest (emit _) => apply keeps_dest_emit
  | |- keeps polls (emit _) => apply keeps_polls_emit
  | |- keeps dest (log_warning _) => apply keeps_dest_emit
  | |- keeps polls (log_warning _) => apply keeps_polls_emit
  | |- keeps dest (log_error _) => apply keeps_dest_emit
  | |- keeps polls (log_error _) => apply keeps_polls_emit
  | |- keeps _ (if ?b then _ else _) => destruct b
  | |- keeps _ (match ?x with _ => _ end) => destruct x
  end.

Create HintDb world_db.

Ltac emits_auto := repeat first [ solve [auto with world_db] | emits_step ].
Ltac keeps_auto := repeat first [ solve [auto with world_db] | keeps_step ].

Lemma keeps_dest_execute (E : env) (sql : string) : keeps dest (execute E sql).
Proof. unfold execute. keeps_auto. Qed.

Lemma keeps_polls_execute (E : env) (sql : string) : keeps polls (execute E sql).
Proof. unfold execute. keeps_auto. Qed.

Lemma emits_execute (P : event -> Prop) (E : env) (sql : string) :
  P (SrcExec sql) -> emits P (execute E sql).
Proof. intros Hp. unfold execute. emits_auto. Qed.

Lemma keeps_dest_count_query (E : env) (sql : string) :
  keeps dest (count_query E sql).
Proof.
  unfold count_query. apply keeps_bind; [apply keeps_dest_emit|].
  intros _ w r w' H. destruct (counts E (polls w)); now inversion H.
Qed.

Lemma emits_count_query (P : event -> Prop) (E : env) (sql : string) :
  P (SrcExec sql) -> emits P (count_query E sql).
Proof.
  intros Hp. unfold count_query. apply emits_bind; [now apply emits_emit|].
  intros _ w r w' H. exists []. rewrite app_nil_r.
  destruct (counts E (polls w)); inversion H; auto.
Qed.

Lemma keeps_dest_sleep (s : Z) : keeps dest (sleep s).
Proof. unfold sleep. keeps_auto. Qed.

Lemma keeps_polls_sleep (s : Z) : keeps polls (sleep s).
Proof. unfold sleep. keeps_auto. Qed.

Lemma emits_sleep (P : event -> Prop) (s : Z) : P (Sleep s) -> emits P (sleep s).
Proof. intros Hp. unfold sleep. emits_auto. Qed.

#[local] Hint Resolve keeps_dest_execute keeps_polls_execute
  keeps_dest_count_query keeps_dest_sleep keeps_polls_sleep
  keeps_dest_emit keeps_polls_emit : world_db.

Lemma keeps_dest_poll_loop (E : env) (fuel : nat) :
  forall wrapped stable_for interval max_wait last same_for waited,
    keeps dest (poll_loop E fuel wrapped stable_for interval max_wait
                          last same_for waited).
Proof. induction fuel as [|fuel IH]; intros; cbn [poll_loop]; keeps_auto. Qed.

#[local] Hint Resolve keeps_dest_poll_loop : world_db.

Lemma keeps_dest_gate (E : env) (fuel : nat) (wrapped : string)
    (stable_for interval max_wait : Z) :
  keeps dest (_wait_for_stable_count E fuel wrapped stable_for interval max_wait).
Proof. unfold _wait_for_stable_count. keeps_auto. Qed.

Lemma emits_poll_loop (E : env) (fuel : nat) (wrapped : string)
    (stable_for interval max_wait : Z) :
  forall last same_for waited,
    emits (gate_event wrapped interval)
          (poll_loop E fuel wrapped stable_for interval max_wait
                     last same_for waited).
Proof.
  induction fuel as [|fuel IH]; intros; cbn [poll_loop];
    repeat first
      [ apply IH
      | apply emits_count_query; left; reflexivity
      | apply emits_sleep; right; left; reflexivity
      | emits_step ].
Qed.

(** X8.  The gate only reads: whatever its outcome, it leaves the
    destination as it was, and all it does is run its COUNT statement,
    sleep for the poll interval and, on a timeout, log one warning. *)
Theorem gate_only_polls_and_sleeps
    (E : env) (fuel : nat) (wrapped_sql : string)
    (stable_for interval max_wait : Z) (w w' : world) (r : res Z) :
  _wait_for_stable_count E fuel wrapped_sql stable_for interval max_wait w
    = (r, w') ->
  calls w' = calls w /\ uncommitted w' = uncommitted w /\
  committed w' = committed w /\
  exists t, trace w' = trace w ++ t /\
            Forall (gate_event wrapped_sql interval) t.
Proof.
  intros H.
  pose proof (keeps_dest_gate E fuel wrapped_sql stable_for interval max_wait
                _ _ _ H) as Hd.
  unfold dest in Hd. injection Hd as Hc Hu Hcm.
  repeat split; try assumption.
  revert H. generalize w r w'.
  change (emits (gate_event wrapped_sql interval)
            (_wait_for_stable_count E fuel wrapped_sql stable_for interval
               max_wait)).
  unfold _wait_for_stable_count.
  apply emits_bind; [apply emits_poll_loop|].
  intros [cnt|last]; [apply emits_ret|].
  apply emits_bind; [|intros; apply emits_ret].
  apply emits_emit. right. right. now exists last.
Qed.

Lemma gate_only_polls_example :
  let w' := snd (_wait_for_stable_count scenario_B_env 5 src_sql 2 1 600 w0) in
  calls w' = calls w0 /\ uncommitted w' = uncommitted w0 /\
  committed w' = committed w0 /\
  exists t, trace w' = trace w0 ++ t /\ Forall (gate_event src_sql 1) t.
Proof.
  apply (gate_only_polls_and_sleeps scenario_B_env 5 src_sql 2 1 600 w0 _ (Ok 15)).
  vm_compute. reflexivity.
Defined.

(** ** Session helpers *)

Ltac emits_more :=
  repeat first
    [ solve [auto with world_db]
    | apply emits_execute; reflexivity
    | apply emits_count_query; reflexivity
    | apply emits_sleep; reflexivity
    | emits_step ].

Lemma source_only_intro {A} (m : M A) :
  keeps dest m -> emits (fun ev => is_dst ev = false) m -> source_only m.
Proof.
  intros Hk He w r w' H. pose proof (Hk _ _ _ H) as Hd.
  unfold dest in Hd. injection Hd as Hc Hu Hcm.
  destruct (He _ _ _ H) as (t & Ht & Hp). repeat split; eauto.
Qed.

Lemma keeps_execute_each {X} (f : world -> X) (E : env) (stmts : list string) :
  (forall sql, keeps f (execute E sql)) -> keeps f (execute_each E stmts).
Proof.
  intros H. induction stmts; cbn [execute_each]; [apply keeps_ret|].
  apply keeps_bind; [apply H|intros; assumption].
Qed.

Lemma emits_execute_each (P : event -> Prop) (E : env) (stmts : list string) :
  (forall sql, P (SrcExec sql)) -> emits P (execute_each E stmts).
Proof.
  intros H. induction stmts; cbn [execute_each]; [apply emits_ret|].
  apply emits_bind; [apply emits_execute, H|intros; assumption].
Qed.

Lemma helpers_source_only (E : env) (label select_sql : string) (n : Z) :
  source_only (_ensure_mysql_fresh_session E) /\
  source_only (_mysql_diag E label) /\
  source_only (_mysql_is_read_only E) /\
  source_only (_preview_rows E select_sql n) /\
  source_only (peek E select_sql n) /\
  source_only (_count_subquery E select_sql).
Proof.
  repeat match goal with |- _ /\ _ => split end; apply source_only_intro.
  - unfold _ensure_mysql_fresh_session, with_connection, do_fetchall.
    apply keeps_bind; [keeps_auto|intros]. apply keeps_finally; [|keeps_auto].
    apply keeps_bind; [apply keeps_execute_each; auto with world_db|intros].
    keeps_auto.
  - unfold _ensure_mysql_fresh_session, with_connection, do_fetchall.
    apply emits_bind; [emits_more|intros]. apply emits_finally; [|emits_more].
    apply emits_bind; [apply emits_execute_each; reflexivity|intros].
    emits_more.
  - unfold _mysql_diag, with_connection, unpack_context. keeps_auto.
  - unfold _mysql_diag, with_connection, unpack_context. emits_more.
  - unfold _mysql_is_read_only, with_connection. keeps_auto.
  - unfold _mysql_is_read_only, with_connection. emits_more.
  - unfold _preview_rows, with_connection, do_fetchall. keeps_auto.
  - unfold _preview_rows, with_connection, do_fetchall. emits_more.
  - unfold peek, _preview_rows, with_connection, do_fetchall. keeps_auto.
  - unfold peek, _preview_rows, with_connection, do_fetchall. emits_more.
  - unfold _count_subquery, with_connection. keeps_auto.
  - unfold _count_subquery, with_connection. emits_more.
Qed.

(** X9.  The session helpers ([_ensure_mysql_fresh_session],
    [_mysql_diag], [_mysql_is_read_only], [_preview_rows] with its
    "Peek" block, [_count_subquery]) work on the source only: whatever
    their outcome, they make no destination call and leave the open
    transaction and the committed batches as they were. *)
Theorem helpers_are_source_only (E : env) (label select_sql : string) (n : Z) :
  source_only (_ensure_mysql_fresh_session E) /\
  source_only (_mysql_diag E label) /\
  source_only (_mysql_is_read_only E) /\
  source_only (_preview_rows E select_sql n) /\
  source_only (peek E select_sql n) /\
  source_only (_count_subquery E select_sql).
Proof. exact (helpers_source_only E label select_sql n). Qed.

(** ** Connections and cursors are given back *)

Lemma held_app (t1 t2 : list event) : held (t1 ++ t2) = held t1 + held t2.
Proof.
  induction t1 as [|ev t1 IH]; [reflexivity|].
  cbn [app held]. destruct ev; rewrite ?IH; lia.
Qed.

Lemma held_no_conn (t : list event) :
  Forall (fun ev => is_conn ev = false) t -> held t = 0.
Proof.
  induction 1 as [|ev t Hev Ht IH]; [reflexivity|].
  destruct ev; cbn in *; try discriminate; exact IH.
Qed.

Lemma emits_balanced {A} (m : M A) :
  emits (fun ev => is_conn ev = false) m -> balanced m.
Proof.
  intros Hm w r w' H _. destruct (Hm _ _ _ H) as (t & Ht & Hp).
  exists t. split; [exact Ht|now apply held_no_conn].
Qed.

Lemma balanced_bind {A B} (m : M A) (k : A -> M B) :
  balanced m -> (forall a, balanced (k a)) -> balanced (bind m k).
Proof.
  intros Hm Hk w r w' H Hne. unfold bind in H.
  destruct (m w) as [[a|e|] w1] eqn:Hmw.
  - destruct (Hm _ _ _ Hmw ltac:(discriminate)) as (t1 & Ht1 & Hh1).
    destruct (Hk a _ _ _ H Hne) as (t2 & Ht2 & Hh2).
    exists (t1 ++ t2). rewrite held_app, Ht2, Ht1, app_assoc. split; [reflexivity|lia].
  - destruct (Hm _ _ _ Hmw ltac:(discriminate)) as (t1 & Ht1 & Hh1).
    inversion H; subst. eauto.
  - inversion H; subst. now elim Hne.
Qed.

Lemma balanced_catch {A} (m : M A) (h : exn -> M A) :
  balanced m -> (forall e, balanced (h e)) -> balanced (catch m h).
Proof.
  intros Hm Hh w r w' H Hne. unfold catch in H.
  destruct (m w) as [[a|e|] w1] eqn:Hmw.
  - destruct (Hm _ _ _ Hmw ltac:(discriminate)) as (t1 & Ht1 & Hh1).
    inversion H; subst. eauto.
  - destruct (Hm _ _ _ Hmw ltac:(discriminate)) as (t1 & Ht1 & Hh1).
    destruct (Hh e _ _ _ H Hne) as (t2 & Ht2 & Hh2).
    exists (t1 ++ t2). rewrite held_app, Ht2, Ht1, app_assoc. split; [reflexivity|lia].
  - inversion H; subst. now elim Hne.
Qed.

Lemma balanced_with_connection {A} (body : M A) :
  balanced body -> balanced (with_connection body).
Proof.
  intros Hb w r w' H Hne. unfold with_connection in H.
  rewrite (bind_run _ _ _ _ _ (emit_run SrcConnect w)) in H.
  set (w1 := mkWorld (trace w ++ [SrcConnect]) (polls w) (calls w)
                     (uncommitted w) (committed w)) in *.
  destruct (body w1) as [[a|e|] w2] eqn:Hbody;
    rewrite (finally_run _ _ _ _ _ Hbody) in H.
  - destruct (Hb _ _ _ Hbody ltac:(discriminate)) as (t & Ht & Hh).
    inversion H; subst. cbn [trace w1] in *.
    exists (SrcConnect :: t ++ [SrcRelease]). split.
    + rewrite Ht, <- !app_assoc. reflexivity.
    + cbn [held]. rewrite held_app, Hh. reflexivity.
  - destruct (Hb _ _ _ Hbody ltac:(discriminate)) as (t & Ht & Hh).
    inversion H; subst. cbn [trace w1] in *.
    exists (SrcConnect :: t ++ [SrcRelease]). split.
    + rewrite Ht, <- !app_assoc. reflexivity.
    + cbn [held]. rewrite held_app, Hh. reflexivity.
  - inversion H; subst. now elim Hne.
Qed.

Lemma events_of_yield_all (page : list Row) (k : gen) :
  events_of (yield_all page k) = events_of k.
Proof.
  unfold yield_all. induction page as [|r page IH]; cbn; [|rewrite IH]; reflexivity.
Qed.

Lemma events_of_gen_of_list (rows : list Row) : events_of (gen_of_list rows) = [].
Proof.
  unfold gen_of_list. change (fold_right GYield GDone rows) with (yield_all rows GDone).
  now rewrite events_of_yield_all.
Qed.

(** The page loop adds page fetches only, then goes on as its error or
    its end continuation. *)
Lemma page_loop_events (arraysize : Z) (on_error on_end : gen) (fuel : nat) :
  forall c,
    (List.length (pending c) < fuel)%nat ->
    exists fetches,
      Forall (fun ev => is_conn ev = false /\ is_dst ev = false) fetches /\
      (events_of (page_loop fuel arraysize c on_error on_end)
       = fetches ++ events_of on_error \/
       events_of (page_loop fuel arraysize c on_error on_end)
       = fetches ++ events_of on_end).
Proof.
  induction fuel as [|fuel IH]; intros c Hlen; [lia|].
  cbn [page_loop]. unfold fetchmany.
  destruct ((List.length (pending c) <? Z.to_nat arraysize)%nat && broken c)%bool.
  - exists [SrcFetchMany arraysize []]. split; [repeat constructor|now left].
  - cbn [events_of].
    destruct (firstn (Z.to_nat arraysize) (pending c)) as [|r page] eqn:Hpage.
    + exists [SrcFetchMany arraysize []]. split; [repeat constructor|now right].
    + rewrite events_of_yield_all.
      destruct (IH (mkCursor (skipn (Z.to_nat arraysize) (pending c)) (broken c)))
        as (fetches & Hf & Hev).
      { cbn [pending]. destruct (Z.to_nat arraysize) as [|k]; [discriminate|].
        destruct (pending c) as [|r' rest]; [discriminate|].
        cbn [skipn List.length] in *. pose proof (length_skipn k rest). lia. }
      exists (SrcFetchMany arraysize (r :: page) :: fetches).
      split; [constructor; [split; reflexivity|exact Hf]|].
      destruct Hev as [-> | ->]; [left|right]; reflexivity.
Qed.

Lemma stream_rows_events
    (E : env) (select_sql : string) (arraysize : Z) :
  Forall (fun ev => is_conn ev = false /\ is_dst ev = false)
         (events_of (_stream_rows E select_sql arraysize true)) /\
  exists t,
    events_of (_stream_rows E select_sql arraysize false)
    = SrcConnect :: t ++ [SrcRelease] /\
    Forall (fun ev => is_conn ev = false /\ is_dst ev = false) t.
Proof.
  unfold _stream_rows. split.
  - cbn [events_of]. constructor; [split; reflexivity|].
    destruct (query E "SET autocommit = 1"); [|repeat constructor].
    cbn [events_of]. constructor; [split; reflexivity|].
    destruct (query E (_wrap_unlimited select_sql)) as [cur|]; [|repeat constructor].
    destruct (page_loop_events arraysize
                (GEvent (LogError EStreamingFailed) (GRaise DBAPIError)) GDone
                (S (List.length (pending cur))) cur ltac:(lia))
      as (fetches & Hf & [-> | ->]); cbn [events_of].
    + apply Forall_app. split; [exact Hf|repeat constructor].
    + now rewrite app_nil_r.
  - cbn [events_of].
    destruct (query E "SET autocommit = 1").
    2:{ exists [SrcExec "SET autocommit = 1"; LogError EStreamingFailed].
        split; [reflexivity|repeat constructor]. }
    cbn [events_of].
    destruct (query E (_wrap_unlimited select_sql)) as [cur|].
    2:{ exists [SrcExec "SET autocommit = 1";
                SrcExec (_wrap_unlimited select_sql); LogError EStreamingFailed].
        split; [reflexivity|repeat constructor]. }
    destruct (page_loop_events arraysize
                (GEvent (LogError EStreamingFailed)
                   (GEvent SrcRelease (GRaise DBAPIError)))
                (GEvent SrcRelease GDone)
                (S (List.length (pending cur))) cur ltac:(lia))
      as (fetches & Hf & [-> | ->]); cbn [events_of].
    + exists (SrcExec "SET autocommit = 1"
              :: SrcExec (_wrap_unlimited select_sql)
              :: fetches ++ [LogError EStreamingFailed]).
      split.
      * cbn [app]. do 3 f_equal. rewrite <- app_assoc. reflexivity.
      * repeat (constructor; [split; reflexivity|]).
        apply Forall_app. split; [exact Hf|repeat constructor].
    + exists (SrcExec "SET autocommit = 1"
              :: SrcExec (_wrap_unlimited select_sql) :: fetches).
      split; [reflexivity|].
      repeat (constructor; [split; reflexivity|]). exact Hf.
Qed.

(** X10.  A generator made by [_stream_rows] on the caller's connection
    never takes or gives back a connection and never touches the
    destination; one made without a connection takes exactly one, as
    its first action, and gives it back as its last, however it ends. *)
Theorem stream_rows_connection_use
    (E : env) (select_sql : string) (arraysize : Z) :
  Forall (fun ev => is_conn ev = false /\ is_dst ev = false)
         (events_of (_stream_rows E select_sql arraysize true)) /\
  exists t,
    events_of (_stream_rows E select_sql arraysize false)
    = SrcConnect :: t ++ [SrcRelease] /\
    Forall (fun ev => is_conn ev = false /\ is_dst ev = false) t.
Proof. exact (stream_rows_events E select_sql arraysize). Qed.

(** X11.  The writer closes the cursor it opened on every path: when it
    returns and when it raises, the cursor is opened first and closed
    last. *)
Theorem writer_closes_its_cursor
    (E : env) (insert_sql : string) (g : gen) (batch : Z) (fast verify : bool)
    (w w' : world) (r : res Z) :
  _mssql_execmany E insert_sql g batch fast verify w = (r, w') ->
  r <> OutOfFuel ->
  exists t, trace w' = trace w ++ [DstCursor] ++ t ++ [DstCursorClose].
Proof.
  unfold _mssql_execmany. intros H Hne.
  rewrite (bind_run _ _ _ _ _ (emit_run DstCursor w)) in H.
  set (w1 := mkWorld (trace w ++ [DstCursor]) (polls w) (calls w)
                     (uncommitted w) (committed w)) in *.
  match type of H with
  | finally ?body _ _ = _ =>
      assert (Hb : appends body)
        by (unfold except_pyodbc; appends_auto);
      destruct (body w1) as [[a|e|] w2] eqn:Hbody;
      destruct (Hb _ _ _ Hbody) as [t Ht];
      rewrite (finally_run _ _ _ _ _ Hbody) in H
  end.
  - inversion H; subst. cbn [trace w1] in *.
    exists t. rewrite Ht, <- !app_assoc. reflexivity.
  - inversion H; subst. cbn [trace w1] in *.
    exists t. rewrite Ht, <- !app_assoc. reflexivity.
  - inversion H; subst. now elim Hne.
Qed.

Lemma writer_closes_its_cursor_example :
  exists t,
    trace (snd (_mssql_execmany failing_env dst_sql
                  (gen_of_list (numbered_rows 4)) 2 true true w0))
    = trace w0 ++ [DstCursor] ++ t ++ [DstCursorClose].
Proof.
  apply (writer_closes_its_cursor failing_env dst_sql
           (gen_of_list (numbered_rows 4)) 2 true true w0 _ (Raise PyodbcError)).
  - vm_compute. reflexivity.
  - discriminate.
Defined.

Lemma emits_executemany (P : event -> Prop) (E : env) (sql : string)
    (buf : list Row) :
  P (DstExecMany sql buf) -> emits P (executemany E sql buf).
Proof.
  intros Hp w r w' H. unfold executemany in H.
  destruct (driver E (calls w) buf); inversion H; cbn;
    exists [DstExecMany sql buf]; auto.
Qed.

Lemma emits_commit (P : event -> Prop) : P DstCommit -> emits P commit.
Proof. intros Hp w r w' H. inversion H. cbn. exists [DstCommit]. auto. Qed.

Lemma emits_execute_batch (P : event -> Prop) (E : env) (sql : string)
    (verify final : bool) (buf : list Row) :
  P (DstExecMany sql buf) -> (forall x, P (LogWarning x)) ->
  emits P (execute_batch E sql verify final buf).
Proof.
  intros Hp Hw. unfold execute_batch.
  apply emits_bind; [now apply emits_executemany|intros rc].
  apply emits_bind; [|intros; apply emits_ret].
  destruct (_ && _)%bool; [apply emits_emit, Hw|apply emits_ret].
Qed.

(** What the writer adds to the trace: the events of its iterable, its
    own destination events, and log records. *)
Lemma emits_drain (P : event -> Prop) (E : env) (sql : string) (batch : Z)
    (verify : bool) (g : gen) :
  Forall P (events_of g) ->
  (forall ev, is_dst ev = true -> P ev) ->
  (forall x, P (LogWarning x)) ->
  forall buf total, emits P (drain E sql batch verify g buf total).
Proof.
  intros Hg Hd Hw. induction g as [|e|row k IH|ev k IH|]; intros buf total;
    cbn [drain]; cbn [events_of] in Hg.
  - apply emits_ret.
  - apply emits_raise.
  - destruct (batch <=? _); [|now apply IH].
    apply emits_bind; [apply emits_execute_batch; auto|intros; now apply IH].
  - inversion Hg; subst.
    apply emits_bind; [now apply emits_emit|intros; now apply IH].
  - apply emits_fuel.
Qed.

Lemma emits_execmany (P : event -> Prop) (E : env) (sql : string) (g : gen)
    (batch : Z) (fast verify : bool) :
  Forall P (events_of g) ->
  (forall ev, is_dst ev = true -> P ev) ->
  (forall x, P (LogWarning x)) -> (forall x, P (LogError x)) ->
  emits P (_mssql_execmany E sql g batch fast verify).
Proof.
  intros Hg Hd Hw He. unfold _mssql_execmany, except_pyodbc.
  apply emits_bind; [apply emits_emit, Hd; reflexivity|intros _].
  apply emits_finally; [|apply emits_emit, Hd; reflexivity].
  apply emits_catch.
  - apply emits_bind; [now apply emits_drain|intros [buf total]].
    apply emits_bind.
    + destruct buf; [apply emits_ret|].
      apply emits_bind; [apply emits_execute_batch; auto|intros; apply emits_ret].
    + intros. apply emits_bind; [apply emits_commit, Hd; reflexivity|].
      intros; apply emits_ret.
  - intros e. destruct (is_pyodbc_error e); [|apply emits_raise].
    apply emits_bind; [apply emits_emit, He|intros; apply emits_raise].
Qed.

Lemma emits_fetchone_loop (P : event -> Prop) (E : env) (this : self)
    (sql : string) (batch : Z) (rows : list Row) (drops : bool) :
  P SrcFetchOne ->
  (forall ev, is_dst ev = true -> P ev) ->
  (forall x, P (LogWarning x)) -> (forall x, P (LogError x)) ->
  forall buf total fetched,
    emits P (fetchone_loop E this sql batch rows drops buf total fetched).
Proof.
  intros Hf Hd Hw He. induction rows as [|row rest IH]; intros buf total fetched;
    cbn [fetchone_loop].
  - apply emits_bind; [now apply emits_emit|intros _].
    destruct drops; [apply emits_raise|apply emits_ret].
  - apply emits_bind; [now apply emits_emit|intros _].
    destruct (batch <=? _); [|apply IH].
    apply emits_bind; [|intros; apply IH].
    apply emits_execmany; auto. rewrite events_of_gen_of_list. constructor.
Qed.

Lemma emits_gate (P : event -> Prop) (E : env) (fuel : nat) (wrapped : string)
    (stable_for interval max_wait : Z) :
  (forall sql, P (SrcExec sql)) -> (forall s, P (Sleep s)) ->
  (forall x, P (LogWarning x)) ->
  emits P (_wait_for_stable_count E fuel wrapped stable_for interval max_wait).
Proof.
  intros Hx Hs Hw.
  apply (emits_weaken (gate_event wrapped interval)).
  - intros ev [-> | [-> | [last ->]]]; auto.
  - unfold _wait_for_stable_count.
    apply emits_bind; [apply emits_poll_loop|].
    intros [cnt|last]; [apply emits_ret|].
    apply emits_bind; [|intros; apply emits_ret].
    apply emits_emit. right. right. now exists last.
Qed.

Section Balance.

Variable E : env.

Let no_conn (ev : event) : Prop := is_conn ev = false.

Lemma balanced_raise {A} (e : exn) : balanced (@raise A e).
Proof. apply emits_balanced, emits_raise. Qed.

Lemma balanced_ret {A} (a : A) : balanced (ret a).
Proof. apply emits_balanced, emits_ret. Qed.

Lemma balanced_log (ev : event) : is_conn ev = false -> balanced (emit ev).
Proof. intros H. apply emits_balanced, emits_emit, H. Qed.

Lemma balanced_ensure : balanced (_ensure_mysql_fresh_session E).
Proof.
  unfold _ensure_mysql_fresh_session. apply balanced_with_connection.
  apply emits_balanced. unfold do_fetchall.
  apply emits_bind; [apply emits_execute_each; reflexivity|intros]. emits_more.
Qed.

Lemma balanced_diag (label : string) : balanced (_mysql_diag E label).
Proof.
  unfold _mysql_diag.
  apply balanced_catch; [|intros; now apply balanced_log].
  apply balanced_with_connection, emits_balanced.
  unfold unpack_context. emits_more.
Qed.

Lemma balanced_peek (select_sql : string) (n : Z) :
  balanced (peek E select_sql n).
Proof.
  unfold peek, _preview_rows.
  apply balanced_catch; [|intros; now apply balanced_log].
  apply balanced_bind; [|intros; apply balanced_ret].
  apply balanced_with_connection, emits_balanced.
  unfold do_fetchall. emits_more.
Qed.

Lemma balanced_is_read_only : balanced (_mysql_is_read_only E).
Proof.
  unfold _mysql_is_read_only.
  apply balanced_with_connection, emits_balanced. emits_more.
Qed.

Lemma balanced_stable_block {A} (f : failure) (body : M A) :
  emits no_conn body ->
  balanced (logged f (with_connection (open_stable_session E ;;; body))).
Proof.
  intros Hbody. unfold logged.
  apply balanced_catch.
  - apply balanced_with_connection, emits_balanced.
    apply emits_bind; [unfold open_stable_session; emits_more|intros; exact Hbody].
  - intros e. apply balanced_bind; [now apply balanced_log|intros; apply balanced_raise].
Qed.

(** X12.  Every entry point, the constructor and [_count_subquery] give
    back every source connection they take, on every path on which they
    end: when they return and when they raise. *)
Theorem connections_are_given_back
    (fuel : nat) (this : self) (select_sql insert_sql mysql_driver : string)
    (preview_rows chunk_size batch_size stable_for interval max_wait : Z)
    (force_writer fast verify : bool) :
  balanced (transfer E fuel this select_sql insert_sql preview_rows chunk_size
                     batch_size stable_for interval max_wait) /\
  balanced (transfer_fetchall E fuel this select_sql insert_sql preview_rows
                     batch_size stable_for interval max_wait) /\
  balanced (transfer_fetchone E fuel this select_sql insert_sql preview_rows
                     batch_size stable_for interval max_wait) /\
  balanced (__init__ E mysql_driver force_writer fast verify) /\
  balanced (_count_subquery E select_sql).
Proof.
  assert (Hgate : emits no_conn
            (_wait_for_stable_count E fuel (_wrap_unlimited select_sql)
               stable_for interval max_wait))
    by (apply emits_gate; reflexivity).
  assert (Hdst : forall ev, is_dst ev = true -> no_conn ev)
    by (intros ev; destruct ev; cbn; intros; (reflexivity || discriminate)).
  assert (Hdrift : forall (b : bool) x, balanced (if b then log_warning x else ret tt))
    by (intros [] x; [now apply balanced_log|apply balanced_ret]).
  unfold transfer, transfer_fetchall, transfer_fetchone, unresolved_placeholder.
  repeat match goal with |- _ /\ _ => split end.
  - destruct (contains "|||" select_sql); [apply balanced_raise|].
    apply balanced_bind; [apply balanced_ensure|intros _].
    apply balanced_bind; [apply balanced_diag|intros _].
    apply balanced_bind; [apply balanced_peek|intros _].
    apply balanced_bind.
    + apply balanced_stable_block.
      apply emits_bind; [exact Hgate|intros expected].
      apply emits_bind; [|intros; apply emits_ret].
      apply emits_execmany; try reflexivity; [|exact Hdst].
      eapply Forall_impl; [|apply stream_rows_events].
      intros ev [H _]. exact H.
    + intros [expected total].
      apply balanced_bind; [apply balanced_diag|intros _].
      apply balanced_bind; [apply Hdrift|intros; apply balanced_ret].
  - destruct (contains "|||" select_sql); [apply balanced_raise|].
    apply balanced_bind; [apply balanced_ensure|intros _].
    apply balanced_bind; [apply balanced_diag|intros _].
    apply balanced_bind; [apply balanced_peek|intros _].
    apply balanced_bind.
    + apply balanced_stable_block.
      apply emits_bind; [exact Hgate|intros expected].
      unfold do_fetchall. emits_more.
    + intros [expected rows].
      apply balanced_bind.
      * apply emits_balanced, emits_execmany; try reflexivity; [|exact Hdst].
        rewrite events_of_gen_of_list. constructor.
      * intros total.
        apply balanced_bind; [apply balanced_diag|intros _].
        apply balanced_bind; [apply Hdrift|intros _].
        apply balanced_bind; [apply Hdrift|intros; apply balanced_ret].
  - destruct (contains "|||" select_sql); [apply balanced_raise|].
    apply balanced_bind; [apply balanced_ensure|intros _].
    apply balanced_bind; [apply balanced_diag|intros _].
    apply balanced_bind; [apply balanced_peek|intros _].
    apply balanced_bind.
    + apply balanced_stable_block.
      apply emits_bind; [exact Hgate|intros expected].
      apply emits_bind; [apply emits_execute; reflexivity|intros c].
      apply emits_bind;
        [apply emits_fetchone_loop; try reflexivity; exact Hdst|].
      intros [[buf total] fetched].
      apply emits_bind; [|intros; apply emits_ret].
      destruct buf; [apply emits_ret|].
      apply emits_bind; [|intros; apply emits_ret].
      apply emits_execmany; try reflexivity; [|exact Hdst].
      rewrite events_of_gen_of_list. constructor.
    + intros [[expected total] fetched].
      apply balanced_bind; [apply balanced_diag|intros _].
      apply balanced_bind; [apply Hdrift|intros _].
      apply balanced_bind; [apply Hdrift|intros; apply balanced_ret].
  - unfold __init__.
    destruct (supported_mysql_driver mysql_driver); [|apply balanced_raise].
    apply balanced_bind; [apply balanced_ensure|intros _].
    apply balanced_bind; [apply balanced_diag|intros _].
    apply balanced_bind.
    + destruct force_writer; [apply balanced_is_read_only|apply balanced_ret].
    + intros [|]; [apply balanced_raise|].
      apply balanced_bind; [now apply balanced_log|intros; apply balanced_ret].
  - unfold _count_subquery.
    apply balanced_with_connection, emits_balanced. emits_more.
Qed.

End Balance.

(** ** The constructor *)

Lemma opens_last_bind {A} (fast verify : bool) (m : M A) (k : A -> M self) :
  emits (fun ev => is_dst ev = false) m ->
  (forall a, opens_destination_last fast verify (k a)) ->
  opens_destination_last fast verify (bind m k).
Proof.
  intros Hm Hk w r w' H. unfold bind in H.
  destruct (m w) as [[a|e|] w1] eqn:Hmw; destruct (Hm _ _ _ Hmw) as (t1 & Ht1 & Hp1).
  - destruct (Hk a _ _ _ H) as (t2 & Ht2 & Hr). exists (t1 ++ t2).
    split; [now rewrite Ht2, Ht1, app_assoc|].
    destruct r as [this|e|].
    + destruct Hr as (-> & t0 & -> & Hp0). split; [reflexivity|].
      exists (t1 ++ t0). split; [now rewrite app_assoc|now apply Forall_app].
    + destruct e; try (now apply Forall_app).
      destruct Hr as (t0 & Hp0 & Ht0). exists (t1 ++ t0).
      split; [now apply Forall_app|].
      destruct Ht0 as [->| ->]; [now left|right; now rewrite app_assoc].
    + now apply Forall_app.
  - inversion H; subst. exists t1. split; [exact Ht1|].
    destruct e; try exact Hp1. exists t1. split; [exact Hp1|now left].
  - inversion H; subst. eauto.
Qed.

Lemma init_opens_destination_last (E : env) (mysql_driver : string)
    (force_writer fast verify : bool) :
  opens_destination_last fast verify
    (__init__ E mysql_driver force_writer fast verify).
Proof.
  destruct (helpers_source_only E "initial" "" 0)
    as (Hens & Hdiag & Hro & _).
  assert (Hsrc : forall A (m : M A), source_only m ->
                   emits (fun ev => is_dst ev = false) m).
  { intros A m Hm w r w' H. destruct (Hm _ _ _ H) as (_ & _ & _ & Ht). exact Ht. }
  unfold __init__.
  destruct (supported_mysql_driver mysql_driver).
  - apply opens_last_bind; [now apply Hsrc|intros _].
    apply opens_last_bind; [now apply Hsrc|intros _].
    apply opens_last_bind.
    + destruct force_writer; [now apply Hsrc|apply emits_ret].
    + intros [|] w r w' H; inversion H; subst; cbn.
      * exists []. rewrite app_nil_r. split; [reflexivity|constructor].
      * exists [DstConnect]. split; [reflexivity|]. split; [reflexivity|].
        exists []. split; [reflexivity|constructor].
  - intros w r w' H. inversion H; subst.
    exists []. rewrite app_nil_r. split; [reflexivity|constructor].
Qed.

(** X13.  The constructor contacts the destination at most once, as its
    very last action: everything before is source-side.  When it returns,
    the destination connection has been opened and the object carries the
    two writer flags it was given.  When it ends with [ValueError]
    (unsupported driver name), with an exception of the source side
    (session set-up, read-only query) or with [RuntimeError] (read-only
    server), the destination has not been contacted. *)
Theorem constructor_opens_destination_last
    (E : env) (mysql_driver : string) (force_writer fast verify : bool) :
  opens_destination_last fast verify
    (__init__ E mysql_driver force_writer fast verify).
Proof. exact (init_opens_destination_last E mysql_driver force_writer fast verify). Qed.

Lemma is_read_only_run (E : env) (ro : Z) (w : world) :
  query E "SET autocommit = 1" <> None ->
  read_only E = Some ro ->
  exists w', _mysql_is_read_only E w = (Ok (ro =? 1), w').
Proof.
  intros Hq Hro.
  cbv [_mysql_is_read_only with_connection finally bind execute emit raise ret].
  destruct (query E "SET autocommit = 1"); [|now elim Hq].
  rewrite Hro. eexists. reflexivity.
Qed.

(** X14.  With [force_writer] set, the constructor asks the server for
    [@@read_only] and refuses exactly the answer 1: it then raises
    [RuntimeError] without having contacted the destination; on any
    other answer it returns.  With [force_writer] off it returns
    whatever the server would have answered. *)
Theorem read_only_server_is_refused
    (E : env) (mysql_driver : string) (fast verify : bool)
    (w w1 : world) (ro : Z) :
  supported_mysql_driver mysql_driver = true ->
  _ensure_mysql_fresh_session E w = (Ok tt, w1) ->
  query E "SET autocommit = 1" <> None ->
  read_only E = Some ro ->
  (ro = 1 ->
   exists w' t,
     __init__ E mysql_driver true fast verify w
     = (Raise (RuntimeError
                 "Connected MySQL server is read-only (likely a replica)."),
        w') /\
     trace w' = trace w ++ t /\ Forall (fun ev => is_dst ev = false) t) /\
  (ro <> 1 ->
   exists w', __init__ E mysql_driver true fast verify w
              = (Ok (mkSelf fast verify), w')) /\
  (exists w', __init__ E mysql_driver false fast verify w
              = (Ok (mkSelf fast verify), w')).
Proof.
  intros Hsup Hens Hq Hro.
  destruct (mysql_diag_ok E "initial" w1) as [w2 Hdiag].
  destruct (is_read_only_run E ro w2 Hq Hro) as [w3 Hcheck].
  assert (Hrun : forall fw,
            __init__ E mysql_driver fw fast verify w
            = if fw
              then if ro =? 1
                   then (Raise (RuntimeError
                           "Connected MySQL server is read-only (likely a replica)."),
                         w3)
                   else (emit DstConnect ;;; ret (mkSelf fast verify)) w3
              else (emit DstConnect ;;; ret (mkSelf fast verify)) w2).
  { intros fw. unfold __init__. rewrite Hsup.
    rewrite (bind_run _ _ _ _ _ Hens), (bind_run _ _ _ _ _ Hdiag).
    destruct fw.
    - rewrite (bind_run _ _ _ _ _ Hcheck). destruct (ro =? 1); reflexivity.
    - reflexivity. }
  split; [|split].
  - intros ->. pose proof (Hrun true) as H. cbn in H.
    destruct (init_opens_destination_last E mysql_driver true fast verify _ _ _ H)
      as (t & Ht & Hp).
    exists w3, t. auto.
  - intros Hne. rewrite (Hrun true).
    destruct (Z.eqb_spec ro 1); [contradiction|]. eexists. reflexivity.
  - rewrite (Hrun false). eexists. reflexivity.
Qed.

Lemma read_only_server_example :
  exists w' t,
    __init__ replica_env "pymysql" true true true w0
    = (Raise (RuntimeError
                "Connected MySQL server is read-only (likely a replica)."),
       w') /\
    trace w' = trace w0 ++ t /\ Forall (fun ev => is_dst ev = false) t.
Proof.
  destruct (read_only_server_is_refused replica_env "pymysql" true true w0
              (snd (_ensure_mysql_fresh_session replica_env w0)) 1)
    as (Hrefused & _).
  - reflexivity.
  - vm_compute. reflexivity.
  - discriminate.
  - reflexivity.
  - apply Hrefused. reflexivity.
Defined.

(** ** More on the writer *)

(** X15.  On an iterable that yields no row the writer makes no insert
    call and returns 0, but it still commits: whatever earlier calls
    left in the open transaction becomes durable. *)
Theorem empty_iterable_still_commits
    (E : env) (insert_sql : string) (g : gen) (batch : Z) (fast verify : bool)
    (w : world) :
  ending g = Ok tt -> rows_of g = [] ->
  exists w',
    _mssql_execmany E insert_sql g batch fast verify w = (Ok 0, w') /\
    calls w' = calls w /\
    committed w' = committed w ++ uncommitted w /\
    uncommitted w' = [].
Proof.
  intros Hend Hrows.
  destruct (execmany_spec E insert_sql batch verify g fast w)
    as (r & w' & Hrun & _ & Hok & _).
  rewrite Hrows in Hok. cbn in Hok.
  destruct (Hok Hend eq_refl) as (-> & Hcm & Hun & Hcalls).
  exists w'. rewrite app_nil_r in Hcm. repeat split; try assumption. lia.
Qed.

Lemma empty_iterable_example :
  exists w',
    _mssql_execmany small_env dst_sql (gen_of_list []) 1000 true true w0
      = (Ok 0, w') /\
    calls w' = calls w0 /\
    committed w' = committed w0 ++ uncommitted w0 /\
    uncommitted w' = [].
Proof.
  apply (empty_iterable_still_commits small_env dst_sql (gen_of_list []) 1000
           true true w0); reflexivity.
Defined.

Lemma firstn_accepted_full (E : env) (i : nat) (full final : list (list Row)) :
  (List.length final <= 1)%nat ->
  (accepted E i (full ++ final) < List.length (full ++ final))%nat ->
  firstn (accepted E i full) full
  = firstn (accepted E i (full ++ final)) (full ++ final).
Proof.
  intros Hfin Hlt.
  destruct (Nat.eq_dec (accepted E i full) (List.length full)) as [Hj|Hj].
  - destruct final as [|b [|b' final]]; cbn in Hfin; try lia.
    + rewrite app_nil_r in *. reflexivity.
    + rewrite (accepted_snoc E i full b Hj) in *.
      rewrite length_app in Hlt. cbn in Hlt.
      destruct (driver E (i + List.length full) b); [lia|].
      rewrite Hj, firstn_app, firstn_all, Nat.sub_diag. cbn. now rewrite app_nil_r.
  - assert (Hshort : (accepted E i full < List.length full)%nat)
      by (pose proof (accepted_le E i full); lia).
    rewrite (accepted_app_short E i full final Hshort), firstn_app.
    replace (accepted E i full - List.length full)%nat with 0%nat by lia.
    cbn. now rewrite app_nil_r.
Qed.

(** X16.  The writer never rolls back.  When a writer call fails after
    the destination accepted [j] of its batches, and a later writer call
    on the same connection succeeds, the commit of the later call makes
    the [j] batches of the failed call durable together with its own:
    repeating a failed job on the same manager duplicates rows. *)
Theorem retry_commits_leftover_batches
    (E : env) (insert_sql : string) (batch : Z) (fast verify : bool)
    (g1 g2 : gen) (w : world) :
  ending g1 = Ok tt -> ending g2 = Ok tt -> uncommitted w = [] ->
  let bs1 := batches batch (rows_of g1) in
  let bs2 := batches batch (rows_of g2) in
  let j := accepted E (calls w) bs1 in
  (j < List.length bs1)%nat ->
  accepted E (calls w + j + 1) bs2 = List.length bs2 ->
  exists w1 w2,
    _mssql_execmany E insert_sql g1 batch fast verify w
      = (Raise PyodbcError, w1) /\
    committed w1 = committed w /\
    _mssql_execmany E insert_sql g2 batch fast verify w1
      = (Ok (credits E (calls w + j + 1) bs2), w2) /\
    committed w2 = committed w ++ firstn j bs1 ++ bs2.
Proof.
  intros Hend1 Hend2 Hun. cbn zeta. intros Hj Hacc.
  destruct (execmany_spec E insert_sql batch verify g1 fast w)
    as (r1 & w1 & Hrun1 & _ & _ & Hko).
  destruct Hko as (_ & Hcm1 & Hun1 & Hraise); [intros [_ Habs]; lia|].
  destruct (Hraise Hend1) as [-> Hcalls1].
  destruct (execmany_spec E insert_sql batch verify g2 fast w1)
    as (r2 & w2 & Hrun2 & _ & Hok & _).
  rewrite Hcalls1 in Hok.
  destruct (Hok Hend2 Hacc) as (-> & Hcm2 & _).
  exists w1, w2. split; [exact Hrun1|]. split; [exact Hcm1|].
  split; [exact Hrun2|].
  rewrite Hcm2, Hcm1, Hun1, Hun. cbn [app]. do 2 f_equal.
  unfold batches in *. apply firstn_accepted_full; [|exact Hj].
  destruct (snd (fill batch [] (rows_of g1))); cbn; lia.
Qed.

Lemma retry_example :
  exists w1 w2,
    _mssql_execmany failing_env dst_sql (gen_of_list (numbered_rows 4)) 2
                    true true w0 = (Raise PyodbcError, w1) /\
    committed w1 = committed w0 /\
    _mssql_execmany failing_env dst_sql (gen_of_list (numbered_rows 4)) 2
                    true true w1
      = (Ok (credits failing_env 2 (batches 2 (numbered_rows 4))), w2) /\
    committed w2
    = [[[VInt 0]; [VInt 1]];
       [[VInt 0]; [VInt 1]]; [[VInt 2]; [VInt 3]]].
Proof.
  destruct (retry_commits_leftover_batches failing_env dst_sql 2 true true
              (gen_of_list (numbered_rows 4)) (gen_of_list (numbered_rows 4)) w0)
    as (w1 & w2 & H1 & Hc1 & H2 & Hc2).
  - reflexivity.
  - reflexivity.
  - reflexivity.
  - vm_compute. lia.
  - vm_compute. reflexivity.
  - exists w1, w2. split; [exact H1|]. split; [exact Hc1|].
    split; [exact H2|]. rewrite Hc2. reflexivity.
Defined.

Lemma alike_bind {A B} (m1 m2 : M A) (k1 k2 : A -> M B) :
  alike m1 m2 -> (forall a, alike (k1 a) (k2 a)) ->
  alike (bind m1 k1) (bind m2 k2).
Proof.
  intros Hm Hk w1 w2 Hd. unfold bind.
  destruct (Hm w1 w2 Hd) as [Hr Hd'].
  destruct (m1 w1) as [[a1|e1|] u1], (m2 w2) as [[a2|e2|] u2];
    cbn in Hr, Hd'; try discriminate; try (split; cbn; congruence).
  injection Hr as ->. now apply Hk.
Qed.

Lemma alike_catch {A} (m1 m2 : M A) (h1 h2 : exn -> M A) :
  alike m1 m2 -> (forall e, alike (h1 e) (h2 e)) ->
  alike (catch m1 h1) (catch m2 h2).
Proof.
  intros Hm Hh w1 w2 Hd. unfold catch.
  destruct (Hm w1 w2 Hd) as [Hr Hd'].
  destruct (m1 w1) as [[a1|e1|] u1], (m2 w2) as [[a2|e2|] u2];
    cbn in Hr, Hd'; try discriminate; try (split; cbn; congruence).
  injection Hr as ->. now apply Hh.
Qed.

Lemma alike_quiet {A} (a : A) (m1 m2 : M A) :
  (forall w, fst (m1 w) = Ok a /\ dest (snd (m1 w)) = dest w) ->
  (forall w, fst (m2 w) = Ok a /\ dest (snd (m2 w)) = dest w) ->
  alike m1 m2.
Proof.
  intros H1 H2 w1 w2 Hd. destruct (H1 w1) as [-> ->], (H2 w2) as [-> ->]. auto.
Qed.

Lemma alike_refl_ret {A} (a : A) : alike (ret a) (ret a).
Proof. intros w1 w2 Hd. auto. Qed.

Lemma alike_refl_raise {A} (e : exn) : alike (@raise A e) (raise e).
Proof. intros w1 w2 Hd. auto. Qed.

Lemma alike_finally {A} (m1 m2 : M A) (f1 f2 : M unit) :
  alike m1 m2 -> alike f1 f2 -> alike (finally m1 f1) (finally m2 f2).
Proof.
  intros Hm Hf w1 w2 Hd. unfold finally.
  destruct (Hm w1 w2 Hd) as [Hr Hd'].
  destruct (m1 w1) as [[a1|e1|] u1], (m2 w2) as [[a2|e2|] u2];
    cbn in Hr, Hd'; try discriminate; try (split; cbn; congruence).
  - injection Hr as ->.
    apply (alike_bind f1 f2 (fun _ => ret a2) (fun _ => ret a2) Hf
             (fun _ => alike_refl_ret a2)). exact Hd'.
  - injection Hr as ->.
    apply (alike_bind f1 f2 (fun _ => raise e2) (fun _ => raise e2) Hf
             (fun _ => alike_refl_raise e2)). exact Hd'.
Qed.

Lemma alike_emit (e1 e2 : event) : alike (emit e1) (emit e2).
Proof. intros w1 w2 Hd. split; [reflexivity|exact Hd]. Qed.

Lemma alike_executemany (E : env) (sql : string) (buf : list Row) :
  alike (executemany E sql buf) (executemany E sql buf).
Proof.
  intros w1 w2 Hd. unfold executemany, dest in *. injection Hd as Hc Hu Hcm.
  rewrite Hc. destruct (driver E (calls w2) buf); cbn; split; congruence.
Qed.

Lemma alike_commit : alike commit commit.
Proof.
  intros w1 w2 Hd. unfold commit, dest in *. injection Hd as Hc Hu Hcm.
  cbn. split; congruence.
Qed.

Lemma alike_execute_batch (E : env) (sql : string) (v1 v2 final : bool)
    (buf : list Row) :
  alike (execute_batch E sql v1 final buf) (execute_batch E sql v2 final buf).
Proof.
  unfold execute_batch.
  apply alike_bind; [apply alike_executemany|intros rc].
  apply alike_bind; [|intros; apply alike_refl_ret].
  apply (alike_quiet tt); intros w;
    destruct (_ && _)%bool; split; reflexivity.
Qed.

Lemma alike_drain (E : env) (sql : string) (batch : Z) (v1 v2 : bool) (g : gen) :
  forall buf total,
    alike (drain E sql batch v1 g buf total) (drain E sql batch v2 g buf total).
Proof.
  induction g as [|e|row k IH|ev k IH|]; intros buf total; cbn [drain].
  - apply alike_refl_ret.
  - apply alike_refl_raise.
  - destruct (batch <=? _); [|apply IH].
    apply alike_bind; [apply alike_execute_batch|intros; apply IH].
  - apply alike_bind; [apply alike_emit|intros; apply IH].
  - intros w1 w2 Hd. auto.
Qed.

(** X17.  [verify_rowcount] changes nothing but the log: with the flag
    on or off, the writer makes the same calls, ends with the same
    result (the same total or the same exception) and leaves the same
    committed and uncommitted batches.  A short row count is reported,
    never acted upon. *)
Theorem verify_rowcount_only_affects_log
    (E : env) (insert_sql : string) (g : gen) (batch : Z)
    (fast verify1 verify2 : bool) (w : world) :
  let run1 := _mssql_execmany E insert_sql g batch fast verify1 w in
  let run2 := _mssql_execmany E insert_sql g batch fast verify2 w in
  fst run1 = fst run2 /\
  calls (snd run1) = calls (snd run2) /\
  uncommitted (snd run1) = uncommitted (snd run2) /\
  committed (snd run1) = committed (snd run2).
Proof.
  cbn zeta.
  assert (H : alike (_mssql_execmany E insert_sql g batch fast verify1)
                    (_mssql_execmany E insert_sql g batch fast verify2)).
  { unfold _mssql_execmany, except_pyodbc.
    apply alike_bind; [apply alike_emit|intros _].
    apply alike_finally; [|apply alike_emit].
    apply alike_catch.
    - apply alike_bind; [apply alike_drain|intros [buf total]].
      apply alike_bind.
      + destruct buf; [apply alike_refl_ret|].
        apply alike_bind; [apply alike_execute_batch|intros; apply alike_refl_ret].
      + intros. apply alike_bind; [apply alike_commit|intros; apply alike_refl_ret].
    - intros e. destruct (is_pyodbc_error e); [|apply alike_refl_raise].
      apply alike_bind; [apply alike_emit|intros; apply alike_refl_raise]. }
  destruct (H w w eq_refl) as [Hr Hd]. unfold dest in Hd.
  injection Hd as Hc Hu Hcm. auto.
Qed.

(** ** The entry points on a source that answers *)

Section HealthyRuns.

Variable E : env.
Hypothesis healthy : answers E setup_statements.

Lemma execute_ok (sql : string) (w : world) :
  In sql setup_statements ->
  exists c, broken c = false /\
            execute E sql w = (Ok c, after (SrcExec sql) w).
Proof.
  intros Hin. destruct (healthy sql Hin) as [rows Hq].
  exists (mkCursor rows false).
  split; [reflexivity|]. unfold execute, bind, emit. now rewrite Hq.
Qed.

Lemma autocommit_answers : query E "SET autocommit = 1" <> None.
Proof.
  destruct (healthy "SET autocommit = 1") as [rows ->]; [|discriminate].
  cbn. auto.
Qed.

Lemma with_connection_ok {A} (body : M A) (w w2 : world) (a : A) :
  body (after SrcConnect w) = (Ok a, w2) ->
  with_connection body w = (Ok a, after SrcRelease w2).
Proof.
  intros H. unfold with_connection.
  rewrite (bind_run _ _ _ _ _ (emit_run SrcConnect w)).
  change (mkWorld _ _ _ _ _) with (after SrcConnect w).
  rewrite (finally_run _ _ _ _ _ H). reflexivity.
Qed.

Lemma with_connection_raise {A} (body : M A) (w w2 : world) (e : exn) :
  body (after SrcConnect w) = (Raise e, w2) ->
  with_connection body w = (Raise e, after SrcRelease w2).
Proof.
  intros H. unfold with_connection.
  rewrite (bind_run _ _ _ _ _ (emit_run SrcConnect w)).
  change (mkWorld _ _ _ _ _) with (after SrcConnect w).
  rewrite (finally_run _ _ _ _ _ H). reflexivity.
Qed.

Lemma execute_each_ok (stmts : list string) (w : world) :
  incl stmts setup_statements ->
  exists w', execute_each E stmts w = (Ok tt, w') /\
             polls w' = polls w /\ dest w' = dest w.
Proof.
  revert w. induction stmts as [|s stmts IH]; intros w Hin.
  - exists w. repeat split.
  - cbn [execute_each].
    destruct (execute_ok s w (Hin s (or_introl eq_refl))) as (c & _ & Hx).
    destruct (IH (after (SrcExec s) w)) as (w' & Hr & Hp & Hd).
    { intros x Hx'. apply Hin. now right. }
    exists w'. rewrite (bind_run _ _ _ _ _ Hx). repeat split; assumption.
Qed.

Lemma ensure_ok (w : world) :
  exists w', _ensure_mysql_fresh_session E w = (Ok tt, w') /\
             polls w' = polls w /\ dest w' = dest w.
Proof.
  unfold _ensure_mysql_fresh_session.
  destruct (execute_each_ok session_statements (after SrcConnect w))
    as (w1 & H1 & Hp1 & Hd1).
  { intros x Hx. unfold setup_statements. apply in_or_app. now left. }
  destruct (execute_ok session_state_sql w1) as (c & Hc & H2).
  { unfold setup_statements. apply in_or_app. right. now left. }
  eexists. split.
  - apply with_connection_ok.
    rewrite (bind_run _ _ _ _ _ H1), (bind_run _ _ _ _ _ H2).
    unfold do_fetchall, fetchall, bind, emit, ret. rewrite Hc. reflexivity.
  - cbn. split; [exact Hp1|exact Hd1].
Qed.

Lemma diag_keeps (label : string) (w : world) :
  exists w', _mysql_diag E label w = (Ok tt, w') /\
             polls w' = polls w /\ dest w' = dest w.
Proof.
  destruct (mysql_diag_ok E label w) as [w' H]. exists w'.
  split; [exact H|]. split.
  - assert (Hk : keeps polls (_mysql_diag E label))
      by (unfold _mysql_diag, with_connection, unpack_context; keeps_auto).
    exact (Hk _ _ _ H).
  - assert (Hk : keeps dest (_mysql_diag E label))
      by (unfold _mysql_diag, with_connection, unpack_context; keeps_auto).
    exact (Hk _ _ _ H).
Qed.

Lemma peek_keeps (select_sql : string) (n : Z) (w : world) :
  exists w', peek E select_sql n w = (Ok tt, w') /\
             polls w' = polls w /\ dest w' = dest w.
Proof.
  destruct (peek_ok E select_sql n w) as (w' & H & Hp & Hc & Hu & Hcm & _).
  exists w'. unfold dest. repeat split; congruence.
Qed.

Lemma logged_ok {A} (f : failure) (m : M A) (w w' : world) (a : A) :
  m w = (Ok a, w') -> logged f m w = (Ok a, w').
Proof. intros H. unfold logged. now rewrite (catch_run _ _ _ _ _ H). Qed.

Lemma logged_raise {A} (f : failure) (m : M A) (w w' : world) (e : exn) :
  m w = (Raise e, w') ->
  logged f m w = (Raise e, after (LogError f) w').
Proof. intros H. unfold logged. now rewrite (catch_run _ _ _ _ _ H). Qed.

Lemma open_stable_session_ok (w : world) :
  open_stable_session E w
  = (Ok tt,
     after (SrcExec "SET autocommit = 1")
       (after (SrcExec "SET SESSION TRANSACTION ISOLATION LEVEL READ COMMITTED")
          w)).
Proof.
  destruct (execute_ok "SET SESSION TRANSACTION ISOLATION LEVEL READ COMMITTED"
              w) as (c1 & _ & H1); [cbn; find_event|].
  destruct (execute_ok "SET autocommit = 1"
              (after (SrcExec "SET SESSION TRANSACTION ISOLATION LEVEL READ COMMITTED")
                 w)) as (c2 & _ & H2); [cbn; find_event|].
  unfold open_stable_session.
  rewrite (bind_run _ _ _ _ _ H1), (bind_run _ _ _ _ _ H2). reflexivity.
Qed.

(** The block that follows the preview, when its body returns or
    raises. *)
Lemma stable_block_ok {A} (f : failure) (body : M A) (w w7 : world) (a : A) :
  body (in_session w) = (Ok a, w7) ->
  logged f (with_connection (open_stable_session E ;;; body)) w
  = (Ok a, after SrcRelease w7).
Proof.
  intros Hb. apply logged_ok, with_connection_ok.
  rewrite (bind_run _ _ _ _ _ (open_stable_session_ok _)). exact Hb.
Qed.

Lemma stable_block_raise {A} (f : failure) (body : M A) (w w7 : world)
    (e : exn) :
  body (in_session w) = (Raise e, w7) ->
  logged f (with_connection (open_stable_session E ;;; body)) w
  = (Raise e, after (LogError f) (after SrcRelease w7)).
Proof.
  intros Hb. apply logged_raise, with_connection_raise.
  rewrite (bind_run _ _ _ _ _ (open_stable_session_ok _)). exact Hb.
Qed.

Lemma gate_on_plateau (wrapped : string) (stable_for interval max_wait c : Z)
    (n fuel : nat) (w : world) :
  0 < interval -> (1 <= n)%nat ->
  stable_for <= Z.of_nat n * interval -> Z.of_nat n * interval <= max_wait ->
  (forall i, (i <= n)%nat -> counts E (polls w + i) = Some c) ->
  (n + 1 <= fuel)%nat ->
  exists w',
    _wait_for_stable_count E fuel wrapped stable_for interval max_wait w
    = (Ok c, w') /\ dest w' = dest w /\ (polls w < polls w')%nat.
Proof.
  intros Hi Hn Hs Hw Hc Hf.
  destruct (plateau_any E wrapped stable_for interval max_wait c n Hi
              None 0 0 w fuel) as (w' & Hr & Hp & _);
    try lia; try assumption.
  exists w'. assert (Hg : _wait_for_stable_count E fuel wrapped stable_for
                            interval max_wait w = (Ok c, w')).
  { rewrite gate_unfold, Hr. reflexivity. }
  split; [exact Hg|]. split; [|lia].
  exact (keeps_dest_gate E fuel wrapped stable_for interval max_wait _ _ _ Hg).
Qed.

(** The three events that every entry point runs before its
    stabilization block. *)
Lemma preamble_ok (select_sql : string) (preview_rows : Z) (w : world) :
  exists w3,
    polls w3 = polls w /\ dest w3 = dest w /\
    forall A (k : M A),
      (_ensure_mysql_fresh_session E ;;;
       (_mysql_diag E "pre-select" ;;;
        (peek E select_sql preview_rows ;;; k))) w = (k w3).
Proof.
  destruct (ensure_ok w) as (w1 & H1 & Hp1 & Hd1).
  destruct (diag_keeps "pre-select" w1) as (w2 & H2 & Hp2 & Hd2).
  destruct (peek_keeps select_sql preview_rows w2) as (w3 & H3 & Hp3 & Hd3).
  exists w3. split; [congruence|]. split; [congruence|]. intros A k.
  rewrite (bind_run _ _ _ _ _ H1), (bind_run _ _ _ _ _ H2),
    (bind_run _ _ _ _ _ H3). reflexivity.
Qed.

End HealthyRuns.

Lemma answers_all_setup (E : env) : answers_all E -> answers E setup_statements.
Proof. intros H sql _. apply H. Qed.

Lemma dest_eq (a b : world) :
  dest a = dest b ->
  calls a = calls b /\ uncommitted a = uncommitted b /\
  committed a = committed b.
Proof. unfold dest. intros H. injection H. auto. Qed.

Lemma execute_select (E : env) (sql : string) (c : cursor) (w : world) :
  query E sql = Some c ->
  execute E sql w = (Ok c, after (SrcExec sql) w).
Proof. intros Hq. unfold execute, bind, emit. now rewrite Hq. Qed.

Lemma drift_false (c x : Z) :
  ((0 <=? c) && negb (c =? x))%bool = false -> 0 <= c -> c <> x -> False.
Proof.
  intros H H0 Hne. apply Bool.andb_false_iff in H. destruct H as [H|H].
  - apply Z.leb_gt in H. lia.
  - apply Bool.negb_false_iff, Z.eqb_eq in H. contradiction.
Qed.

Lemma difference_false (x y : Z) : negb (x =? y) = false -> x <> y -> False.
Proof. intros H Hne. apply Bool.negb_false_iff, Z.eqb_eq in H. contradiction. Qed.

(** The streaming strategy from end to end.  Nothing is assumed about the
    preview statement. *)
Lemma quiet_transfer (E : env) (fuel n : nat) (this : self)
    (select_sql insert_sql : string)
    (preview_rows chunk_size batch_size stable_for interval max_wait c : Z)
    (R : list Row) (w : world) :
  answers E setup_statements ->
  contains "|||" select_sql = false ->
  query E (_wrap_unlimited select_sql) = Some (mkCursor R false) ->
  0 < chunk_size ->
  (forall i b, driver E i b <> ExecFails) ->
  0 < interval -> (1 <= n)%nat ->
  stable_for <= Z.of_nat n * interval -> Z.of_nat n * interval <= max_wait ->
  (forall i, (i <= n)%nat -> counts E (polls w + i) = Some c) ->
  (n + 1 <= fuel)%nat ->
  let bs := batches batch_size R in
  let total := credits E (calls w) bs in
  exists w',
    transfer E fuel this select_sql insert_sql preview_rows chunk_size
      batch_size stable_for interval max_wait w = (Ok total, w') /\
    committed w' = committed w ++ uncommitted w ++ bs /\
    uncommitted w' = [] /\
    calls w' = (calls w + List.length bs)%nat /\
    (0 <= c -> c <> total ->
     exists t, trace w' = t ++ [LogWarning (WDrift c total)]) /\
    (polls w < polls w')%nat.
Proof.
  intros Hh Hph Hq Hchunk Hdrv Hi Hn Hs Hw Hc Hf bs total.
  unfold transfer. rewrite Hph.
  destruct (preamble_ok E Hh select_sql preview_rows w)
    as (w3 & Hp3 & Hd3 & Hrun).
  rewrite Hrun. clear Hrun.
  destruct (gate_on_plateau E (_wrap_unlimited select_sql) stable_for interval
              max_wait c n fuel (in_session w3)) as (w6 & Hg & Hd6 & Hp6);
    try assumption.
  { intros i Hle. cbn [in_session after polls]. rewrite Hp3. now apply Hc. }
  cbn [in_session after polls] in Hp6.
  destruct (stream_rows_spec E select_sql chunk_size R Hchunk)
    as (Hrows & Hend & _); [exact (autocommit_answers E Hh)|exact Hq|].
  destruct (execmany_spec E insert_sql batch_size (mssql_verify_rowcount this)
              (_stream_rows E select_sql chunk_size true)
              (mssql_fast_executemany this) w6)
    as (r & w7 & Hx & Hp7 & Hok & _).
  cbn zeta in Hok. rewrite Hrows in Hok. fold bs in Hok.
  destruct (Hok Hend (accepted_all E _ bs Hdrv)) as (-> & Hcm & Hun & Hcl).
  assert (Hd : dest w6 = dest w) by (rewrite Hd6; exact Hd3).
  apply dest_eq in Hd. destruct Hd as (Hk6 & Hu6 & Hc6).
  rewrite Hk6 in *. rewrite Hu6, Hc6 in Hcm. fold total in Hx.
  assert (Hblock :
    (expected <- _wait_for_stable_count E fuel (_wrap_unlimited select_sql)
                   stable_for interval max_wait ;;
     total0 <- _mssql_execmany E insert_sql
                 (_stream_rows E select_sql chunk_size true) batch_size
                 (mssql_fast_executemany this) (mssql_verify_rowcount this) ;;
     ret (expected, total0)) (in_session w3) = (Ok (c, total), w7)).
  { rewrite (bind_run _ _ _ _ _ Hg). cbv beta iota.
    rewrite (bind_run _ _ _ _ _ Hx). reflexivity. }
  apply (stable_block_ok E Hh EStreamingTransferFailed) in Hblock.
  cbv zeta. rewrite (bind_run _ _ _ _ _ Hblock). cbv beta iota.
  destruct (diag_keeps E "post-insert" (after SrcRelease w7))
    as (w9 & H9 & Hp9 & Hd9).
  rewrite (bind_run _ _ _ _ _ H9). cbv beta iota.
  apply dest_eq in Hd9. cbn [after calls uncommitted committed polls] in Hd9, Hp9.
  destruct Hd9 as (Hk9 & Hu9 & Hc9).
  destruct ((0 <=? c) && negb (c =? total))%bool eqn:Hdrift.
  - eexists. split; [reflexivity|]. cbn.
    repeat match goal with |- _ /\ _ => split end; try congruence; try lia.
    intros _ _. eexists. reflexivity.
  - eexists. split; [reflexivity|].
    repeat match goal with |- _ /\ _ => split end; try congruence; try lia.
    all: intros H0 Hne; exfalso; exact (drift_false _ _ Hdrift H0 Hne).
Qed.

(** X18: on a source that answers every statement, with a count that
    holds still for the stability window and a destination that accepts
    every call, [transfer] returns the sum of the credited counts of the
    batches of the result set and commits exactly those batches, after
    whatever the transaction already held; a count that differs from the
    total only adds a warning as the last event. *)
Theorem transfer_on_quiet_source (E : env) (fuel n : nat) (this : self)
    (select_sql insert_sql : string)
    (preview_rows chunk_size batch_size stable_for interval max_wait c : Z)
    (R : list Row) (w : world) :
  answers_all E ->
  contains "|||" select_sql = false ->
  query E (_wrap_unlimited select_sql) = Some (mkCursor R false) ->
  0 < chunk_size ->
  (forall i b, driver E i b <> ExecFails) ->
  0 < interval -> (1 <= n)%nat ->
  stable_for <= Z.of_nat n * interval -> Z.of_nat n * interval <= max_wait ->
  (forall i, (i <= n)%nat -> counts E (polls w + i) = Some c) ->
  (n + 1 <= fuel)%nat ->
  let bs := batches batch_size R in
  let total := credits E (calls w) bs in
  exists w',
    transfer E fuel this select_sql insert_sql preview_rows chunk_size
      batch_size stable_for interval max_wait w = (Ok total, w') /\
    committed w' = committed w ++ uncommitted w ++ bs /\
    uncommitted w' = [] /\
    calls w' = (calls w + List.length bs)%nat /\
    (0 <= c -> c <> total ->
     exists t, trace w' = t ++ [LogWarning (WDrift c total)]).
Proof.
  intros Hh Hph Hq Hchunk Hdrv Hi Hn Hs Hw Hc Hf bs total.
  destruct (quiet_transfer E fuel n this select_sql insert_sql preview_rows
              chunk_size batch_size stable_for interval max_wait c R w
              (answers_all_setup E Hh) Hph Hq Hchunk Hdrv Hi Hn Hs Hw Hc Hf)
    as (w' & Hrun & Hcm & Hun & Hk & Hdrift & _).
  exists w'. repeat match goal with |- _ /\ _ => split end; assumption.
Qed.

Lemma transfer_on_quiet_source_example :
  exists w',
    transfer small_env 5 manager src_sql dst_sql 10 2 2 1 1 5 w0
      = (Ok 4, w') /\
    committed w' = [[[VInt 0]; [VInt 1]]; [[VInt 2]; [VInt 3]]].
Proof.
  destruct (transfer_on_quiet_source small_env 5 1 manager src_sql dst_sql
              10 2 2 1 1 5 4 (numbered_rows 4) w0)
    as (w' & H & Hc & _).
  - intros sql. cbn. unfold answering.
    destruct (String.eqb sql _); eexists; reflexivity.
  - reflexivity.
  - reflexivity.
  - lia.
  - intros i b. discriminate.
  - lia.
  - lia.
  - lia.
  - lia.
  - intros i _. reflexivity.
  - lia.
  - exists w'. split; [exact H|]. rewrite Hc. reflexivity.
Defined.

(** The bulk strategy from end to end. *)
Lemma quiet_fetchall (E : env) (fuel n : nat)
    (this : self) (select_sql insert_sql : string)
    (preview_rows batch_size stable_for interval max_wait c : Z)
    (R : list Row) (w : world) :
  answers E setup_statements ->
  contains "|||" select_sql = false ->
  query E (_wrap_unlimited select_sql) = Some (mkCursor R false) ->
  (forall i b, driver E i b <> ExecFails) ->
  0 < interval -> (1 <= n)%nat ->
  stable_for <= Z.of_nat n * interval -> Z.of_nat n * interval <= max_wait ->
  (forall i, (i <= n)%nat -> counts E (polls w + i) = Some c) ->
  (n + 1 <= fuel)%nat ->
  let bs := batches batch_size R in
  let total := credits E (calls w) bs in
  let fetched := Z.of_nat (List.length R) in
  exists w',
    transfer_fetchall E fuel this select_sql insert_sql preview_rows
      batch_size stable_for interval max_wait w = (Ok total, w') /\
    committed w' = committed w ++ uncommitted w ++ bs /\
    uncommitted w' = [] /\
    calls w' = (calls w + List.length bs)%nat /\
    (0 <= c -> c <> fetched ->
     In (LogWarning (WDrift c fetched)) (trace w')) /\
    (fetched <> total ->
     exists t, trace w' = t ++ [LogWarning (WDestDifference fetched total)]) /\
    (polls w < polls w')%nat.
Proof.
  intros Hh Hph Hq Hdrv Hi Hn Hs Hw Hc Hf bs total fetched.
  unfold transfer_fetchall. rewrite Hph.
  destruct (preamble_ok E Hh select_sql preview_rows w)
    as (w3 & Hp3 & Hd3 & Hrun).
  rewrite Hrun. clear Hrun.
  destruct (gate_on_plateau E (_wrap_unlimited select_sql) stable_for interval
              max_wait c n fuel (in_session w3)) as (w6 & Hg & Hd6 & Hp6);
    try assumption.
  { intros i Hle. cbn [in_session after polls]. rewrite Hp3. now apply Hc. }
  cbn [in_session after polls] in Hp6.
  assert (Hblock :
    (expected <- _wait_for_stable_count E fuel (_wrap_unlimited select_sql)
                   stable_for interval max_wait ;;
     cur <- execute E (_wrap_unlimited select_sql) ;;
     rows <- do_fetchall cur ;;
     ret (expected, rows)) (in_session w3)
    = (Ok (c, R),
       after SrcFetchAll (after (SrcExec (_wrap_unlimited select_sql)) w6))).
  { rewrite (bind_run _ _ _ _ _ Hg). cbv beta iota.
    rewrite (bind_run _ _ _ _ _ (execute_select E _ _ w6 Hq)).
    reflexivity. }
  apply (stable_block_ok E Hh EFetchallFailed) in Hblock.
  cbv zeta. rewrite (bind_run _ _ _ _ _ Hblock). cbv beta iota.
  set (w7 := after SrcRelease _).
  destruct (execmany_spec E insert_sql batch_size (mssql_verify_rowcount this)
              (gen_of_list R) (mssql_fast_executemany this) w7)
    as (r & w8 & Hx & Hp8 & Hok & _).
  cbn zeta in Hok. rewrite rows_of_gen_of_list in Hok. fold bs in Hok.
  destruct (Hok (ending_gen_of_list R) (accepted_all E _ bs Hdrv))
    as (-> & Hcm & Hun & Hcl).
  assert (Hd : dest w6 = dest w) by (rewrite Hd6; exact Hd3).
  apply dest_eq in Hd. destruct Hd as (Hk6 & Hu6 & Hc6).
  cbn [w7 after calls uncommitted committed polls] in Hx, Hcm, Hcl, Hp8.
  rewrite Hk6 in *. rewrite Hu6, Hc6 in Hcm. fold total in Hx.
  rewrite (bind_run _ _ _ _ _ Hx). cbv beta iota.
  destruct (diag_keeps E "post-insert" w8) as (w9 & H9 & Hp9 & Hd9).
  rewrite (bind_run _ _ _ _ _ H9). cbv beta iota.
  apply dest_eq in Hd9. destruct Hd9 as (Hk9 & Hu9 & Hc9).
  fold fetched.
  destruct ((0 <=? c) && negb (c =? fetched))%bool eqn:Hdrift;
    destruct (negb (fetched =? total)) eqn:Hdiff;
    (eexists; split; [reflexivity|]; cbn;
     repeat match goal with |- _ /\ _ => split end;
     first [ congruence | lia
           | intros H0 Hne; exfalso; exact (drift_false _ _ Hdrift H0 Hne)
           | intros Hne; exfalso; exact (difference_false _ _ Hdiff Hne)
           | intros; rewrite ?in_app_iff; cbn; solve [auto 10]
           | intros; eexists; reflexivity ]).
Qed.

(** X19: under the same conditions [transfer_fetchall] returns the same
    total and commits the same batches as the streaming strategy; a count
    that differs from the number of rows fetched, or a total that differs
    from it, only adds warnings. *)
Theorem transfer_fetchall_on_quiet_source (E : env) (fuel n : nat)
    (this : self) (select_sql insert_sql : string)
    (preview_rows batch_size stable_for interval max_wait c : Z)
    (R : list Row) (w : world) :
  answers_all E ->
  contains "|||" select_sql = false ->
  query E (_wrap_unlimited select_sql) = Some (mkCursor R false) ->
  (forall i b, driver E i b <> ExecFails) ->
  0 < interval -> (1 <= n)%nat ->
  stable_for <= Z.of_nat n * interval -> Z.of_nat n * interval <= max_wait ->
  (forall i, (i <= n)%nat -> counts E (polls w + i) = Some c) ->
  (n + 1 <= fuel)%nat ->
  let bs := batches batch_size R in
  let total := credits E (calls w) bs in
  let fetched := Z.of_nat (List.length R) in
  exists w',
    transfer_fetchall E fuel this select_sql insert_sql preview_rows
      batch_size stable_for interval max_wait w = (Ok total, w') /\
    committed w' = committed w ++ uncommitted w ++ bs /\
    uncommitted w' = [] /\
    calls w' = (calls w + List.length bs)%nat /\
    (0 <= c -> c <> fetched ->
     In (LogWarning (WDrift c fetched)) (trace w')) /\
    (fetched <> total ->
     exists t, trace w' = t ++ [LogWarning (WDestDifference fetched total)]).
Proof.
  intros Hh Hph Hq Hdrv Hi Hn Hs Hw Hc Hf bs total fetched.
  destruct (quiet_fetchall E fuel n this select_sql insert_sql preview_rows
              batch_size stable_for interval max_wait c R w
              (answers_all_setup E Hh) Hph Hq Hdrv Hi Hn Hs Hw Hc Hf)
    as (w' & Hrun & Hcm & Hun & Hk & Hdrift & Hdiff & _).
  exists w'. repeat match goal with |- _ /\ _ => split end; assumption.
Qed.

Lemma transfer_fetchall_on_quiet_source_example :
  exists w',
    transfer_fetchall small_env 5 manager src_sql dst_sql 10 2 1 1 5 w0
      = (Ok 4, w') /\
    committed w' = [[[VInt 0]; [VInt 1]]; [[VInt 2]; [VInt 3]]].
Proof.
  destruct (transfer_fetchall_on_quiet_source small_env 5 1 manager src_sql
              dst_sql 10 2 1 1 5 4 (numbered_rows 4) w0)
    as (w' & H & Hc & _).
  - intros sql. cbn. unfold answering.
    destruct (String.eqb sql _); eexists; reflexivity.
  - reflexivity.
  - reflexivity.
  - intros i b. discriminate.
  - lia.
  - lia.
  - lia.
  - lia.
  - intros i _. reflexivity.
  - lia.
  - exists w'. split; [exact H|]. rewrite Hc. reflexivity.
Defined.

Lemma fill_short (batch : Z) (rows : list Row) :
  forall buf,
    Z.of_nat (List.length buf + List.length rows) < batch ->
    fill batch buf rows = ([], buf ++ rows).
Proof.
  induction rows as [|row rest IH]; intros buf Hlen.
  - cbn. now rewrite app_nil_r.
  - cbn [fill]. cbn [List.length] in Hlen.
    destruct (Z.leb_spec batch (Z.of_nat (List.length (buf ++ [row]))))
      as [Hfull|_].
    + rewrite length_app in Hfull. cbn [List.length] in Hfull. lia.
    + rewrite IH.
      * now rewrite <- app_assoc.
      * rewrite length_app. cbn [List.length]. lia.
Qed.

(** With a non-positive batch size the row-by-row loop hands every row
    to the writer on its own. *)
Lemma fetchone_loop_nonpositive (E : env) (this : self) (insert_sql : string)
    (batch_size : Z) (rows : list Row) :
  batch_size <= 0 ->
  (forall i b, driver E i b <> ExecFails) ->
  forall total fetched w,
    uncommitted w = [] ->
    exists w',
      fetchone_loop E this insert_sql batch_size rows false [] total fetched w
      = (Ok ([], total + credits E (calls w) (map (fun row => [row]) rows),
             fetched + Z.of_nat (List.length rows)), w') /\
      uncommitted w' = [] /\
      committed w' = committed w ++ map (fun row => [row]) rows /\
      polls w' = polls w /\
      calls w' = (calls w + List.length rows)%nat.
Proof.
  intros Hb Hdrv. induction rows as [|row rest IH]; intros total fetched w Hun.
  - cbn [fetchone_loop]. unfold bind, emit, ret. eexists. split.
    + cbn. rewrite !Z.add_0_r. reflexivity.
    + cbn. rewrite app_nil_r, Nat.add_0_r. repeat split. exact Hun.
  - cbn [fetchone_loop].
    rewrite (bind_run _ _ _ _ _ (emit_run SrcFetchOne w)).
    change (mkWorld _ _ _ _ _) with (after SrcFetchOne w).
    cbn [app List.length].
    destruct (Z.leb_spec batch_size (Z.of_nat 1)) as [_|Hbad]; [|lia].
    destruct (execmany_spec E insert_sql batch_size
                (mssql_verify_rowcount this) (gen_of_list [row])
                (mssql_fast_executemany this) (after SrcFetchOne w))
      as (r & w2 & Hx & Hp2 & Hok & _).
    cbn zeta in Hok. rewrite rows_of_gen_of_list in Hok.
    unfold batches in Hok. rewrite (fill_nonpositive batch_size _ Hb) in Hok.
    cbn [fst snd final_batch map app] in Hok.
    destruct (Hok (ending_gen_of_list _) (accepted_all E _ _ Hdrv))
      as (-> & Hcm2 & Hun2 & Hk2).
    cbn [after calls uncommitted committed polls List.length] in *.
    rewrite (bind_run _ _ _ _ _ Hx).
    destruct (IH (total + credits E (calls w) [[row]]) (fetched + 1) w2 Hun2)
      as (w' & Hrun & Hun' & Hcm' & Hp' & Hk').
    exists w'. split.
    + rewrite Hrun. rewrite Hk2. cbn [credits map List.length].
      replace (calls w + 1)%nat with (S (calls w)) by lia.
      do 3 f_equal; [|lia].
      f_equal. lia.
    + rewrite Hcm', Hcm2, Hun, Hp', Hp2, Hk', Hk2. cbn [map app].
      rewrite <- app_assoc. cbn [app]. repeat split; try assumption. lia.
Qed.

(** The read loop of [transfer_fetchone] with its final writer call, on a
    destination that accepts every call. *)
Lemma fetchone_reads_all (E : env) (this : self) (insert_sql : string)
    (batch_size x : Z) (R : list Row) (w : world) :
  uncommitted w = [] ->
  (forall i b, driver E i b <> ExecFails) ->
  let bs := batches batch_size R in
  exists w',
    (st <- fetchone_loop E this insert_sql batch_size R false [] 0 0 ;;
     (let '(buf, total_inserted, fetched0) := st in
      total_inserted0 <-
        (match buf with
         | [] => ret total_inserted
         | _ =>
             inserted <- _mssql_execmany E insert_sql (gen_of_list buf)
                           batch_size (mssql_fast_executemany this)
                           (mssql_verify_rowcount this) ;;
             ret (total_inserted + inserted)
         end) ;;
      ret (x, total_inserted0, fetched0))) w
    = (Ok (x, credits E (calls w) bs, Z.of_nat (List.length R)), w') /\
    committed w' = committed w ++ bs /\ uncommitted w' = [] /\
    calls w' = (calls w + List.length bs)%nat /\
    polls w' = polls w.
Proof.
  intros Hun0 Hdrv bs.
  destruct (Z.ltb_spec 0 batch_size) as [Hbatch|Hbatch].
  - destruct (fetchone_loop_spec E this insert_sql batch_size false Hbatch
                R [] 0 0 w)
      as (r & w7 & Hloop & Hun7 & Hcm7 & Hp7 & Hall & _).
    { cbn. lia. }
    { exact Hun0. }
    cbn zeta in Hcm7, Hall.
    set (full := fst (fill batch_size [] R)) in *.
    set (left := snd (fill batch_size [] R)) in *.
    pose proof (accepted_all E (calls w) full Hdrv) as Hacc.
    destruct (Hall Hacc) as (Hk7 & ->). rewrite Hacc in *.
    rewrite firstn_all in Hcm7. rewrite !Z.add_0_l in Hloop.
    assert (Hleft : Z.of_nat (List.length left) < batch_size).
    { apply (fill_sizes batch_size Hbatch R []). cbn. lia. }
    rewrite (bind_run _ _ _ _ _ Hloop). cbv beta iota.
    unfold bs, batches. fold full left.
    destruct left as [|y left'] eqn:Eleft.
    + exists w7. cbn [final_batch]. rewrite app_nil_r.
      repeat match goal with |- _ /\ _ => split end;
        [reflexivity|assumption|assumption|lia|assumption].
    + destruct (execmany_spec E insert_sql batch_size
                  (mssql_verify_rowcount this) (gen_of_list (y :: left'))
                  (mssql_fast_executemany this) w7)
        as (r & w8 & Hx & Hp8 & Hok & _).
      cbn zeta in Hok. rewrite rows_of_gen_of_list in Hok.
      assert (Hb : batches batch_size (y :: left') = [y :: left']).
      { unfold batches. rewrite fill_short by (cbn [List.length] in *; lia).
        reflexivity. }
      rewrite Hb in Hok.
      destruct (Hok (ending_gen_of_list _) (accepted_all E _ _ Hdrv))
        as (-> & Hcm8 & Hun8 & Hk8).
      exists w8. cbn [final_batch].
      rewrite (bind_run _ _ _ _ _ (bind_run _ _ _ _ _ Hx)).
      rewrite Hk7 in *. rewrite Hun7, Hcm7 in Hcm8.
      repeat match goal with |- _ /\ _ => split end.
      * unfold ret. rewrite credits_snoc. cbn [credits].
        rewrite Z.add_0_r. reflexivity.
      * rewrite Hcm8. cbn [app]. now rewrite <- app_assoc.
      * exact Hun8.
      * rewrite Hk8, length_app. cbn [List.length]. lia.
      * congruence.
  - destruct (fetchone_loop_nonpositive E this insert_sql batch_size R
                Hbatch Hdrv 0 0 w Hun0)
      as (w7 & Hloop & Hun7 & Hcm7 & Hp7 & Hk7).
    rewrite !Z.add_0_l in Hloop.
    rewrite (bind_run _ _ _ _ _ Hloop). cbv beta iota.
    unfold bs, batches. rewrite (fill_nonpositive batch_size _ Hbatch).
    cbn [fst snd final_batch]. rewrite app_nil_r, length_map.
    exists w7. repeat match goal with |- _ /\ _ => split end;
      [reflexivity|assumption|assumption|assumption|assumption].
Qed.

(** The row-by-row strategy from end to end, for any batch size. *)
Lemma quiet_fetchone (E : env) (fuel n : nat)
    (this : self) (select_sql insert_sql : string)
    (preview_rows batch_size stable_for interval max_wait c : Z)
    (R : list Row) (w : world) :
  answers E setup_statements ->
  contains "|||" select_sql = false ->
  query E (_wrap_unlimited select_sql) = Some (mkCursor R false) ->
  uncommitted w = [] ->
  (forall i b, driver E i b <> ExecFails) ->
  0 < interval -> (1 <= n)%nat ->
  stable_for <= Z.of_nat n * interval -> Z.of_nat n * interval <= max_wait ->
  (forall i, (i <= n)%nat -> counts E (polls w + i) = Some c) ->
  (n + 1 <= fuel)%nat ->
  let bs := batches batch_size R in
  let total := credits E (calls w) bs in
  let fetched := Z.of_nat (List.length R) in
  exists w',
    transfer_fetchone E fuel this select_sql insert_sql preview_rows
      batch_size stable_for interval max_wait w = (Ok total, w') /\
    committed w' = committed w ++ bs /\
    uncommitted w' = [] /\
    calls w' = (calls w + List.length bs)%nat /\
    (0 <= c -> c <> fetched ->
     In (LogWarning (WDrift c fetched)) (trace w')) /\
    (fetched <> total ->
     exists t, trace w' = t ++ [LogWarning (WDestDifference fetched total)]) /\
    (polls w < polls w')%nat.
Proof.
  intros Hh Hph Hq Hun0 Hdrv Hi Hn Hs Hw Hc Hf bs total fetched.
  unfold transfer_fetchone. rewrite Hph.
  destruct (preamble_ok E Hh select_sql preview_rows w)
    as (w3 & Hp3 & Hd3 & Hrun).
  rewrite Hrun. clear Hrun.
  destruct (gate_on_plateau E (_wrap_unlimited select_sql) stable_for interval
              max_wait c n fuel (in_session w3)) as (w6 & Hg & Hd6 & Hp6);
    try assumption.
  { intros i Hle. cbn [in_session after polls]. rewrite Hp3. now apply Hc. }
  cbn [in_session after polls] in Hp6.
  assert (Hd : dest w6 = dest w) by (rewrite Hd6; exact Hd3).
  apply dest_eq in Hd. destruct Hd as (Hk6 & Hu6 & Hc6).
  destruct (fetchone_reads_all E this insert_sql batch_size c R
              (after (SrcExec (_wrap_unlimited select_sql)) w6))
    as (w8 & Hread & Hcm8 & Hun8 & Hk8 & Hp8); try assumption.
  { cbn [after uncommitted]. congruence. }
  cbn [after calls committed polls] in Hread, Hcm8, Hk8, Hp8.
  rewrite Hk6 in *. rewrite Hc6 in Hcm8.
  fold bs in Hread, Hcm8, Hk8. fold total fetched in Hread.
  assert (Hblock :
    (expected <- _wait_for_stable_count E fuel (_wrap_unlimited select_sql)
                   stable_for interval max_wait ;;
     cur <- execute E (_wrap_unlimited select_sql) ;;
     st <- fetchone_loop E this insert_sql batch_size (pending cur)
             (broken cur) [] 0 0 ;;
     (let '(buf, total_inserted, fetched0) := st in
      total_inserted0 <-
        (match buf with
         | [] => ret total_inserted
         | _ =>
             inserted <- _mssql_execmany E insert_sql (gen_of_list buf)
                           batch_size (mssql_fast_executemany this)
                           (mssql_verify_rowcount this) ;;
             ret (total_inserted + inserted)
         end) ;;
      ret (expected, total_inserted0, fetched0))) (in_session w3)
    = (Ok (c, total, fetched), w8)).
  { rewrite (bind_run _ _ _ _ _ Hg). cbv beta iota.
    rewrite (bind_run _ _ _ _ _ (execute_select E _ _ w6 Hq)).
    cbv beta iota. cbn [pending broken]. exact Hread. }
  apply (stable_block_ok E Hh EFetchoneFailed) in Hblock.
  cbv zeta. rewrite (bind_run _ _ _ _ _ Hblock). cbv beta iota.
  destruct (diag_keeps E "post-insert" (after SrcRelease w8))
    as (w9 & H9 & Hp9 & Hd9).
  rewrite (bind_run _ _ _ _ _ H9). cbv beta iota.
  apply dest_eq in Hd9. cbn [after calls uncommitted committed polls] in Hd9, Hp9.
  destruct Hd9 as (Hk9 & Hu9 & Hc9).
  destruct ((0 <=? c) && negb (c =? fetched))%bool eqn:Hdrift;
    destruct (negb (fetched =? total)) eqn:Hdiff;
    (eexists; split; [reflexivity|]; cbn;
     repeat match goal with |- _ /\ _ => split end;
     first [ congruence | lia
           | intros H0 Hne; exfalso; exact (drift_false _ _ Hdrift H0 Hne)
           | intros Hne; exfalso; exact (difference_false _ _ Hdiff Hne)
           | intros; rewrite ?in_app_iff; cbn; solve [auto 10]
           | intros; eexists; reflexivity ]).
Qed.

(** X20: under the same conditions, and with nothing pending in the
    destination transaction, [transfer_fetchone] returns the same total and
    commits the same batches as the other two strategies. *)
Theorem transfer_fetchone_on_quiet_source (E : env) (fuel n : nat)
    (this : self) (select_sql insert_sql : string)
    (preview_rows batch_size stable_for interval max_wait c : Z)
    (R : list Row) (w : world) :
  answers_all E ->
  contains "|||" select_sql = false ->
  query E (_wrap_unlimited select_sql) = Some (mkCursor R false) ->
  0 < batch_size ->
  uncommitted w = [] ->
  (forall i b, driver E i b <> ExecFails) ->
  0 < interval -> (1 <= n)%nat ->
  stable_for <= Z.of_nat n * interval -> Z.of_nat n * interval <= max_wait ->
  (forall i, (i <= n)%nat -> counts E (polls w + i) = Some c) ->
  (n + 1 <= fuel)%nat ->
  let bs := batches batch_size R in
  let total := credits E (calls w) bs in
  let fetched := Z.of_nat (List.length R) in
  exists w',
    transfer_fetchone E fuel this select_sql insert_sql preview_rows
      batch_size stable_for interval max_wait w = (Ok total, w') /\
    committed w' = committed w ++ bs /\
    uncommitted w' = [] /\
    calls w' = (calls w + List.length bs)%nat /\
    (0 <= c -> c <> fetched ->
     In (LogWarning (WDrift c fetched)) (trace w')) /\
    (fetched <> total ->
     exists t, trace w' = t ++ [LogWarning (WDestDifference fetched total)]).
Proof.
  intros Hh Hph Hq Hbatch Hun0 Hdrv Hi Hn Hs Hw Hc Hf bs total fetched.
  destruct (quiet_fetchone E fuel n this select_sql insert_sql preview_rows
              batch_size stable_for interval max_wait c R w
              (answers_all_setup E Hh) Hph Hq Hun0 Hdrv Hi Hn Hs Hw Hc Hf)
    as (w' & Hrun & Hcm & Hun & Hk & Hdrift & Hdiff & _).
  exists w'. repeat match goal with |- _ /\ _ => split end; assumption.
Qed.

Lemma transfer_fetchone_on_quiet_source_example :
  exists w',
    transfer_fetchone small_env 5 manager src_sql dst_sql 10 3 1 1 5 w0
      = (Ok 4, w') /\
    committed w' = [[[VInt 0]; [VInt 1]; [VInt 2]]; [[VInt 3]]].
Proof.
  destruct (transfer_fetchone_on_quiet_source small_env 5 1 manager src_sql
              dst_sql 10 3 1 1 5 4 (numbered_rows 4) w0)
    as (w' & H & Hc & _).
  - intros sql. cbn. unfold answering.
    destruct (String.eqb sql _); eexists; reflexivity.
  - reflexivity.
  - reflexivity.
  - lia.
  - reflexivity.
  - intros i b. discriminate.
  - lia.
  - lia.
  - lia.
  - lia.
  - intros i _. reflexivity.
  - lia.
  - exists w'. split; [exact H|]. rewrite Hc. reflexivity.
Defined.

(** ** Reading before writing *)

Lemma fails_raise {A} (e : exn) : fails (@raise A e).
Proof. intros w r w' H a ->. discriminate H. Qed.

Lemma fails_bind_l {A B} (m : M A) (k : A -> M B) :
  fails m -> fails (bind m k).
Proof.
  intros Hm w r w' H a ->. unfold bind in H.
  destruct (m w) as [[x| |] w1] eqn:Hr; try discriminate H.
  exact (Hm _ _ _ Hr x eq_refl).
Qed.

Lemma fails_bind_r {A B} (m : M A) (k : A -> M B) :
  (forall x, fails (k x)) -> fails (bind m k).
Proof.
  intros Hk w r w' H a ->. unfold bind in H.
  destruct (m w) as [[x| |] w1] eqn:Hr; try discriminate H.
  exact (Hk x _ _ _ H a eq_refl).
Qed.

Lemma fails_finally {A} (m : M A) (f : M unit) :
  fails m -> fails (finally m f).
Proof.
  intros Hm w r w' H a ->. unfold finally in H.
  destruct (m w) as [[x|e|] w1] eqn:Hr; try discriminate H.
  - exact (Hm _ _ _ Hr x eq_refl).
  - unfold bind, raise in H. destruct (f w1) as [[[]| |] w2]; discriminate H.
Qed.

Lemma fails_logged {A} (f : failure) (m : M A) : fails m -> fails (logged f m).
Proof.
  intros Hm w r w' H a ->. unfold logged, catch in H.
  destruct (m w) as [[x|e|] w1] eqn:Hr; try discriminate H.
  exact (Hm _ _ _ Hr x eq_refl).
Qed.

Lemma source_only_bind {A B} (m : M A) (k : A -> M B) :
  source_only m -> (forall x, source_only (k x)) -> source_only (bind m k).
Proof.
  intros Hm Hk w r w' H. unfold bind in H.
  destruct (m w) as [[x|e|] w1] eqn:Hr.
  - destruct (Hm _ _ _ Hr) as (Hc & Hu & Hcm & t1 & Ht1 & Hp1).
    destruct (Hk x _ _ _ H) as (Hc2 & Hu2 & Hcm2 & t2 & Ht2 & Hp2).
    repeat match goal with |- _ /\ _ => split end; try congruence.
    exists (t1 ++ t2). split.
    + rewrite Ht2, Ht1. now rewrite app_assoc.
    + apply Forall_app. now split.
  - inversion H; subst. exact (Hm _ _ _ Hr).
  - inversion H; subst. exact (Hm _ _ _ Hr).
Qed.

Lemma source_only_bind_fails {A B} (m : M A) (k : A -> M B) :
  source_only m -> fails m -> source_only (bind m k).
Proof.
  intros Hm Hf w r w' H. unfold bind in H.
  destruct (m w) as [[x|e|] w1] eqn:Hr.
  - elim (Hf _ _ _ Hr x eq_refl).
  - inversion H; subst. exact (Hm _ _ _ Hr).
  - inversion H; subst. exact (Hm _ _ _ Hr).
Qed.

Lemma source_only_raise {A} (e : exn) : source_only (@raise A e).
Proof.
  intros w r w' H. inversion H; subst.
  repeat match goal with |- _ /\ _ => split end; try reflexivity.
  exists []. split; [now rewrite app_nil_r|constructor].
Qed.

(** The read that [transfer_fetchall] makes in its stabilization block,
    on a statement that is refused or on a connection that drops. *)
Lemma read_fails (E : env) (wrapped : string) (expected : Z) :
  (forall c, query E wrapped = Some c -> broken c = true) ->
  fails (cur <- execute E wrapped ;;
         rows <- do_fetchall cur ;;
         ret (expected, rows)).
Proof.
  intros Hb w r w' H a ->.
  unfold execute, do_fetchall, fetchall, bind, emit, ret, raise in H.
  destruct (query E wrapped) as [c|] eqn:Hq; [|discriminate H].
  rewrite (Hb c eq_refl) in H. discriminate H.
Qed.

Lemma read_block_source_only (E : env) (fuel : nat) (f : failure)
    (wrapped : string) (stable_for interval max_wait : Z) :
  source_only
    (logged f
       (with_connection
          (open_stable_session E ;;;
           expected <- _wait_for_stable_count E fuel wrapped stable_for
                         interval max_wait ;;
           cur <- execute E wrapped ;;
           rows <- do_fetchall cur ;;
           ret (expected, rows)))).
Proof.
  apply source_only_intro.
  - unfold logged, with_connection, open_stable_session, do_fetchall.
    apply keeps_catch; [|intros; keeps_auto].
    apply keeps_bind; [keeps_auto|intros]. apply keeps_finally; [|keeps_auto].
    apply keeps_bind; [keeps_auto|intros].
    apply keeps_bind; [apply keeps_dest_gate|intros]. keeps_auto.
  - unfold logged, with_connection, open_stable_session, do_fetchall.
    apply emits_catch; [|intros; emits_more].
    apply emits_bind; [emits_more|intros]. apply emits_finally; [|emits_more].
    apply emits_bind; [emits_more|intros].
    apply emits_bind; [apply emits_gate; reflexivity|intros]. emits_more.
Qed.

(** X21: [transfer_fetchall] reads the whole result set before it writes:
    when the select statement is refused or the connection drops during
    the read, the call does not return normally and nothing was sent to
    the destination: no call, nothing pending, nothing committed, no
    destination event in the trace. *)
Theorem fetchall_read_failure_spares_destination (E : env) (fuel : nat)
    (this : self) (select_sql insert_sql : string)
    (preview_rows batch_size stable_for interval max_wait : Z)
    (w w' : world) (r : res Z) :
  (forall c, query E (_wrap_unlimited select_sql) = Some c ->
             broken c = true) ->
  transfer_fetchall E fuel this select_sql insert_sql preview_rows
    batch_size stable_for interval max_wait w = (r, w') ->
  (forall x, r <> Ok x) /\
  calls w' = calls w /\ uncommitted w' = uncommitted w /\
  committed w' = committed w /\
  exists t, trace w' = trace w ++ t /\ Forall (fun ev => is_dst ev = false) t.
Proof.
  intros Hb Hrun. unfold transfer_fetchall in Hrun.
  destruct (contains "|||" select_sql).
  - split; [exact (fails_raise _ _ _ _ Hrun)|].
    exact (source_only_raise _ _ _ _ Hrun).
  - destruct (helpers_source_only E "pre-select" select_sql preview_rows)
      as (Hens & Hdiag & _ & _ & Hpeek & _).
    assert (Hf : fails
              (logged EFetchallFailed
                 (with_connection
                    (open_stable_session E ;;;
                     expected <- _wait_for_stable_count E fuel
                                   (_wrap_unlimited select_sql) stable_for
                                   interval max_wait ;;
                     cur <- execute E (_wrap_unlimited select_sql) ;;
                     rows <- do_fetchall cur ;;
                     ret (expected, rows))))).
    { apply fails_logged. unfold with_connection.
      apply fails_bind_r; intros _. apply fails_finally.
      apply fails_bind_r; intros _. apply fails_bind_r; intros expected.
      now apply read_fails. }
    cbv zeta in Hrun.
    match type of Hrun with
    | ?m w = _ => assert (Hfm : fails m); [|assert (Hsm : source_only m)]
    end.
    + repeat (apply fails_bind_r; intros _). now apply fails_bind_l.
    + apply source_only_bind; [exact Hens|intros _].
      apply source_only_bind; [exact Hdiag|intros _].
      apply source_only_bind; [exact Hpeek|intros _].
      apply source_only_bind_fails; [apply read_block_source_only|exact Hf].
    + split; [exact (Hfm _ _ _ Hrun)|exact (Hsm _ _ _ Hrun)].
Qed.

Lemma fetchall_read_failure_example :
  exists w',
    transfer_fetchall dropping_env 5 manager src_sql dst_sql 10 2 1 1 5 w0
      = (Raise DBAPIError, w') /\
    calls w' = 0%nat /\ uncommitted w' = [] /\ committed w' = [].
Proof.
  assert (Hrun :
    transfer_fetchall dropping_env 5 manager src_sql dst_sql 10 2 1 1 5 w0
    = (Raise DBAPIError,
       snd (transfer_fetchall dropping_env 5 manager src_sql dst_sql
              10 2 1 1 5 w0))).
  { vm_compute. reflexivity. }
  eexists. split; [exact Hrun|].
  assert (Hb : forall c, query dropping_env (_wrap_unlimited src_sql) = Some c ->
                         broken c = true).
  { intros c H. vm_compute in H. now inversion H. }
  destruct (fetchall_read_failure_spares_destination dropping_env 5 manager
              src_sql dst_sql 10 2 1 1 5 w0 _ _ Hb Hrun)
    as (_ & Hc & Hu & Hcm & _).
  split; [exact Hc|]. split; [exact Hu|exact Hcm].
Defined.

(** ** A failing count at the entry points *)

Lemma gate_failure_aborts {A B} (E : env) (f : failure) (gate : M Z)
    (rest : Z -> M A) (k : A -> M B) (w3 w6 : world) (e : exn) :
  answers E setup_statements ->
  gate (in_session w3) = (Raise e, w6) ->
  (st <- logged f
           (with_connection
              (open_stable_session E ;;; (x <- gate ;; rest x))) ;;
   k st) w3
  = (Raise e, after (LogError f) (after SrcRelease w6)).
Proof.
  intros Hh Hg.
  assert (Hbody : (x <- gate ;; rest x) (in_session w3) = (Raise e, w6))
    by now rewrite (bind_run _ _ _ _ _ Hg).
  now rewrite (bind_run _ _ _ _ _ (stable_block_raise E Hh f _ _ _ _ Hbody)).
Qed.

Lemma first_count_fails (E : env) (fuel : nat) (wrapped : string)
    (stable_for interval max_wait : Z) (w : world) :
  counts E (polls w) = None -> 0 <= max_wait -> (1 <= fuel)%nat ->
  _wait_for_stable_count E fuel wrapped stable_for interval max_wait w
  = (Raise DBAPIError,
     polled ("SELECT COUNT(*) FROM (" ++ wrapped ++ ") subq")%string w).
Proof.
  intros Hc Hm Hf. destruct fuel as [|fuel]; [lia|].
  rewrite gate_unfold, poll_loop_S.
  destruct (Z.leb_spec 0 max_wait) as [_|Hbad]; [|lia].
  now rewrite Hc.
Qed.

(** X22: when the first COUNT query of the stability gate fails, each of
    the three entry points gives the source connection back, logs its own
    error and raises the same exception; the destination is as it was. *)
Theorem count_failure_aborts_every_strategy (E : env) (fuel : nat)
    (this : self) (select_sql insert_sql : string)
    (preview_rows chunk_size batch_size stable_for interval max_wait : Z)
    (w : world) :
  answers_all E ->
  contains "|||" select_sql = false ->
  counts E (polls w) = None -> 0 <= max_wait -> (1 <= fuel)%nat ->
  (exists w',
     transfer E fuel this select_sql insert_sql preview_rows chunk_size
       batch_size stable_for interval max_wait w = (Raise DBAPIError, w') /\
     dest w' = dest w /\
     exists t,
       trace w' = t ++ [SrcRelease; LogError EStreamingTransferFailed]) /\
  (exists w',
     transfer_fetchall E fuel this select_sql insert_sql preview_rows
       batch_size stable_for interval max_wait w = (Raise DBAPIError, w') /\
     dest w' = dest w /\
     exists t, trace w' = t ++ [SrcRelease; LogError EFetchallFailed]) /\
  (exists w',
     transfer_fetchone E fuel this select_sql insert_sql preview_rows
       batch_size stable_for interval max_wait w = (Raise DBAPIError, w') /\
     dest w' = dest w /\
     exists t, trace w' = t ++ [SrcRelease; LogError EFetchoneFailed]).
Proof.
  intros Hall Hph Hc Hm Hf.
  pose proof (answers_all_setup E Hall) as Hh.
  destruct (preamble_ok E Hh select_sql preview_rows w)
    as (w3 & Hp3 & Hd3 & Hrun).
  assert (Hg := first_count_fails E fuel (_wrap_unlimited select_sql)
                  stable_for interval max_wait (in_session w3)).
  cbn [in_session after polls] in Hg. rewrite Hp3 in Hg.
  specialize (Hg Hc Hm Hf).
  change (mkWorld _ _ _ _ _) with (in_session w3) in Hg.
  repeat match goal with |- _ /\ _ => split end.
  - unfold transfer. rewrite Hph, Hrun. cbv zeta.
    rewrite (gate_failure_aborts E EStreamingTransferFailed _ _ _ _ _ _ Hh Hg).
    eexists. split; [reflexivity|]. split; [exact Hd3|].
    eexists. cbn [after trace]. rewrite <- app_assoc. reflexivity.
  - unfold transfer_fetchall. rewrite Hph, Hrun. cbv zeta.
    rewrite (gate_failure_aborts E EFetchallFailed _ _ _ _ _ _ Hh Hg).
    eexists. split; [reflexivity|]. split; [exact Hd3|].
    eexists. cbn [after trace]. rewrite <- app_assoc. reflexivity.
  - unfold transfer_fetchone. rewrite Hph, Hrun. cbv zeta.
    rewrite (gate_failure_aborts E EFetchoneFailed _ _ _ _ _ _ Hh Hg).
    eexists. split; [reflexivity|]. split; [exact Hd3|].
    eexists. cbn [after trace]. rewrite <- app_assoc. reflexivity.
Qed.

Lemma count_failure_aborts_example :
  exists w',
    transfer count_fails_env 5 manager src_sql dst_sql 10 2 2 1 1 5
      (mkWorld [] 2 0 [] []) = (Raise DBAPIError, w') /\
    dest w' = (0%nat, [], []).
Proof.
  destruct (count_failure_aborts_every_strategy count_fails_env 5 manager
              src_sql dst_sql 10 2 2 1 1 5 (mkWorld [] 2 0 [] []))
    as ((w' & H & Hd & _) & _).
  - intros sql. cbn. unfold answering.
    destruct (String.eqb sql _); eexists; reflexivity.
  - reflexivity.
  - reflexivity.
  - lia.
  - lia.
  - exists w'. split; [exact H|exact Hd].
Defined.

(** ** Sizes and the preview at the entry points *)





Lemma preview_raises (E : env) (select_sql : string) (n : Z) (w : world) :
  query E "SET autocommit = 1" <> None ->
  query E (_strip_semicolon select_sql ++ " LIMIT " ++ str_of_int n)%string
    = None ->
  exists u, _preview_rows E select_sql n w = (Raise DBAPIError, u).
Proof.
  intros Hset Hq.
  cbv [_preview_rows with_connection finally bind execute emit raise ret].
  destruct (query E "SET autocommit = 1"); [|now elim Hset].
  rewrite Hq. eexists. reflexivity.
Qed.

Lemma preview_warning_stays (E : env) (select_sql : string) (n : Z)
    (w : world) :
  answers E setup_statements ->
  contains "|||" select_sql = false ->
  query E (_strip_semicolon select_sql ++ " LIMIT " ++ str_of_int n)%string
    = None ->
  forall fuel this insert_sql chunk_size batch_size stable_for interval
         max_wait r w',
    transfer E fuel this select_sql insert_sql n chunk_size
             batch_size stable_for interval max_wait w = (r, w') \/
    transfer_fetchall E fuel this select_sql insert_sql n
             batch_size stable_for interval max_wait w = (r, w') \/
    transfer_fetchone E fuel this select_sql insert_sql n
             batch_size stable_for interval max_wait w = (r, w') ->
    In (LogWarning WPreviewFailed) (trace w').
Proof.
  intros Hh Hph Hq fuel this insert_sql chunk_size batch_size stable_for
         interval max_wait r w' Hrun.
  destruct (ensure_ok E Hh w) as (w2 & Hens & _).
  destruct (peek_then_stabilization E fuel this select_sql insert_sql n
              chunk_size batch_size stable_for interval max_wait w w2 Hph Hens)
    as (w3 & w4 & _ & _ & _ & _ & _ & Hwarn & Hnext).
  destruct (preview_raises E select_sql n w3 (autocommit_answers E Hh) Hq)
    as [u Hu].
  destruct (Hnext r w' Hrun) as [t Ht].
  rewrite Ht, (Hwarn _ _ Hu), !in_app_iff. left. right. now left.
Qed.

(** C9 (as the code has it).  A select statement with an unresolved
    placeholder is rejected before any preview is run.  For every other
    select statement, once the session set-up has returned, each strategy
    runs the preview: the select statement stripped of trailing whitespace
    and semicolons with [" LIMIT n"] appended, on a connection of its own.
    The block around it returns normally in every case and leaves the
    destination untouched; an exception of the preview is replaced by a
    logged warning, and the strategy goes on to open the stabilization
    connection.  A failing preview changes nothing in what follows: on
    a source whose set-up statements and select statement answer (nothing
    is assumed of the preview statement), with a count that holds still
    and a destination that accepts every call, each strategy makes its
    COUNT polls, reads every row and commits them all, and the warning is
    in its log when the preview statement failed. *)
Theorem preview_failure_never_aborts
    (E : env) (fuel n : nat) (this : self) (select_sql insert_sql : string)
    (preview_rows chunk_size batch_size stable_for interval max_wait c : Z)
    (R : list Row) (w : world) :
  let preview_sql :=
    (_strip_semicolon select_sql ++ " LIMIT "
     ++ str_of_int preview_rows)%string in
  let err :=
    ValueError ("Unresolved placeholder in select_sql: " ++ select_sql)%string in
  (contains "|||" select_sql = true ->
   transfer E fuel this select_sql insert_sql preview_rows chunk_size
            batch_size stable_for interval max_wait w = (Raise err, w) /\
   transfer_fetchall E fuel this select_sql insert_sql preview_rows
            batch_size stable_for interval max_wait w = (Raise err, w) /\
   transfer_fetchone E fuel this select_sql insert_sql preview_rows
            batch_size stable_for interval max_wait w = (Raise err, w)) /\
  (contains "|||" select_sql = false ->
   forall w1,
     _ensure_mysql_fresh_session E w = (Ok tt, w1) ->
     exists w2 w3,
       _mysql_diag E "pre-select" w1 = (Ok tt, w2) /\
       peek E select_sql preview_rows w2 = (Ok tt, w3) /\
       uncommitted w3 = uncommitted w2 /\ committed w3 = committed w2 /\
       (query E "SET autocommit = 1" <> None ->
        exists t,
          trace w3
          = trace w2
            ++ [SrcConnect; SrcExec "SET autocommit = 1"; SrcExec preview_sql]
            ++ t) /\
       (forall e u,
          _preview_rows E select_sql preview_rows w2 = (Raise e, u) ->
          trace w3 = trace u ++ [LogWarning WPreviewFailed]) /\
       (forall r w',
          transfer E fuel this select_sql insert_sql preview_rows chunk_size
                   batch_size stable_for interval max_wait w = (r, w') \/
          transfer_fetchall E fuel this select_sql insert_sql preview_rows
                   batch_size stable_for interval max_wait w = (r, w') \/
          transfer_fetchone E fuel this select_sql insert_sql preview_rows
                   batch_size stable_for interval max_wait w = (r, w') ->
          exists t,
            trace w'
            = trace w3
              ++ [SrcConnect;
                  SrcExec "SET SESSION TRANSACTION ISOLATION LEVEL READ COMMITTED"]
              ++ t)) /\
  (contains "|||" select_sql = false ->
   answers E setup_statements ->
   query E (_wrap_unlimited select_sql) = Some (mkCursor R false) ->
   0 < chunk_size ->
   uncommitted w = [] ->
   (forall i b, driver E i b <> ExecFails) ->
   0 < interval -> (1 <= n)%nat ->
   stable_for <= Z.of_nat n * interval -> Z.of_nat n * interval <= max_wait ->
   (forall i, (i <= n)%nat -> counts E (polls w + i) = Some c) ->
   (n + 1 <= fuel)%nat ->
   let bs := batches batch_size R in
   let total := credits E (calls w) bs in
   (exists w',
      transfer E fuel this select_sql insert_sql preview_rows chunk_size
               batch_size stable_for interval max_wait w = (Ok total, w') /\
      (polls w < polls w')%nat /\
      committed w' = committed w ++ bs /\
      (query E preview_sql = None ->
       In (LogWarning WPreviewFailed) (trace w'))) /\
   (exists w',
      transfer_fetchall E fuel this select_sql insert_sql preview_rows
               batch_size stable_for interval max_wait w = (Ok total, w') /\
      (polls w < polls w')%nat /\
      committed w' = committed w ++ bs /\
      (query E preview_sql = None ->
       In (LogWarning WPreviewFailed) (trace w'))) /\
   (exists w',
      transfer_fetchone E fuel this select_sql insert_sql preview_rows
               batch_size stable_for interval max_wait w = (Ok total, w') /\
      (polls w < polls w')%nat /\
      committed w' = committed w ++ bs /\
      (query E preview_sql = None ->
       In (LogWarning WPreviewFailed) (trace w')))).
Proof.
  cbn zeta. split; [|split].
  - intros Hph. unfold transfer, transfer_fetchall, transfer_fetchone.
    rewrite Hph. repeat split.
  - intros Hph w1 Hens.
    exact (peek_then_stabilization E fuel this select_sql insert_sql
             preview_rows chunk_size batch_size stable_for interval max_wait
             w w1 Hph Hens).
  - intros Hph Hh Hq Hchunk Hun Hdrv Hi Hn Hs Hw Hc Hf.
    repeat match goal with |- _ /\ _ => split end.
    + destruct (quiet_transfer E fuel n this select_sql insert_sql preview_rows
                  chunk_size batch_size stable_for interval max_wait c R w
                  Hh Hph Hq Hchunk Hdrv Hi Hn Hs Hw Hc Hf)
        as (w' & Hrun & Hcm & _ & _ & _ & Hp).
      rewrite Hun in Hcm. cbn [app] in Hcm. exists w'.
      repeat match goal with |- _ /\ _ => split end; try assumption.
      intros Hnone.
      eapply (preview_warning_stays E select_sql preview_rows w Hh Hph Hnone
                fuel this insert_sql chunk_size batch_size stable_for interval
                max_wait).
      left. exact Hrun.
    + destruct (quiet_fetchall E fuel n this select_sql insert_sql preview_rows
                  batch_size stable_for interval max_wait c R w
                  Hh Hph Hq Hdrv Hi Hn Hs Hw Hc Hf)
        as (w' & Hrun & Hcm & _ & _ & _ & _ & Hp).
      rewrite Hun in Hcm. cbn [app] in Hcm. exists w'.
      repeat match goal with |- _ /\ _ => split end; try assumption.
      intros Hnone.
      eapply (preview_warning_stays E select_sql preview_rows w Hh Hph Hnone
                fuel this insert_sql chunk_size batch_size stable_for interval
                max_wait).
      right. left. exact Hrun.
    + destruct (quiet_fetchone E fuel n this select_sql insert_sql preview_rows
                  batch_size stable_for interval max_wait c R w
                  Hh Hph Hq Hun Hdrv Hi Hn Hs Hw Hc Hf)
        as (w' & Hrun & Hcm & _ & _ & _ & _ & Hp).
      exists w'.
      repeat match goal with |- _ /\ _ => split end; try assumption.
      intros Hnone.
      eapply (preview_warning_stays E select_sql preview_rows w Hh Hph Hnone
                fuel this insert_sql chunk_size batch_size stable_for interval
                max_wait).
      right. right. exact Hrun.
Qed.

Lemma preview_fails_env_answers : answers preview_fails_env setup_statements.
Proof.
  intros sql Hin. cbn in Hin.
  repeat (destruct Hin as [<-|Hin]; [vm_compute; eexists; reflexivity|]).
  contradiction.
Qed.

(** A source on which the preview statement fails: the Peek block
    returns with the warning logged, and the transfer polls the count,
    reads the four rows and commits them. *)
Lemma failed_preview_run :
  (exists w2 w3,
     peek preview_fails_env src_sql 10 w2 = (Ok tt, w3) /\
     In (LogWarning WPreviewFailed) (trace w3)) /\
  exists w',
    transfer preview_fails_env 5 manager src_sql dst_sql 10 2 2 1 1 5 w0
      = (Ok 4, w') /\
    (0 < polls w')%nat /\
    committed w' = [[[VInt 0]; [VInt 1]]; [[VInt 2]; [VInt 3]]] /\
    In (LogWarning WPreviewFailed) (trace w').
Proof.
  destruct (preview_failure_never_aborts preview_fails_env 5 1 manager
              src_sql dst_sql 10 2 2 1 1 5 4 (numbered_rows 4) w0)
    as (_ & Hpeek & Hruns).
  split.
  - destruct (Hpeek eq_refl
                (snd (_ensure_mysql_fresh_session preview_fails_env w0)))
      as (w2 & w3 & Hdiag & Hpk & _ & _ & _ & Hwarn & _).
    + vm_compute. reflexivity.
    + exists w2, w3. split; [exact Hpk|].
      vm_compute in Hdiag. injection Hdiag as <-.
      erewrite Hwarn by (vm_compute; reflexivity).
      apply in_or_app. right. left. reflexivity.
  - destruct Hruns as ((w' & Hrun & Hp & Hcm & Hwarn) & _).
    + reflexivity.
    + exact preview_fails_env_answers.
    + reflexivity.
    + lia.
    + reflexivity.
    + intros i b. discriminate.
    + lia.
    + lia.
    + lia.
    + lia.
    + intros i _. reflexivity.
    + lia.
    + exists w'. split; [exact Hrun|]. split; [exact Hp|].
      split; [rewrite Hcm; reflexivity|]. apply Hwarn. reflexivity.
Defined.

(** C9, the claim as stated: for a select statement with a placeholder
    no strategy runs a preview; the call ends at once, nothing having
    been sent to the source. *)
Lemma placeholder_input_runs_no_preview :
  let run1 := transfer small_env 70 manager templated_sql dst_sql
                       10 5000 1000 60 1 600 w0 in
  let run2 := transfer_fetchall small_env 70 manager templated_sql dst_sql
                       10 1000 60 1 600 w0 in
  let run3 := transfer_fetchone small_env 70 manager templated_sql dst_sql
                       10 1000 60 1 600 w0 in
  (exists e, fst run1 = Raise e) /\ trace (snd run1) = [] /\
  (exists e, fst run2 = Raise e) /\ trace (snd run2) = [] /\
  (exists e, fst run3 = Raise e) /\ trace (snd run3) = [].
Proof.
  vm_compute. repeat split; eexists; reflexivity.
Qed.
